(** * TEI to JSON conversion: the mixed-content normalisation engine

    A shallow embedding of

      - [postgres-import/convert_tei_to_json.py]  (class [TEIConverter])
      - [postgres-import/import_tei_to_postgres.py] (class [TEIImporter])

    The methods [serialize_mixed_content], [handle_mixed_content_elements],
    [clean_mixed_content_duplicates], [extract_mixed_content_from_json],
    [tei_to_json] and [parse_tei_file] have the same text in both classes
    (up to the name of one local variable), so a single embedding serves
    both.

    Conventions.
      - A Python [str] is a [string] that holds its UTF-8 bytes;
        [str.strip] removes the white space of Unicode.
      - A Python [dict] is an association list in insertion order whose
        operations keep keys unique ([Dict.set] overwrites in place or
        appends, [Dict.pop] removes).  Keys are strings.
      - A JSON number is an integer.
      - An lxml element is a record [Element]; names are in Clark notation
        ([{uri}local]) as [elem.tag] and [elem.attrib] give them, and the
        record keeps the prefix of the element and the namespace
        declarations written on it, which [etree.tostring] writes again.
        Comments and processing instructions are children of an element
        as lxml has them: records whose tag is no name.
      - Exceptions are results: [Raise TypeError] and so on.
      - In-place changes ([elem.set], [data.update], [data.pop]) are
        explicit: a function returns the object as it leaves it.
      - [json.dumps] and [json.loads] are library functions: definitions
        and theorems take them as arguments (Section variables); [Json]
        holds executable reference versions, used to run the engine on
        concrete documents.  [etree.tostring] and [xmltodict.parse] are
        library functions too; they are modelled on trees (see below). *)

From Stdlib Require Import String Ascii List Bool ZArith Arith Lia.
Import ListNotations.
Local Open Scope string_scope.
Local Open Scope list_scope.

Set Warnings "-register-all".

(* ------------------------------------------------------------------ *)
(** ** Python strings *)

Module PyStr.

(** [s.startswith(p)] *)
Definition startswith (s p : string) : bool := String.prefix p s.

(** [str.isspace] on one ASCII character: TAB, LF, VT, FF, CR,
    FS, GS, RS, US and SPACE. *)
Definition is_space (c : ascii) : bool :=
  let n := nat_of_ascii c in
  (((9 <=? n) && (n <=? 13)) || ((28 <=? n) && (n <=? 32)))%nat.

(** The white space of two bytes: U+0085 and U+00A0. *)
Definition is_space2 (a b : ascii) : bool :=
  let a := nat_of_ascii a in
  let b := nat_of_ascii b in
  ((a =? 194) && ((b =? 133) || (b =? 160)))%nat.

(** The white space of three bytes: U+1680, U+2000 to U+200A, U+2028,
    U+2029, U+202F, U+205F and U+3000. *)
Definition is_space3 (a b c : ascii) : bool :=
  let a := nat_of_ascii a in
  let b := nat_of_ascii b in
  let c := nat_of_ascii c in
  (((a =? 225) && (b =? 154) && (c =? 128))
   || ((a =? 226) && (b =? 128)
       && (((128 <=? c) && (c <=? 138)) || (c =? 168) || (c =? 169) || (c =? 175)))
   || ((a =? 226) && (b =? 129) && (c =? 159))
   || ((a =? 227) && (b =? 128) && (c =? 128)))%nat.

(** The number of bytes of the white-space character at the front of
    [s], [0] when [s] does not start with white space. *)
Definition space_width (s : string) : nat :=
  match s with
  | String a rest =>
      if is_space a then 1%nat
      else match rest with
           | String b rest =>
               if is_space2 a b then 2%nat
               else match rest with
                    | String c _ => if is_space3 a b c then 3%nat else 0%nat
                    | EmptyString => 0%nat
                    end
           | EmptyString => 0%nat
           end
  | EmptyString => 0%nat
  end.

(** [s.lstrip()] *)
Fixpoint lstrip (s : string) : string :=
  match s with
  | EmptyString => EmptyString
  | String _ rest1 =>
      match space_width s with
      | 0%nat => s
      | 1%nat => lstrip rest1
      | 2%nat =>
          match rest1 with
          | String _ rest2 => lstrip rest2
          | EmptyString => s
          end
      | _ =>
          match rest1 with
          | String _ (String _ rest3) => lstrip rest3
          | _ => s
          end
      end
  end.

(** [s.rstrip()]: the text is cut where nothing but white space
    follows.  (A byte inside a character does not start white space.) *)
Fixpoint rstrip (s : string) : string :=
  match s with
  | EmptyString => EmptyString
  | String c rest =>
      match lstrip s with
      | EmptyString => EmptyString
      | _ => String c (rstrip rest)
      end
  end.

(** [s.strip()] *)
Definition strip (s : string) : string := rstrip (lstrip s).

(** Truth value of a Python string: non-empty. *)
Definition truthy (s : string) : bool :=
  match s with EmptyString => false | _ => true end.

(** [old] occurs at the front of [s]: non-overlapping, left-to-right
    replacement, as [str.replace] does.  [skip] counts the characters
    of a match still to be dropped. *)
Fixpoint replace_from (old new : string) (skip : nat) (s : string) : string :=
  match s with
  | EmptyString => EmptyString
  | String c rest =>
      match skip with
      | S k => replace_from old new k rest
      | O =>
          if String.prefix old s
          then new ++ replace_from old new (pred (String.length old)) rest
          else String c (replace_from old new 0%nat rest)
      end
  end.

(** With an empty [old], Python puts [new] before every character and
    at the end. *)
Fixpoint intersperse (new s : string) : string :=
  match s with
  | EmptyString => new
  | String c rest => new ++ String c (intersperse new rest)
  end.

(** [s.replace(old, new)] *)
Definition replace (s old new : string) : string :=
  match old with
  | EmptyString => intersperse new s
  | _ => replace_from old new 0%nat s
  end.

(** [sub in s] *)
Fixpoint contains (s sub : string) : bool :=
  String.prefix sub s ||
  match s with
  | EmptyString => false
  | String _ rest => contains rest sub
  end.

End PyStr.

(* ------------------------------------------------------------------ *)
(** ** JSON-compatible Python values *)

Inductive json : Type :=
| JNull
| JBool (b : bool)
| JNum (n : Z)
| JStr (s : string)
| JList (items : list json)
| JDict (entries : list (string * json)).

Definition dict := list (string * json).

(** Structural induction with the hypotheses for the nested lists. *)
Section JsonInduction.
Variable P : json -> Prop.
Hypothesis Hnull : P JNull.
Hypothesis Hbool : forall b, P (JBool b).
Hypothesis Hnum : forall n, P (JNum n).
Hypothesis Hstr : forall s, P (JStr s).
Hypothesis Hlist : forall l, Forall P l -> P (JList l).
Hypothesis Hdict : forall d, Forall (fun kv => P (snd kv)) d -> P (JDict d).

Fixpoint json_nested_ind (j : json) : P j :=
  match j with
  | JNull => Hnull
  | JBool b => Hbool b
  | JNum n => Hnum n
  | JStr s => Hstr s
  | JList l =>
      Hlist l ((fix all (l : list json) : Forall P l :=
                match l with
                | [] => Forall_nil _
                | x :: r => Forall_cons x (json_nested_ind x) (all r)
                end) l)
  | JDict d =>
      Hdict d ((fix all (d : dict) : Forall (fun kv => P (snd kv)) d :=
                match d with
                | [] => Forall_nil _
                | kv :: r => Forall_cons kv (json_nested_ind (snd kv)) (all r)
                end) d)
  end.
End JsonInduction.

(** *** Dictionaries *)

Module Dict.

(** [d.get(k)] / [d[k]] *)
Fixpoint get (k : string) (d : dict) : option json :=
  match d with
  | [] => None
  | (k', v) :: rest => if String.eqb k k' then Some v else get k rest
  end.

(** [k in d] *)
Definition mem (k : string) (d : dict) : bool :=
  existsb (fun kv => String.eqb k (fst kv)) d.

(** [d[k] = v]: an existing key keeps its position. *)
Fixpoint set (k : string) (v : json) (d : dict) : dict :=
  match d with
  | [] => [(k, v)]
  | (k', v') :: rest =>
      if String.eqb k k' then (k, v) :: rest else (k', v') :: set k v rest
  end.

(** [d.pop(k, None)] / [del d[k]] *)
Definition pop (k : string) (d : dict) : dict :=
  filter (fun kv => negb (String.eqb k (fst kv))) d.

(** [d.keys()] *)
Definition keys (d : dict) : list string := map fst d.

End Dict.

(* ------------------------------------------------------------------ *)
(** ** lxml elements *)

Inductive Element : Type :=
  mkElement {
      tag : string;                       (* elem.tag, Clark notation *)
      attrib : list (string * string);    (* elem.attrib, in order *)
      text : option string;               (* elem.text *)
      children : list Element;            (* list(elem) *)
      tail : option string;               (* elem.tail *)
      ns_prefix : string;                 (* elem.prefix, empty for None *)
      nsdef : list (string * string)      (* the declarations written on the
                                             element: prefix (empty for the
                                             default namespace) and URI *)
    }.

(** Comments and processing instructions are among the children of an
    element ([for child in element] and [len(element)] see them).  Their
    [tag] is not a [str] but the function [etree.Comment] or
    [etree.ProcessingInstruction]; the record holds in its place one of two
    strings that are no XML names.  Their [text] is their content; they
    have no attributes and no children. *)
Definition COMMENT : string := "<!--".
Definition PI : string := "<?".

Definition content_only (elem : Element) : bool :=
  String.eqb (tag elem) COMMENT || String.eqb (tag elem) PI.

(** [elem.set(k, v)]: an existing attribute keeps its position. *)
Fixpoint attrib_set (k v : string) (a : list (string * string)) : list (string * string) :=
  match a with
  | [] => [(k, v)]
  | (k', v') :: rest =>
      if String.eqb k k' then (k, v) :: rest else (k', v') :: attrib_set k v rest
  end.

Fixpoint attrib_get (k : string) (a : list (string * string)) : option string :=
  match a with
  | [] => None
  | (k', v) :: rest => if String.eqb k k' then Some v else attrib_get k rest
  end.

(** The TEI namespace, braced as in Clark notation. *)
Definition TEI_URI : string := "http://www.tei-c.org/ns/1.0".
Definition TEI_BRACED : string := "{http://www.tei-c.org/ns/1.0}".
Definition XML_URI : string := "http://www.w3.org/XML/1998/namespace".
Definition XML_BRACED : string := "{http://www.w3.org/XML/1998/namespace}".

(** The temporary attribute of the marking pass. *)
Definition AUX : string := "mixed-content-json".

(* ------------------------------------------------------------------ *)
(** ** Results of Python code

    A call returns a value or raises.  [Unmodelled] marks the one
    behaviour this embedding cannot represent: a dictionary key that is
    not a [str].  [OutOfFuel] is not a behaviour of the program: it is
    the answer of a fuelled function that was given too little fuel. *)

Inductive exn : Type := TypeError | ValueError | AttributeError | Unmodelled.

Inductive result (A : Type) : Type :=
| Ok (a : A)
| Raise (e : exn)
| OutOfFuel.

Arguments Ok {A} a.
Arguments Raise {A} e.
Arguments OutOfFuel {A}.

Definition bind {A B : Type} (r : result A) (k : A -> result B) : result B :=
  match r with
  | Ok a => k a
  | Raise e => Raise e
  | OutOfFuel => OutOfFuel
  end.

Notation "x <- e ;; k" := (bind e (fun x => k))
  (at level 61, e at next level, right associativity).

(** [[f(x) for x in l]] *)
Definition mapM {A B : Type} (f : A -> result B) : list A -> result (list B) :=
  fix go (l : list A) : result (list B) :=
    match l with
    | [] => Ok []
    | x :: rest => y <- f x ;; ys <- go rest ;; Ok (y :: ys)
    end.

(** [for x in l: a = f(a, x)] with a body that can raise *)
Definition foldM {A B : Type} (f : A -> B -> result A) : list B -> A -> result A :=
  fix go (l : list B) (a : A) : result A :=
    match l with
    | [] => Ok a
    | x :: rest => a <- f a x ;; go rest a
    end.

(** [{k: f(v) for k, v in d.items()}] over the entries whose key
    satisfies [keep]. *)
Definition map_values (keep : string -> bool) (f : json -> result json)
  : dict -> result dict :=
  fix go (d : dict) : result dict :=
    match d with
    | [] => Ok []
    | (k, v) :: rest =>
        if keep k
        then v' <- f v ;; rest' <- go rest ;; Ok ((k, v') :: rest')
        else go rest
    end.

(** [t and t.strip()] as a truth value. *)
Definition has_text (t : option string) : bool :=
  match t with
  | None => false
  | Some s => PyStr.truthy s && PyStr.truthy (PyStr.strip s)
  end.

(** [t or ""] *)
Definition text_or_empty (t : option string) : string :=
  match t with
  | None => ""
  | Some s => s
  end.

(** [key.replace('{http://www.tei-c.org/ns/1.0}', '')] *)
Definition clean_name (key : string) : string := PyStr.replace key TEI_BRACED "".

Definition text_segment (s : string) : json :=
  JDict [("type", JStr "text"); ("value", JStr s)].

(** [child.tag.replace(old, new)]: the tag of a comment or of a
    processing instruction is a function, which has no [replace]. *)
Definition tag_replace (child : Element) (old new : string) : result string :=
  if content_only child then Raise AttributeError
  else Ok (PyStr.replace (tag child) old new).

(** The dictionary built for one child:
    [child_data = {"type": child_tag, "value": child.text or ""}], then
    [child_data[clean_key] = value] for every attribute, in order. *)
Definition child_data (child : Element) : result dict :=
  child_tag <- tag_replace child TEI_BRACED "" ;;
  Ok (fold_left
        (fun data kv => Dict.set (clean_name (fst kv)) (JStr (snd kv)) data)
        (attrib child)
        [("type", JStr child_tag);
         ("value", JStr (text_or_empty (text child)))]).

(** One turn of [for child in element]: the child's dictionary is
    appended, then its tail when that is not blank. *)
Definition append_child (content : list json) (child : Element) : result (list json) :=
  child_data <- child_data child ;;
  let content := content ++ [JDict child_data] in
  Ok (if has_text (tail child)
      then content ++ [text_segment (text_or_empty (tail child))]
      else content).

(** [serialize_mixed_content(element)] *)
Definition serialize_mixed_content (element : Element) : result dict :=
  let result :=
    fold_left
      (fun result kv => Dict.set ("@" ++ clean_name (fst kv)) (JStr (snd kv)) result)
      (attrib element) [] in
  let has_mixed :=
    has_text (text element) || (0 <? List.length (children element))%nat in
  if has_mixed then
    let content :=
      if has_text (text element)
      then [text_segment (text_or_empty (text element))]
      else [] in
    content <- foldM append_child (children element) content ;;
    Ok (Dict.set "content" (JList content) result)
  else
    Ok (Dict.set "value" (JStr (text_or_empty (text element))) result).

(** The test of [handle_mixed_content_elements]:
    [(has_text and has_children) or has_tail]. *)
Definition eligible (elem : Element) : bool :=
  let has_text_ := has_text (text elem) in
  let has_children := (0 <? List.length (children elem))%nat in
  let has_tail := existsb (fun child => has_text (tail child)) (children elem) in
  (has_text_ && has_children) || has_tail.

(* ------------------------------------------------------------------ *)
(** ** The parts of a content list

    The segments the serializer makes of the leading text, of a child
    and of its tail, named one by one. *)

(** [{uri}local] without [{uri}] *)
Fixpoint after_brace (s : string) : string :=
  match s with
  | EmptyString => EmptyString
  | String c rest => if Ascii.eqb c "}" then rest else after_brace rest
  end.

Definition local_name (clark : string) : string :=
  if String.prefix "{" clark then after_brace clark else clark.

Definition leading_segments (e : Element) : list json :=
  if has_text (text e) then [text_segment (text_or_empty (text e))] else [].

Definition tail_segments (child : Element) : list json :=
  if has_text (tail child) then [text_segment (text_or_empty (tail child))] else [].

(** The dictionary the code builds for a child that is an element: the
    attributes are assigned after [type] and [value], under their names
    without the TEI namespace. *)
Definition child_dict (child : Element) : dict :=
  fold_left
    (fun data kv => Dict.set (clean_name (fst kv)) (JStr (snd kv)) data)
    (attrib child)
    [("type", JStr (clean_name (tag child)));
     ("value", JStr (text_or_empty (text child)))].

Fixpoint distinct (l : list string) : bool :=
  match l with
  | [] => true
  | x :: rest => negb (existsb (String.eqb x) rest) && distinct rest
  end.

(** The content list in document order: the leading text, then child by
    child the child's dictionary and its tail. *)
Definition ordered_content (e : Element) : list json :=
  leading_segments e
    ++ flat_map (fun child => JDict (child_dict child) :: tail_segments child) (children e).


(* ------------------------------------------------------------------ *)
(** ** The marking pass *)

(** The tags of [mixed_content_xpaths], in the order of the list. *)
Definition mixed_content_tags : list string :=
  map (fun local => (TEI_BRACED ++ local)%string)
    ["note"; "def"; "quote"; "cit"; "bibl"; "etym"; "sense"].

(** The loop [for elem in elements] below one element: the children in
    order, as long as nothing is raised. *)
Definition mark_each (mark : Element -> Element * result unit)
  : list Element -> list Element * result unit :=
  fix each (l : list Element) : list Element * result unit :=
    match l with
    | [] => ([], Ok tt)
    | kid :: rest =>
        let (kid, outcome) := mark kid in
        match outcome with
        | Ok _ => let (rest, outcome) := each rest in (kid :: rest, outcome)
        | _ => (kid :: rest, outcome)
        end
    end.

(** One XPath [//tei:name]: the elements of that name in document order
    (an element before its descendants).  An element is serialized as it
    stands when it is reached, so it sees the marks earlier XPaths left on
    its children and none of this one.  The result is the tree as the
    loop leaves it and the outcome of the loop: when the serializer
    raises, the elements reached before keep their marks and the others
    are not reached. *)
Fixpoint mark (json_dumps : json -> string) (name : string) (elem : Element)
  : Element * result unit :=
  match elem with
  | mkElement tg attrs tx kids tl px ns =>
      let mixed_json :=
        if String.eqb tg name && eligible elem
        then data <- serialize_mixed_content elem ;;
             Ok (attrib_set AUX (json_dumps (JDict data)) attrs)
        else Ok attrs in
      match mixed_json with
      | Ok attrs =>
          let (kids, outcome) := mark_each (mark json_dumps name) kids in
          (mkElement tg attrs tx kids tl px ns, outcome)
      | Raise e => (elem, Raise e)
      | OutOfFuel => (elem, OutOfFuel)
      end
  end.

(** [handle_mixed_content_elements(tree)]: the tree after the in-place
    [elem.set] calls, and whether the function returned or raised. *)
Definition handle_mixed_content_elements (json_dumps : json -> string) (tree : Element)
  : Element * result unit :=
  fold_left
    (fun state name =>
       match snd state with
       | Ok _ => mark json_dumps name (fst state)
       | _ => state
       end)
    mixed_content_tags (tree, Ok tt).

(* ------------------------------------------------------------------ *)
(** ** The serialized document

    [etree.tostring] writes the tree as text and [xmltodict.parse] reads
    that text again with expat.  What expat reports is modelled as a tree
    of [xml] nodes: names as written (prefixed, not Clark), the namespace
    declarations of an element before its attributes, attributes in
    order, and character data interleaved with the child elements.
    Comments and processing instructions are written and read over: the
    handler of xmltodict is not told of them. *)

Inductive xml : Type :=
| XText (s : string)
| XElem (name : string) (attrs : list (string * string)) (body : list xml).

(** [s[n:]] *)
Fixpoint drop (n : nat) (s : string) : string :=
  match n, s with
  | S n, String _ rest => drop n rest
  | _, _ => s
  end.

(** [s[len(p):]] *)
Definition after_prefix (p s : string) : string := drop (String.length p) s.

(** [{uri}local]: the URI, when the name has one. *)
Fixpoint upto_brace (s : string) : string :=
  match s with
  | EmptyString => EmptyString
  | String c rest => if Ascii.eqb c "}" then EmptyString else String c (upto_brace rest)
  end.

Definition namespace_uri (clark : string) : option string :=
  if String.prefix "{" clark then Some (upto_brace (drop 1 clark)) else None.

(** [prefix:local], or [local] without a prefix. *)
Definition qualified (pfx local : string) : string :=
  if PyStr.truthy pfx then (pfx ++ ":" ++ local)%string else local.

(** The name of an element as it is written in the document. *)
Definition written_tag (elem : Element) : string :=
  qualified (ns_prefix elem) (local_name (tag elem)).

(** The prefix bound to [uri] by the declarations in [scope] (innermost
    first); a declaration counts while its prefix is not declared again
    further in.  The default namespace does not apply to attributes. *)
Fixpoint prefix_for (uri : string) (scope : list (string * string))
  (hidden : list string) : option string :=
  match scope with
  | [] => None
  | (pfx, u) :: rest =>
      if PyStr.truthy pfx && negb (existsb (String.eqb pfx) hidden) && String.eqb u uri
      then Some pfx
      else prefix_for uri rest (pfx :: hidden)
  end.

(** The name of an attribute as it is written: an attribute in no
    namespace has its bare name, one in the XML namespace the fixed
    prefix [xml], one in another namespace the prefix its namespace is
    declared with.  (A document that binds one namespace to two prefixes
    keeps, for each attribute, the one it was written with; here the
    innermost is taken.  Every namespace in use is declared.) *)
Definition written_name (scope : list (string * string)) (clark : string) : string :=
  match namespace_uri clark with
  | None => clark
  | Some uri =>
      if String.eqb uri XML_URI then ("xml:" ++ local_name clark)%string
      else match prefix_for uri scope [] with
           | Some pfx => (pfx ++ ":" ++ local_name clark)%string
           | None => clark
           end
  end.

(** A namespace declaration, as the attribute expat reports. *)
Definition declaration (d : string * string) : string * string :=
  (if PyStr.truthy (fst d) then ("xmlns:" ++ fst d)%string else "xmlns", snd d).

Definition chars (t : option string) : list xml :=
  match t with
  | None => []
  | Some s => if PyStr.truthy s then [XText s] else []
  end.

Fixpoint written (scope : list (string * string)) (elem : Element) : xml :=
  match elem with
  | mkElement tg attrs tx kids _ px ns =>
      XElem (written_tag elem)
        (map declaration ns
           ++ map (fun kv => (written_name (ns ++ scope) (fst kv), snd kv)) attrs)
        (chars tx
           ++ flat_map
                (fun kid =>
                   (if content_only kid then [] else [written (ns ++ scope) kid])
                     ++ chars (tail kid))
                kids)
  end.

(** [etree.tostring(tree)], as expat reads it back. *)
Definition tostring (tree : Element) : xml := written [] tree.

(** The name is in no namespace or in the XML namespace: how it is
    written does not depend on the declarations of the document. *)
Definition own_name (clark : string) : bool :=
  match namespace_uri clark with
  | None => true
  | Some uri => String.eqb uri XML_URI
  end.

(** [xml_str.replace('xml:id', 'xmlId').replace('xml:lang', 'xmlLang')] on
    a piece of the text. *)
Definition rename_reserved (xml_str : string) : string :=
  PyStr.replace (PyStr.replace xml_str "xml:id" "xmlId") "xml:lang" "xmlLang".

(** The two replacements run over the whole text, so over every name,
    attribute value and character datum of the document: no match can
    contain a delimiter of the markup. *)
Fixpoint rename_document (doc : xml) : xml :=
  match doc with
  | XText s => XText (rename_reserved s)
  | XElem name attrs body =>
      XElem (rename_reserved name)
        (map (fun kv => (rename_reserved (fst kv), rename_reserved (snd kv))) attrs)
        (map rename_document body)
  end.

(* ------------------------------------------------------------------ *)
(** ** xmltodict

    The handler of [xmltodict.parse] with the options of the call in
    [tei_to_json]: [attr_prefix], [cdata_key], [force_list]; the other
    options have their defaults ([strip_whitespace=True], an empty
    [cdata_separator], no [force_cdata]). *)

Section Xmltodict.
Variable attr_prefix : string.
Variable cdata_key : string.
Variable force_list : list string.

(** [push_data(item, key, data)] *)
Definition push_data (item : option dict) (key : string) (data : json) : dict :=
  let item := match item with None => [] | Some d => d end in
  match Dict.get key item with
  | Some (JList values) => Dict.set key (JList (values ++ [data])) item
  | Some value => Dict.set key (JList [value; data]) item
  | None =>
      if existsb (String.eqb key) force_list
      then Dict.set key (JList [data]) item
      else Dict.set key data item
  end.

(** What [endElement] pushes into the parent for one element.  While the
    body is read the handler holds [item] and [data]: character data
    accumulates, a child is pushed when it ends. *)
Fixpoint element_value (node : xml) : json :=
  match node with
  | XText s => JStr s
  | XElem _ attrs body =>
      let attrs :=
        fold_left (fun d kv => Dict.set (attr_prefix ++ fst kv) (JStr (snd kv)) d)
          attrs [] in
      let item := match attrs with [] => None | _ => Some attrs end in
      let state :=
        fold_left
          (fun state child =>
             match child with
             | XText s => (fst state, (snd state ++ s)%string)
             | XElem name _ _ =>
                 (Some (push_data (fst state) name (element_value child)), snd state)
             end)
          body (item, "") in
      let data := PyStr.strip (snd state) in
      match fst state with
      | Some item =>
          JDict (if PyStr.truthy data then push_data (Some item) cdata_key (JStr data)
                 else item)
      | None => if PyStr.truthy data then JStr data else JNull
      end
  end.

(** [xmltodict.parse(xml_str, ...)]: the root is pushed into an empty
    parent. *)
Definition xmltodict_parse (doc : xml) : json :=
  match doc with
  | XText _ => JNull
  | XElem name _ _ => JDict (push_data None name (element_value doc))
  end.

End Xmltodict.

(** The [force_list] set of [tei_to_json]. *)
Definition FORCE_LIST : list string :=
  ["form"; "sense"; "cit"; "usg"; "ref"; "bibl"; "placeName"; "note"].

(* ------------------------------------------------------------------ *)
(** ** The reconciliation pass *)

(** [hash(v)] succeeds: a [list] or [dict] cannot be a set element. *)
Definition hashable (v : json) : bool :=
  match v with
  | JList _ | JDict _ => false
  | _ => true
  end.

(** [item.get('type')] for the items of [content] that are
    dictionaries. *)
Definition type_values (items : list json) : list json :=
  flat_map
    (fun item =>
       match item with
       | JDict entries =>
           [match Dict.get "type" entries with Some t => t | None => JNull end]
       | _ => []
       end)
    items.

(** [{item.get('type') for item in content if isinstance(item, dict)}]:
    a list gives its items, a string its characters and a dictionary its
    keys (none of them a [dict]); anything else cannot be iterated. *)
Definition element_types (content : json) : result (list json) :=
  match content with
  | JList items =>
      mapM (fun t => if hashable t then Ok t else Raise TypeError) (type_values items)
  | JStr _ | JDict _ => Ok []
  | JNull | JBool _ | JNum _ => Raise TypeError
  end.

(** [key in element_types] for a [str] key. *)
Definition type_in (key : string) (types : list json) : bool :=
  existsb (fun t => match t with JStr s => String.eqb key s | _ => false end) types.

(** [key not in ['content', 'type'] and not key.startswith('@')] *)
Definition is_child_key (key : string) : bool :=
  negb (String.eqb key "content" || String.eqb key "type")
  && negb (PyStr.startswith key "@").

(** The loop [for key in data.keys()], which fills [keys_to_remove]; the
    set of types is built anew for every key that passes the first
    test. *)
Fixpoint keys_to_remove (content : json) (keys : list string) : result (list string) :=
  match keys with
  | [] => Ok []
  | key :: rest =>
      if is_child_key key then
        types <- element_types content ;;
        more <- keys_to_remove content rest ;;
        Ok (if type_in key types then key :: more else more)
      else keys_to_remove content rest
  end.

(** The keys [clean_mixed_content_duplicates] pops from a dictionary
    before it walks its values: the empty key, then [keys_to_remove]. *)
Definition popped_keys (data : dict) : result (list string) :=
  match Dict.get "content" data with
  | Some content =>
      let data := Dict.pop "" data in
      keys <- keys_to_remove content (Dict.keys data) ;;
      Ok ("" :: keys)
  | None => Ok []
  end.

Definition kept (popped : list string) (key : string) : bool :=
  negb (existsb (String.eqb key) popped).

(** [clean_mixed_content_duplicates(data)] *)
Fixpoint clean_mixed_content_duplicates (data : json) : result json :=
  match data with
  | JDict entries =>
      popped <- popped_keys entries ;;
      cleaned <- map_values (kept popped) clean_mixed_content_duplicates entries ;;
      Ok (JDict cleaned)
  | JList items =>
      cleaned <- mapM clean_mixed_content_duplicates items ;;
      Ok (JList cleaned)
  | _ => Ok data
  end.

(** One element of the argument of [dict.update] when that argument is a
    sequence: it must itself be a sequence of length two, key then
    value. *)
Definition update_pair (data : dict) (pair : json) : result dict :=
  match pair with
  | JList [JStr k; v] => Ok (Dict.set k v data)
  | JList [JList _; _] | JList [JDict _; _] => Raise TypeError
  | JList [_; _] => Raise Unmodelled
  | JList _ => Raise ValueError
  | JStr (String a (String b EmptyString)) =>
      Ok (Dict.set (String a EmptyString) (JStr (String b EmptyString)) data)
  | JStr _ => Raise ValueError
  | JDict [(k1, _); (k2, _)] => Ok (Dict.set k1 (JStr k2) data)
  | JDict _ => Raise ValueError
  | JNull | JBool _ | JNum _ => Raise TypeError
  end.

(** [data.update(mixed_data)] *)
Definition dict_update (data : dict) (mixed_data : json) : result dict :=
  match mixed_data with
  | JDict entries => Ok (fold_left (fun d kv => Dict.set (fst kv) (snd kv) d) entries data)
  | JList pairs =>
      fold_left (fun acc pair => d <- acc ;; update_pair d pair) pairs (Ok data)
  | JStr EmptyString => Ok data
  | JStr _ => Raise ValueError
  | JNull | JBool _ | JNum _ => Raise TypeError
  end.

Section Reconciliation.
(** [json.loads] on a [str]: [None] stands for [JSONDecodeError]. *)
Variable json_loads : string -> option json.

(** The [try] block of [extract_mixed_content_from_json]. *)
Definition merge_mixed (data : dict) : result dict :=
  match Dict.get AUX data with
  | Some (JStr s) =>
      match json_loads s with
      | Some mixed_data =>
          data <- dict_update data mixed_data ;;
          Ok (Dict.pop AUX data)
      | None => Ok data
      end
  | Some _ => Raise TypeError
  | None => Ok data
  end.

(** [extract_mixed_content_from_json(data)].  The recursion goes into
    what [json.loads] returned, so it is not structural: [fuel] bounds
    its depth. *)
Fixpoint extract_mixed_content_from_json (fuel : nat) (data : json) : result json :=
  match fuel with
  | O => OutOfFuel
  | S fuel =>
      match data with
      | JDict entries =>
          entries <- merge_mixed entries ;;
          result <- map_values (fun _ => true)
                      (extract_mixed_content_from_json fuel) entries ;;
          clean_mixed_content_duplicates (JDict result)
      | JList items =>
          result <- mapM (extract_mixed_content_from_json fuel) items ;;
          Ok (JList result)
      | _ => Ok data
      end
  end.

End Reconciliation.

(* ------------------------------------------------------------------ *)
(** ** The converter *)

Section Converter.
Variable json_dumps : json -> string.
Variable json_loads : string -> option json.

(** The text handed to [xmltodict.parse]. *)
Definition xml_str (marked : Element) : xml := rename_document (tostring marked).

(** [tei_to_json(tree)]: the tree as the marking pass leaves it (the
    caller's tree is changed in place) and the returned value. *)
Definition tei_to_json (fuel : nat) (tree : Element) : Element * result json :=
  let (tree, marked) := handle_mixed_content_elements json_dumps tree in
  (tree,
   _ <- marked ;;
   let json_data := xmltodict_parse "" "" FORCE_LIST (xml_str tree) in
   extract_mixed_content_from_json json_loads fuel json_data).

End Converter.

(* ------------------------------------------------------------------ *)
(** ** One document *)

(** The columns of [parse_tei_file] that come from the engine; the
    columns the field extractor fills (lemma, variants, definitions,
    regions, search text) are the record [columns] further down.
    [tei_xml] is the document [etree.tostring] writes, without the white
    space that [pretty_print] adds. *)
Record parsed_file : Type :=
  mkParsedFile {
      id : string;
      wb : string;
      data : json;
      tei_xml : xml
    }.

(** [//tei:entry/@xml:id] *)
Fixpoint entry_ids (elem : Element) : list string :=
  match elem with
  | mkElement tg attrs _ kids _ _ _ =>
      (if String.eqb tg (TEI_BRACED ++ "entry")
       then match attrib_get (XML_BRACED ++ "id") attrs with
            | Some v => [v]
            | None => []
            end
       else [])
        ++ flat_map entry_ids kids
  end.

(** [s.split(sep)[0]] *)
Fixpoint split_head (sep s : string) : string :=
  match s with
  | EmptyString => EmptyString
  | String c rest =>
      if String.prefix sep s then EmptyString else String c (split_head sep rest)
  end.

Section ParseFile.
Variable json_dumps : json -> string.
Variable json_loads : string -> option json.

(** [parse_tei_file(filepath)], from the parsed [tree] on. *)
Definition parse_tei_file (fuel : nat) (tree : Element) : result parsed_file :=
  let entry_id := match entry_ids tree with x :: _ => x | [] => "" end in
  if negb (PyStr.truthy entry_id) then Raise ValueError
  else
    let wb := if PyStr.contains entry_id "__" then split_head "__" entry_id
              else "unknown" in
    let (tree, tei_json) := tei_to_json json_dumps json_loads fuel tree in
    tei_json <- tei_json ;;
    let tei_xml := tostring tree in
    Ok (mkParsedFile entry_id wb tei_json tei_xml).

End ParseFile.

(* ------------------------------------------------------------------ *)
(** ** Reference [json.dumps] and [json.loads]

    Executable versions of the two library functions, used to run the
    engine on concrete documents; the theorems take [json.dumps] and
    [json.loads] as arguments.  A JSON value of this development has no
    float: the reference decoder reads the texts the reference encoder
    writes and any JSON text whose numbers are integers.  On a text with
    a fraction, an exponent, [NaN] or [Infinity], which [json.loads]
    reads as a float, and on a [\u] escape above U+FFFF (a surrogate
    pair) it gives no value; no document run here has such a text. *)

Module Json.
Local Open Scope nat_scope.

Definition QUOTE : ascii := "034"%char.
Definition BACKSLASH : ascii := "092"%char.

Definition hex_digit (n : nat) : ascii :=
  ascii_of_nat (if n <? 10 then 48 + n else 87 + n).

(** One character inside a JSON string, [ensure_ascii=False]. *)
Definition escape_char (c : ascii) : string :=
  let n := nat_of_ascii c in
  if Ascii.eqb c QUOTE then String BACKSLASH (String QUOTE EmptyString)
  else if Ascii.eqb c BACKSLASH then String BACKSLASH (String BACKSLASH EmptyString)
  else if n =? 10 then String BACKSLASH "n"
  else if n =? 13 then String BACKSLASH "r"
  else if n =? 9 then String BACKSLASH "t"
  else if n =? 8 then String BACKSLASH "b"
  else if n =? 12 then String BACKSLASH "f"
  else if n <? 32
       then String BACKSLASH
              (String "u" (String "0" (String "0"
                 (String (hex_digit (n / 16)) (String (hex_digit (n mod 16)) EmptyString)))))
       else String c EmptyString.

Fixpoint escape (s : string) : string :=
  match s with
  | EmptyString => EmptyString
  | String c rest => (escape_char c ++ escape rest)%string
  end.

Definition quoted (s : string) : string :=
  String QUOTE (escape s ++ String QUOTE EmptyString).

Fixpoint digits (fuel n : nat) (acc : string) : string :=
  match fuel with
  | O => acc
  | S fuel =>
      let acc := String (ascii_of_nat (48 + n mod 10)) acc in
      if n / 10 =? 0 then acc else digits fuel (n / 10) acc
  end.

Definition decimal (n : Z) : string :=
  let m := Z.to_nat (Z.abs n) in
  ((if (n <? 0)%Z then "-" else "") ++ digits (S m) m "")%string.

(** [json.dumps(v, ensure_ascii=False)] *)
Fixpoint dumps (v : json) : string :=
  match v with
  | JNull => "null"
  | JBool true => "true"
  | JBool false => "false"
  | JNum n => decimal n
  | JStr s => quoted s
  | JList items =>
      ("[" ++ String.concat ", " (map dumps items) ++ "]")%string
  | JDict entries =>
      ("{" ++ String.concat ", "
                (map (fun kv => (quoted (fst kv) ++ ": " ++ dumps (snd kv))%string) entries)
           ++ "}")%string
  end.

Definition is_ws (c : ascii) : bool :=
  let n := nat_of_ascii c in
  (n =? 32) || (n =? 9) || (n =? 10) || (n =? 13).

Fixpoint skip_ws (s : string) : string :=
  match s with
  | String c rest => if is_ws c then skip_ws rest else s
  | EmptyString => EmptyString
  end.

Definition hex_value (c : ascii) : option nat :=
  let n := nat_of_ascii c in
  if (48 <=? n) && (n <=? 57) then Some (n - 48)
  else if (97 <=? n) && (n <=? 102) then Some (n - 87)
  else if (65 <=? n) && (n <=? 70) then Some (n - 55)
  else None.

(** UTF-8 for a code point of the basic plane, surrogates apart. *)
Definition utf8 (n : nat) : option string :=
  if n <? 128 then Some (String (ascii_of_nat n) EmptyString)
  else if n <? 2048
       then Some (String (ascii_of_nat (192 + n / 64))
                    (String (ascii_of_nat (128 + n mod 64)) EmptyString))
       else if (216 <=? n / 256) && (n / 256 <=? 223) then None
            else Some (String (ascii_of_nat (224 + n / 4096))
                         (String (ascii_of_nat (128 + (n / 64) mod 64))
                            (String (ascii_of_nat (128 + n mod 64)) EmptyString))).

Definition unescape (c : ascii) : option ascii :=
  if Ascii.eqb c QUOTE then Some QUOTE
  else if Ascii.eqb c BACKSLASH then Some BACKSLASH
  else if Ascii.eqb c "/" then Some "/"%char
  else if Ascii.eqb c "n" then Some (ascii_of_nat 10)
  else if Ascii.eqb c "r" then Some (ascii_of_nat 13)
  else if Ascii.eqb c "t" then Some (ascii_of_nat 9)
  else if Ascii.eqb c "b" then Some (ascii_of_nat 8)
  else if Ascii.eqb c "f" then Some (ascii_of_nat 12)
  else None.

(** The characters of a string up to its closing quote, and the rest. *)
Fixpoint string_body (s : string) : option (string * string) :=
  match s with
  | EmptyString => None
  | String c rest =>
      if Ascii.eqb c QUOTE then Some (EmptyString, rest)
      else if Ascii.eqb c BACKSLASH then
        match rest with
        | EmptyString => None
        | String e rest1 =>
            if Ascii.eqb e "u" then
              match rest1 with
              | String h1 (String h2 (String h3 (String h4 rest2))) =>
                  match hex_value h1, hex_value h2, hex_value h3, hex_value h4 with
                  | Some a, Some b, Some c, Some d =>
                      match utf8 (((a * 16 + b) * 16 + c) * 16 + d), string_body rest2 with
                      | Some u, Some (body, rest3) => Some ((u ++ body)%string, rest3)
                      | _, _ => None
                      end
                  | _, _, _, _ => None
                  end
              | _ => None
              end
            else
              match unescape e, string_body rest1 with
              | Some c', Some (body, rest2) => Some (String c' body, rest2)
              | _, _ => None
              end
        end
      else if nat_of_ascii c <? 32 then None
      else match string_body rest with
           | Some (body, rest') => Some (String c body, rest')
           | None => None
           end
  end.

Definition is_digit (c : ascii) : bool :=
  let n := nat_of_ascii c in (48 <=? n) && (n <=? 57).

Fixpoint digits_value (s : string) (acc : nat) : nat * string :=
  match s with
  | String c rest =>
      if is_digit c then digits_value rest (acc * 10 + (nat_of_ascii c - 48)) else (acc, s)
  | EmptyString => (acc, s)
  end.

(** An integer: an optional minus sign, then a single zero or digits
    that do not start with zero; not followed by a fraction or an
    exponent. *)
Definition number (s : string) : option (json * string) :=
  let negative := String.prefix "-" s in
  let s := if negative then drop 1 s else s in
  match s with
  | String c rest =>
      if is_digit c then
        let (n, rest) := if Ascii.eqb c "0" then (0, rest) else digits_value s 0 in
        if String.prefix "." rest || String.prefix "e" rest || String.prefix "E" rest
        then None
        else Some (JNum (if negative then - Z.of_nat n else Z.of_nat n)%Z, rest)
      else None
  | EmptyString => None
  end.

Definition QUOTE_MARK : string := String QUOTE EmptyString.

Fixpoint value (fuel : nat) (s : string) : option (json * string) :=
  match fuel with
  | O => None
  | S fuel =>
      let s := skip_ws s in
      if String.prefix "{" s then
        let s := skip_ws (drop 1 s) in
        if String.prefix "}" s then Some (JDict [], drop 1 s)
        else match members fuel s with
             | Some (entries, rest) => Some (JDict entries, rest)
             | None => None
             end
      else if String.prefix "[" s then
        let s := skip_ws (drop 1 s) in
        if String.prefix "]" s then Some (JList [], drop 1 s)
        else match elements fuel s with
             | Some (items, rest) => Some (JList items, rest)
             | None => None
             end
      else if String.prefix QUOTE_MARK s then
        match string_body (drop 1 s) with
        | Some (str, rest) => Some (JStr str, rest)
        | None => None
        end
      else if String.prefix "null" s then Some (JNull, after_prefix "null" s)
      else if String.prefix "true" s then Some (JBool true, after_prefix "true" s)
      else if String.prefix "false" s then Some (JBool false, after_prefix "false" s)
      else number s
  end
with elements (fuel : nat) (s : string) : option (list json * string) :=
  match fuel with
  | O => None
  | S fuel =>
      match value fuel s with
      | Some (v, rest) =>
          let rest := skip_ws rest in
          if String.prefix "," rest then
            match elements fuel (drop 1 rest) with
            | Some (vs, rest) => Some (v :: vs, rest)
            | None => None
            end
          else if String.prefix "]" rest then Some ([v], drop 1 rest)
          else None
      | None => None
      end
  end
with members (fuel : nat) (s : string) : option (dict * string) :=
  match fuel with
  | O => None
  | S fuel =>
      let s := skip_ws s in
      if String.prefix QUOTE_MARK s then
        match string_body (drop 1 s) with
        | Some (key, rest) =>
            let rest := skip_ws rest in
            if String.prefix ":" rest then
              match value fuel (drop 1 rest) with
              | Some (v, rest) =>
                  let rest := skip_ws rest in
                  if String.prefix "," rest then
                    match members fuel (drop 1 rest) with
                    | Some (more, rest) =>
                        (* a repeated key keeps its first place and takes
                           the last value *)
                        Some (fold_left (fun d kv => Dict.set (fst kv) (snd kv) d)
                                more [(key, v)], rest)
                    | None => None
                    end
                  else if String.prefix "}" rest then Some ([(key, v)], drop 1 rest)
                  else None
              | None => None
              end
            else None
        | None => None
        end
      else None
  end.

(** [json.loads(s)]; [None] is [JSONDecodeError]. *)
Definition loads (s : string) : option json :=
  match value (2 * String.length s + 2) s with
  | Some (v, rest) =>
      match skip_ws rest with
      | EmptyString => Some v
      | _ => None
      end
  | None => None
  end.

End Json.

(* ------------------------------------------------------------------ *)
(** ** Properties of reconciled trees *)

(** The key names the [type] of a segment of [content]. *)
Definition matches_segment_type (content : json) (key : string) : bool :=
  match content with
  | JList items =>
      existsb
        (fun item =>
           match item with
           | JDict segment =>
               match Dict.get "type" segment with
               | Some (JStr t) => String.eqb key t
               | _ => false
               end
           | _ => false
           end)
        items
  | _ => false
  end.

(** The three conditions of the dedup rule: not attribute-prefixed, not
    [content] or [type], and the name of a segment's type. *)
Definition redundant (content : json) (key : string) : bool :=
  negb (PyStr.startswith key "@")
  && negb (String.eqb key "content" || String.eqb key "type")
  && matches_segment_type content key.

(** A node with a non-empty [content] list has no key, other than the
    [@]-prefixed ones and [content] and [type], that is the [type] of one
    of the segments. *)
Definition no_duplicated_child (node : dict) : Prop :=
  forall items,
    Dict.get "content" node = Some (JList items) -> items <> [] ->
    forall key segment,
      In key (Dict.keys node) ->
      PyStr.startswith key "@" = false -> key <> "content" -> key <> "type" ->
      In (JDict segment) items ->
      Dict.get "type" segment <> Some (JStr key).

(** Every dictionary of a tree satisfies [P]. *)
Inductive all_nodes (P : dict -> Prop) : json -> Prop :=
| all_nodes_null : all_nodes P JNull
| all_nodes_bool b : all_nodes P (JBool b)
| all_nodes_num n : all_nodes P (JNum n)
| all_nodes_str s : all_nodes P (JStr s)
| all_nodes_list items : Forall (all_nodes P) items -> all_nodes P (JList items)
| all_nodes_dict entries :
    P entries -> Forall (fun kv => all_nodes P (snd kv)) entries ->
    all_nodes P (JDict entries).

(** A measure that a decoder decreases: the text of a JSON value is at
    least as long as the value is heavy. *)
Fixpoint weight (v : json) : nat :=
  match v with
  | JNull | JBool _ | JNum _ => 1
  | JStr s => S (String.length s)
  | JList items => S (list_sum (map weight items))
  | JDict entries =>
      S (list_sum (map (fun kv => S (String.length (fst kv) + weight (snd kv))) entries))
  end.

(* ------------------------------------------------------------------ *)
(** ** Example documents *)

Definition tei (local : string) : string := (TEI_BRACED ++ local)%string.

(** An element written without a prefix and without a namespace
    declaration of its own. *)
Definition element (tg : string) (attrs : list (string * string)) (tx : option string)
  (kids : list Element) (tl : option string) : Element :=
  mkElement tg attrs tx kids tl "" [].

(** The element as the root of a TEI document: the TEI namespace is
    declared on it as the default namespace. *)
Definition tei_root (e : Element) : Element :=
  mkElement (tag e) (attrib e) (text e) (children e) (tail e) (ns_prefix e)
    [("", TEI_URI)].

(** [<hi rend="sup">3</hi>Post] *)
Definition hi_sup : Element :=
  element (tei "hi") [("rend", "sup")] (Some "3") [] (Some "Post").

(** [<note>Pre <hi rend="sup">3</hi>Post</note>] *)
Definition note_pre_post : Element :=
  element (tei "note") [] (Some "Pre ") [hi_sup] None.

(** [<ref type="bibl" xml:id="r1">3</ref>Post] *)
Definition ref_bibl : Element :=
  element (tei "ref") [("type", "bibl"); ((XML_BRACED ++ "id")%string, "r1")]
    (Some "3") [] (Some "Post").

(** [<ref type="entry" target="#x" xml:id="r1">Wort</ref>.] *)
Definition ref_entry : Element :=
  element (tei "ref")
    [("type", "entry"); ("target", "#x"); ((XML_BRACED ++ "id")%string, "r1")]
    (Some "Wort") [] (Some ".").

(** [<note>siehe <ref type="entry" target="#x" xml:id="r1">Wort</ref>.</note>] *)
Definition note_siehe : Element :=
  element (tei "note") [] (Some "siehe ") [ref_entry] None.

(** U+00A0 NO-BREAK SPACE and U+2003 EM SPACE, in UTF-8. *)
Definition NBSP : string :=
  String (ascii_of_nat 194) (String (ascii_of_nat 160) EmptyString).
Definition EM_SPACE : string :=
  String (ascii_of_nat 226) (String (ascii_of_nat 128) (String (ascii_of_nat 131) EmptyString)).

(** [<note>&#xA0;<hi>x</hi>&#x2003;</note>]: the text and the tail are
    white space. *)
Definition note_of_spaces : Element :=
  element (tei "note") [] (Some NBSP) [element (tei "hi") [] (Some "x") [] (Some EM_SPACE)]
    None.

(** [<note>Pre <!-- sic -->Post</note>] *)
Definition note_with_comment : Element :=
  element (tei "note") [] (Some "Pre ") [element COMMENT [] (Some " sic ") [] (Some "Post")]
    None.

(** The node xmltodict and the merge produce for
    [<note n="1">Pre <hi rend="sup">3</hi>Post</note>]: the generic
    fields, then [content]. *)
Definition note_content : json :=
  JList [text_segment "Pre ";
         JDict [("type", JStr "hi"); ("value", JStr "3"); ("rend", JStr "sup")];
         text_segment "Post"].

Definition merged_note : dict :=
  [("n", JStr "1");
   ("hi", JDict [("rend", JStr "sup"); ("", JStr "3")]);
   ("", JStr "Pre Post");
   ("@n", JStr "1");
   ("content", note_content)].

(** The entries the dedup step leaves in a node, by key. *)
Definition survives (node : dict) (key : string) : bool :=
  match Dict.get "content" node with
  | Some content => negb (String.eqb key "") && negb (redundant content key)
  | None => true
  end.

(** The generic tree of the note as a document of its own, with the
    auxiliary attribute of the marking pass, and the reconciled tree. *)
Definition generic_note_doc : json :=
  xmltodict_parse "" "" FORCE_LIST
    (xml_str (fst (handle_mixed_content_elements Json.dumps (tei_root note_pre_post)))).

Definition reconciled_note_doc : json :=
  JDict [("note", JList [JDict [("xmlns", JStr TEI_URI); ("content", note_content)]])].

(** A generic node whose auxiliary attribute is not JSON. *)
Definition undecodable_node : dict :=
  [(AUX, JStr "{oops");
   ("hi", JDict [("rend", JStr "sup"); ("", JStr "3")]);
   ("", JStr "Pre Post")].

(** Two sibling notes: the first cannot be decoded, the second can. *)
Definition two_notes : json :=
  JList [JDict undecodable_node;
         JDict [(AUX, JStr (Json.dumps (JDict [("content", note_content)])));
                ("hi", JDict [("rend", JStr "sup"); ("", JStr "3")]);
                ("", JStr "Pre Post")]].

(** Some element of the written document has the attribute. *)
Fixpoint has_attribute (name : string) (doc : xml) : bool :=
  match doc with
  | XText _ => false
  | XElem _ attrs body =>
      existsb (fun kv => String.eqb name (fst kv)) attrs
      || existsb (has_attribute name) body
  end.


Definition tei_def_simple : Element :=
  element (tei "def") [] (Some "Simple text only") [] None.

(** [<form type="lemma"><orth>wort</orth></form>] *)
Definition form_lemma : Element :=
  element (tei "form") [("type", "lemma")] None
    [element (tei "orth") [] (Some "wort") [] None] None.

(** [<entry xmlns="http://www.tei-c.org/ns/1.0" xml:id="DWB__wort1">
       <form type="lemma"><orth>wort</orth></form>
       <sense><def>Simple text only</def>
              <note>Pre <hi rend="sup">3</hi>Post</note></sense>
     </entry>] (without the white space between the elements). *)
Definition entry_doc : Element :=
  tei_root
    (element (tei "entry") [((XML_BRACED ++ "id")%string, "DWB__wort1")] None
       [form_lemma;
        element (tei "sense") [] None [tei_def_simple; note_pre_post] None]
       None).

(** [<entry xmlns="http://www.tei-c.org/ns/1.0" xml:id="e1"><def>see
    xml:id</def></entry>] *)
Definition entry_mentioning_id : Element :=
  tei_root
    (element (tei "entry") [((XML_BRACED ++ "id")%string, "e1")] None
       [element (tei "def") [] (Some "see xml:id") [] None]
       None).

(** The text [etree.tostring] writes for [entry_mentioning_id]. *)
Definition entry_mentioning_id_text : string :=
  let q := String Json.QUOTE EmptyString in
  ("<entry xmlns=" ++ q ++ TEI_URI ++ q ++ " xml:id=" ++ q ++ "e1" ++ q
     ++ "><def>see xml:id</def></entry>")%string.

Definition entry_mentioning_id_renamed : string :=
  let q := String Json.QUOTE EmptyString in
  ("<entry xmlns=" ++ q ++ TEI_URI ++ q ++ " xmlId=" ++ q ++ "e1" ++ q
     ++ "><def>see xmlId</def></entry>")%string.

(** One entry of [{k: f(v) for k, v in d.items()}]: the key stays, the
    value is what [f] returns. *)
Definition entry_maps (f : json -> result json) (kv kv' : string * json) : Prop :=
  fst kv' = fst kv /\ f (snd kv) = Ok (snd kv').

(** The handler's [item], read as a dictionary: [None] has no key. *)
Definition item_or_empty (item : option dict) : dict :=
  match item with
  | None => []
  | Some d => d
  end.

(** The weight of the entries of a dictionary. *)
Definition entries_weight (entries : dict) : nat :=
  list_sum (map (fun kv => S (String.length (fst kv) + weight (snd kv))) entries).

(* ------------------------------------------------------------------ *)
(** ** Views of a tree, for the properties of the marking pass *)

(** Structural induction on elements, with the hypothesis for the
    children. *)
Section ElementInduction.
Variable P : Element -> Prop.
Hypothesis Helem :
  forall tg attrs tx kids tl px ns,
    Forall P kids -> P (mkElement tg attrs tx kids tl px ns).

Fixpoint Element_nested_ind (e : Element) : P e :=
  match e with
  | mkElement tg attrs tx kids tl px ns =>
      Helem tg attrs tx kids tl px ns
        ((fix all (l : list Element) : Forall P l :=
            match l with
            | [] => Forall_nil _
            | x :: r => Forall_cons x (Element_nested_ind x) (all r)
            end) kids)
  end.
End ElementInduction.

(** The tree without the auxiliary attribute. *)
Fixpoint without_aux (elem : Element) : Element :=
  match elem with
  | mkElement tg attrs tx kids tl px ns =>
      mkElement tg
        (filter (fun kv => negb (String.eqb AUX (fst kv))) attrs)
        tx (map without_aux kids) tl px ns
  end.

(** The elements of a tree in document order. *)
Fixpoint elements (elem : Element) : list Element :=
  match elem with
  | mkElement _ _ _ kids _ _ _ => elem :: flat_map elements kids
  end.

(** [elem.get('mixed-content-json') is not None] *)
Definition is_marked (elem : Element) : bool :=
  match attrib_get AUX (attrib elem) with
  | Some _ => true
  | None => false
  end.

(** The element is one the marking pass looks at, and it is eligible. *)
Definition to_be_marked (elem : Element) : bool :=
  existsb (String.eqb (tag elem)) mixed_content_tags && eligible elem.

(** What the pass reads of an element: its tag and its eligibility stay,
    its mark is set or kept. *)
Definition marking_view (e : Element) : string * bool * bool :=
  (tag e, eligible e, is_marked e).

(* ------------------------------------------------------------------ *)
(** ** Views of the generic tree *)

(** The generic values of the child elements called [n], in order. *)
Definition child_values (n : string) (body : list xml) : list json :=
  flat_map
    (fun child =>
       match child with
       | XElem m _ _ =>
           if String.eqb m n then [element_value "" "" FORCE_LIST child] else []
       | XText _ => []
       end)
    body.

(** The field of a parent for its children of one name: nothing for no
    child; one child bare, or alone in a list when the name is in
    [FORCE_LIST]; several children in a list. *)
Definition field_of (n : string) (values : list json) : option json :=
  match values with
  | [] => None
  | [v] => Some (if existsb (String.eqb n) FORCE_LIST then JList [v] else v)
  | _ => Some (JList values)
  end.

Definition is_list (v : json) : bool :=
  match v with
  | JList _ => true
  | _ => false
  end.

(** No dictionary of the tree has the auxiliary key or a [content]
    key. *)
Fixpoint plain (v : json) : bool :=
  match v with
  | JDict entries =>
      negb (Dict.mem AUX entries) && negb (Dict.mem "content" entries)
      && forallb (fun kv => plain (snd kv)) entries
  | JList items => forallb plain items
  | _ => true
  end.

(** [None], [True], [False] or a number: a value that cannot be
    iterated. *)
Definition not_iterable (v : json) : bool :=
  match v with
  | JNull | JBool _ | JNum _ => true
  | _ => false
  end.

Definition is_str (v : json) : bool :=
  match v with
  | JStr _ => true
  | _ => false
  end.

(* ------------------------------------------------------------------ *)
(** ** Batches of files

    [TEIImporter.import_batch] and [import_directory], and
    [TEIConverter.convert_directory].  The files are the list that the
    directory search returned; what is done with one file is an argument:
    [parse] is [parse_tei_file] with every exception caught ([None]), and
    [convert_file] says whether a file was converted and written.  The
    database is the list of the batches handed to [executemany], in
    order; progress lines are the triples they print. *)

Section Batches.
Variable path : Type.
Variable row : Type.
Variable parse : path -> option row.

(** The loop of [import_batch]: the rows of the files that parse, and
    the number of the others. *)
Definition parse_batch (filepaths : list path) : list row * nat :=
  fold_left
    (fun state filepath =>
       match parse filepath with
       | Some data => (fst state ++ [data], snd state)
       | None => (fst state, S (snd state))
       end)
    filepaths ([], 0).

(** [import_batch(filepaths)]: the database afterwards, and the pair
    [(len(batch_data), failed)]. *)
Definition import_batch (db : list (list row)) (filepaths : list path)
  : list (list row) * (nat * nat) :=
  let (batch_data, failed) := parse_batch filepaths in
  let db := match batch_data with
            | [] => db
            | _ => db ++ [batch_data]
            end in
  (db, (List.length batch_data, failed)).

(** [range(start, stop, step)] for a positive [step]; [fuel] bounds the
    number of values. *)
Fixpoint range_from (fuel start stop step : nat) : list nat :=
  match fuel with
  | O => []
  | S fuel =>
      if (start <? stop)%nat
      then start :: range_from fuel (start + step) stop step
      else []
  end.

(** [range(0, total, batch_size)]: a step of zero is a [ValueError], a
    negative step from zero upwards gives nothing. *)
Definition batch_starts (total : nat) (batch_size : Z) : result (list nat) :=
  if (batch_size =? 0)%Z then Raise ValueError
  else if (batch_size <? 0)%Z then Ok []
       else Ok (range_from total 0 total (Z.to_nat batch_size)).

(** [tei_files[i:i + batch_size]] *)
Definition slice {A : Type} (l : list A) (i size : nat) : list A :=
  firstn size (skipn i l).

(** [import_directory(directory, batch_size)]: the database afterwards
    and the counters [imported] and [failed]. *)
Definition import_directory (db : list (list row)) (tei_files : list path)
  (batch_size : Z) : result (list (list row) * (nat * nat)) :=
  let total := List.length tei_files in
  if (total =? 0)%nat then Ok (db, (0, 0))
  else
    starts <- batch_starts total batch_size ;;
    Ok (fold_left
          (fun state i =>
             let batch := slice tei_files i (Z.to_nat batch_size) in
             let '(db, (success, fail)) := import_batch (fst state) batch in
             (db, (fst (snd state) + success, snd (snd state) + fail)))
          starts (db, (0, 0))).

Variable convert_file : path -> bool.

(** The loop of [convert_directory] from file number [i] on: the
    counters, and the progress lines [(i, converted, failed)], printed
    when [i % 100 == 0 or i == total]. *)
Fixpoint convert_loop (total i converted failed : nat) (files : list path)
  : nat * nat * list (nat * nat * nat) :=
  match files with
  | [] => (converted, failed, [])
  | filepath :: rest =>
      let converted := if convert_file filepath then S converted else converted in
      let failed := if convert_file filepath then failed else S failed in
      let line := if ((i mod 100 =? 0) || (i =? total))%nat
                  then [(i, converted, failed)] else [] in
      match convert_loop total (S i) converted failed rest with
      | (c, f, lines) => (c, f, line ++ lines)
      end
  end.

(** [convert_directory()]: nothing is counted or printed for an empty
    directory. *)
Definition convert_directory (tei_files : list path) : nat * nat * list (nat * nat * nat) :=
  convert_loop (List.length tei_files) 1 0 0 tei_files.

End Batches.

(** The rows of the files that parse, in the order of the files. *)
Definition parsed_rows {path row : Type} (parse : path -> option row)
  (files : list path) : list row :=
  flat_map (fun f => match parse f with Some r => [r] | None => [] end) files.

(** The number of the files that do not parse. *)
Definition failed_count {path row : Type} (parse : path -> option row)
  (files : list path) : nat :=
  List.length (filter (fun f => match parse f with Some _ => false | None => true end) files).

(** The batches that reach the database: the empty ones are not sent. *)
Definition sent {row : Type} (batches : list (list row)) : list (list row) :=
  filter (fun b => match b with [] => false | _ => true end) batches.

(* ------------------------------------------------------------------ *)
(** ** The field extractor

    [extract_text_list] and [extract_text] run an XPath on the tree.  The
    paths of [parse_tei_file] that end in [text()] have one of two shapes,
    [//tei:a[@type="t"]/text()] and [//tei:a[@type="t"]/tei:b/text()]
    (the predicate may be missing): they choose elements by their name,
    their [type] attribute and the same of their parent, and give the
    text nodes of the chosen elements in document order.  The text nodes
    of an element are its [text] and the [tail]s of its children, one
    node each. *)

(** What a step of such a path reads of an element. *)
Definition look (elem : Element) : string * option string :=
  (tag elem, attrib_get "type" (attrib elem)).

Definition text_node (t : option string) : list string :=
  match t with
  | Some s => [s]
  | None => []
  end.

(** The text nodes of the chosen elements, in document order: the text of
    an element, then child by child what the child's subtree gives and the
    child's tail.  [parent] is the parent of [elem], [None] at the root
    element. *)
Fixpoint text_nodes (chosen : option (string * option string) -> string * option string -> bool)
  (parent : option (string * option string)) (elem : Element) : list string :=
  match elem with
  | mkElement _ _ tx kids _ _ _ =>
      let here := chosen parent (look elem) in
      (if here then text_node tx else [])
        ++ flat_map
             (fun kid =>
                text_nodes chosen (Some (look elem)) kid
                  ++ (if here then text_node (tail kid) else []))
             kids
  end.

(** [tei:local] *)
Definition named (local : string) (v : string * option string) : bool :=
  String.eqb (fst v) (TEI_BRACED ++ local).

(** [tei:local[@type="t"]] *)
Definition typed (local t : string) (v : string * option string) : bool :=
  named local v
  && match snd v with
     | Some x => String.eqb x t
     | None => false
     end.

(** [//a/b/text()], with [a] and [b] tests on an element. *)
Definition child_of (a b : string * option string -> bool)
  (parent : option (string * option string)) (v : string * option string) : bool :=
  b v && match parent with
         | Some p => a p
         | None => false
         end.

(** [//tei:form[@type="t"]/tei:orth/text()] *)
Definition form_texts (t : string) (tree : Element) : list string :=
  text_nodes (child_of (typed "form" t) (named "orth")) None tree.

(** [//tei:sense/tei:def/text()] *)
Definition definition_texts (tree : Element) : list string :=
  text_nodes (child_of (named "sense") (named "def")) None tree.

(** [//tei:usg[@type="geographic"]/text()] *)
Definition region_texts (tree : Element) : list string :=
  text_nodes (fun _ v => typed "usg" "geographic" v) None tree.

(** [//tei:cit[@type="example"]/tei:quote/text()] *)
Definition example_texts (tree : Element) : list string :=
  text_nodes (child_of (typed "cit" "example") (named "quote")) None tree.

(** The columns of [parse_tei_file] that the field extractor fills. *)
Record columns : Type :=
  mkColumns {
      lemma : string;
      lemma_variants : list string;
      definitions : list string;
      regions : list string;
      search_text : string
    }.

Section Columns.
(** [list(set(l))]: the order is that of the hash table. *)
Variable set_list : list string -> list string.
Variable json_dumps : json -> string.

(** The extractor part of [parse_tei_file], which is reached in full
    when [tei_to_json] returns.  The examples are read after
    [tei_to_json], from the tree as the marking pass left it. *)
Definition extract_columns (tree : Element) : columns :=
  let lemma := match form_texts "lemma" tree with
               | x :: _ => x
               | [] => ""
               end in
  let variants := set_list (form_texts "variant" tree ++ form_texts "search" tree) in
  let definitions := definition_texts tree in
  let regions := set_list (region_texts tree) in
  let tree := fst (handle_mixed_content_elements json_dumps tree) in
  let search_parts := [lemma] ++ variants ++ definitions in
  let examples := example_texts tree in
  let search_parts := search_parts ++ firstn 5 examples in
  mkColumns lemma variants definitions regions (String.concat " " search_parts).

End Columns.

(** [<entry xml:id="DWB__wort1">
       <form type="lemma"><orth>wort</orth></form>
       <form type="variant"><orth>wurt</orth></form>
       <form type="search"><orth>wurt</orth></form>
       <usg type="geographic">Bayern</usg>
       <sense><def>Simple text only</def>
              <cit type="example"><quote>ein <hi rend="sup">3</hi>Post</quote></cit>
       </sense>
     </entry>] (without the white space between the elements). *)
Definition entry_with_fields : Element :=
  tei_root (element (tei "entry") [((XML_BRACED ++ "id")%string, "DWB__wort1")] None
    [form_lemma;
     element (tei "form") [("type", "variant")] None
       [element (tei "orth") [] (Some "wurt") [] None] None;
     element (tei "form") [("type", "search")] None
       [element (tei "orth") [] (Some "wurt") [] None] None;
     element (tei "usg") [("type", "geographic")] (Some "Bayern") [] None;
     element (tei "sense") [] None
       [tei_def_simple;
        element (tei "cit") [("type", "example")] None
          [element (tei "quote") [] (Some "ein ") [hi_sup] None] None]
       None]
    None).

(* ------------------------------------------------------------------ *)
(** ** Statistics of a conversion

    [TEIConverter.print_statistics]: the table [wb_stats], a dictionary
    in insertion order from a dictionary code to its counters.  A file
    that does not parse is passed over. *)

Record stats : Type :=
  mkStats {
      count : nat;
      unique_lemmas : list string;     (* a set *)
      total_variants : nat;
      total_definitions : nat
    }.

(** [s.add(x)] *)
Definition set_add (x : string) (s : list string) : list string :=
  if existsb (String.eqb x) s then s else s ++ [x].

Fixpoint stats_get (k : string) (d : list (string * stats)) : option stats :=
  match d with
  | [] => None
  | (k', v) :: rest => if String.eqb k k' then Some v else stats_get k rest
  end.

Fixpoint stats_set (k : string) (v : stats) (d : list (string * stats))
  : list (string * stats) :=
  match d with
  | [] => [(k, v)]
  | (k', v') :: rest =>
      if String.eqb k k' then (k, v) :: rest else (k', v') :: stats_set k v rest
  end.

(** The body of the loop for a file that parsed. *)
Definition count_entry (wb_stats : list (string * stats)) (wb : string) (c : columns)
  : list (string * stats) :=
  let wb_stats := match stats_get wb wb_stats with
                  | Some _ => wb_stats
                  | None => stats_set wb (mkStats 0 [] 0 0) wb_stats
                  end in
  match stats_get wb wb_stats with
  | Some s =>
      stats_set wb
        (mkStats (count s + 1)
           (set_add (lemma c) (unique_lemmas s))
           (total_variants s + List.length (lemma_variants c))
           (total_definitions s + List.length (definitions c)))
        wb_stats
  | None => wb_stats
  end.

(** [wb_stats] after the loop over the files; [parse] is
    [parse_tei_file] with every exception caught, and gives the code
    [wb] and the extracted columns. *)
Definition collect_statistics {path : Type} (parse : path -> option (string * columns))
  (tei_files : list path) : list (string * stats) :=
  fold_left
    (fun wb_stats filepath =>
       match parse filepath with
       | Some (wb, c) => count_entry wb_stats wb c
       | None => wb_stats
       end)
    tei_files [].

(** [wb_stats.get(k)], with the counters a new code starts from. *)
Definition get_or_zero (k : string) (d : list (string * stats)) : stats :=
  match stats_get k d with
  | Some s => s
  | None => mkStats 0 [] 0 0
  end.

(** What the table keeps true of every line: a code has been counted at
    least once, and its lemmas are a set no larger than its count. *)
Definition sound_line (kv : string * stats) : Prop :=
  1 <= count (snd kv)
  /\ List.length (unique_lemmas (snd kv)) <= count (snd kv)
  /\ NoDup (unique_lemmas (snd kv)).

(** A generic node with a child [content] of its own and the auxiliary
    encoding of a mapping that has the keys [@n] and [content]. *)
Definition encoded_mapping : dict :=
  [("@n", JStr "1"); ("content", note_content)].

Definition node_to_merge : dict :=
  [("n", JStr "1");
   (AUX, JStr (Json.dumps (JDict encoded_mapping)));
   ("content", JStr "generic");
   ("hi", JDict [("rend", JStr "sup"); ("", JStr "3")])].

(** [<entry xmlns="http://www.tei-c.org/ns/1.0"
            xmlns:dc="http://purl.org/dc/elements/1.1/"
            dc:source="DWB" xml:space="preserve">wort</entry>] *)
Definition entry_with_prefixes : Element :=
  mkElement (tei "entry")
    [("{http://purl.org/dc/elements/1.1/}source", "DWB");
     ((XML_BRACED ++ "space")%string, "preserve")]
    (Some "wort") [] None ""
    [("", TEI_URI); ("dc", "http://purl.org/dc/elements/1.1/")].

(* ================================================================== *)
(** * Properties *)

(* ------------------------------------------------------------------ *)
(** ** Facts about dictionaries *)

Module DictFacts.
Import Dict.

Lemma get_set_same k v d : get k (set k v d) = Some v.
Proof.
  induction d as [|[k' v'] d IH]; simpl.
  - now rewrite String.eqb_refl.
  - destruct (String.eqb k k') eqn:E; simpl.
    + now rewrite String.eqb_refl.
    + now rewrite E.
Qed.

Lemma get_set_other k k' v d : k <> k' -> get k (set k' v d) = get k d.
Proof.
  intros Hne. induction d as [|[k0 v0] d IH]; simpl.
  - apply String.eqb_neq in Hne. now rewrite Hne.
  - destruct (String.eqb k' k0) eqn:E; simpl.
    + apply String.eqb_eq in E. subst k0.
      apply String.eqb_neq in Hne. now rewrite Hne.
    + now rewrite IH.
Qed.

Lemma mem_get k d : mem k d = match get k d with Some _ => true | None => false end.
Proof.
  induction d as [|[k' v] d IH]; simpl; [reflexivity|].
  destruct (String.eqb k k'); simpl; auto.
Qed.

Lemma set_fresh k v d :
  existsb (String.eqb k) (keys d) = false -> set k v d = d ++ [(k, v)].
Proof.
  induction d as [|[k' v'] d IH]; simpl; [reflexivity|].
  intros H. apply orb_false_iff in H as [H1 H2].
  rewrite H1. now rewrite IH.
Qed.

Lemma keys_app (d1 d2 : dict) : keys (d1 ++ d2) = keys d1 ++ keys d2.
Proof. apply map_app. Qed.

Lemma get_pop_same k d : get k (pop k d) = None.
Proof.
  induction d as [|[k' v] d IH]; simpl; [reflexivity|].
  destruct (String.eqb k k') eqn:E; simpl; [assumption|].
  now rewrite E.
Qed.

Lemma get_pop_other k k' d : k <> k' -> get k (pop k' d) = get k d.
Proof.
  intros Hne. induction d as [|[k0 v] d IH]; simpl; [reflexivity|].
  destruct (String.eqb k' k0) eqn:E; simpl.
  - apply String.eqb_eq in E. subst k0.
    apply String.eqb_neq in Hne. now rewrite Hne.
  - now rewrite IH.
Qed.

End DictFacts.

(* ------------------------------------------------------------------ *)
(** ** The serializer *)

Section Serializer.
Import Dict DictFacts.

(** The dictionary of a child that is an element. *)
Lemma child_data_element (c : Element) :
  content_only c = false -> child_data c = Ok (child_dict c).
Proof. intros H. unfold child_data, tag_replace. now rewrite H. Qed.

Lemma child_data_content_only (c : Element) :
  content_only c = true -> child_data c = Raise AttributeError.
Proof. intros H. unfold child_data, tag_replace. now rewrite H. Qed.

(** The loop over the children appends to what is already there. *)
Lemma fold_append_child (kids : list Element) (content : list json) :
  existsb content_only kids = false ->
  foldM append_child kids content
  = Ok (content ++ flat_map (fun c => JDict (child_dict c) :: tail_segments c) kids).
Proof.
  revert content. induction kids as [|c kids IH]; intros content H; cbn [foldM flat_map].
  - now rewrite app_nil_r.
  - cbn [existsb] in H. apply orb_false_iff in H as [Hc Hkids].
    unfold append_child at 1. rewrite (child_data_element c Hc). cbn [bind].
    rewrite (IH _ Hkids). unfold tail_segments.
    destruct (has_text (tail c)); simpl;
      repeat rewrite <- app_assoc; reflexivity.
Qed.

(** The loop stops at the first comment or processing instruction. *)
Lemma fold_append_child_raises (kids : list Element) (content : list json) :
  existsb content_only kids = true ->
  foldM append_child kids content = Raise AttributeError.
Proof.
  revert content. induction kids as [|c kids IH]; intros content H; [discriminate|].
  cbn [foldM]. unfold append_child at 1.
  destruct (content_only c) eqn:Hc.
  - now rewrite (child_data_content_only c Hc).
  - rewrite (child_data_element c Hc). cbn [bind]. apply IH.
    cbn [existsb] in H. now rewrite Hc in H.
Qed.

(** The attribute loop of the parent creates [@]-prefixed keys only. *)
Lemma get_parent_attributes k (attrs : list (string * string)) (result : dict) :
  PyStr.startswith k "@" = false ->
  get k (fold_left
           (fun result kv => set ("@" ++ clean_name (fst kv)) (JStr (snd kv)) result)
           attrs result)
  = get k result.
Proof.
  intros Hk. revert result.
  induction attrs as [|[a v] attrs IH]; intros result; simpl; [reflexivity|].
  rewrite IH. apply get_set_other.
  intros ->. unfold PyStr.startswith in Hk. simpl in Hk.
  destruct (clean_name a); discriminate Hk.
Qed.

Lemma eligible_has_mixed (e : Element) :
  eligible e = true ->
  has_text (text e) || (0 <? List.length (children e))%nat = true.
Proof.
  unfold eligible. intros H.
  apply orb_true_iff in H as [H|H].
  - apply andb_true_iff in H as [H _]. now rewrite H.
  - destruct (children e); [discriminate H|]. apply orb_true_r.
Qed.

Lemma serialize_content (e : Element) :
  has_text (text e) || (0 <? List.length (children e))%nat = true ->
  existsb content_only (children e) = false ->
  serialize_mixed_content e
  = Ok (set "content" (JList (ordered_content e))
          (fold_left
             (fun result kv => set ("@" ++ clean_name (fst kv)) (JStr (snd kv)) result)
             (attrib e) [])).
Proof.
  intros H Hkids. unfold serialize_mixed_content. rewrite H.
  now rewrite (fold_append_child _ _ Hkids).
Qed.

(** An element with a comment or a processing instruction among its
    children cannot be serialized. *)
Lemma serialize_raises (e : Element) :
  existsb content_only (children e) = true ->
  serialize_mixed_content e = Raise AttributeError.
Proof.
  intros Hkids. unfold serialize_mixed_content.
  destruct (children e) as [|c kids] eqn:E; [discriminate|].
  cbn [List.length Nat.ltb Nat.leb]. rewrite orb_true_r.
  now rewrite (fold_append_child_raises _ _ Hkids).
Qed.

End Serializer.

(** The content list of any element with text or children that are
    elements, whatever the attributes of the children are called. *)
Lemma content_of_serialized (e : Element) :
  has_text (text e) || (0 <? List.length (children e))%nat = true ->
  existsb content_only (children e) = false ->
  exists d,
    serialize_mixed_content e = Ok d
    /\ Dict.get "content" d = Some (JList (ordered_content e)).
Proof.
  intros H Hkids. rewrite (serialize_content e H Hkids).
  eexists. split; [reflexivity|]. apply DictFacts.get_set_same.
Qed.

(** C1, the code at a note with a typed reference.  The segment of the
    child is specified as [type] = the tag without namespace, [value],
    then the attributes without namespace.  The code assigns the
    attributes after [type] and [value] under their own names, so the
    attribute [type] of the reference replaces the type of the segment
    ([entry] where the tag is [ref]), and it removes the TEI namespace
    only, so [xml:id] keeps its namespace in braces.  The key [ref] of the
    generic node is then not recognised as a duplicate of the segment: the
    converted note holds the reference twice. *)
Theorem segment_type_replaced_by_type_attribute :
  eligible note_siehe = true
  /\ serialize_mixed_content note_siehe
     = Ok [("content",
            JList
              [text_segment "siehe ";
               JDict [("type", JStr "entry"); ("value", JStr "Wort");
                      ("target", JStr "#x");
                      ("{http://www.w3.org/XML/1998/namespace}id", JStr "r1")];
               text_segment "."])]
  /\ local_name (tag ref_entry) = "ref"
  /\ map (fun kv => local_name (fst kv)) (attrib ref_entry) = ["type"; "target"; "id"]
  /\ snd (tei_to_json Json.dumps Json.loads 12 (tei_root note_siehe))
     = Ok (JDict
             [("note",
               JList
                 [JDict
                    [("xmlns", JStr TEI_URI);
                     ("ref",
                      JList [JDict [("type", JStr "entry"); ("target", JStr "#x");
                                    ("xmlId", JStr "r1"); ("", JStr "Wort")]]);
                     ("content",
                      JList
                        [text_segment "siehe ";
                         JDict [("type", JStr "entry"); ("value", JStr "Wort");
                                ("target", JStr "#x");
                                ("{http://www.w3.org/XML/1998/namespace}id", JStr "r1")];
                         text_segment "."])]])]).
Proof. repeat split; vm_compute; reflexivity. Qed.

(** C10.  On every element the marking pass serializes (non-blank
    leading text and a child, or a child with a non-blank tail) the
    serializer takes the [content] branch: when the children are
    elements the result has a [content] list and no [value] key; when
    there is a comment or a processing instruction among them the loop of
    that branch raises [AttributeError].  The [value] branch is not
    reached. *)
Theorem eligible_serialized_has_content (e : Element) :
  eligible e = true ->
  (existsb content_only (children e) = false ->
   exists d,
     serialize_mixed_content e = Ok d
     /\ (exists content, Dict.get "content" d = Some (JList content))
     /\ Dict.get "value" d = None)
  /\ (existsb content_only (children e) = true ->
      serialize_mixed_content e = Raise AttributeError).
Proof.
  intros Hel. pose proof (eligible_has_mixed e Hel) as Hmixed. split.
  - intros Hkids. rewrite (serialize_content e Hmixed Hkids).
    eexists. split; [reflexivity|]. split.
    + eexists. apply DictFacts.get_set_same.
    + rewrite DictFacts.get_set_other by discriminate.
      now rewrite get_parent_attributes.
  - apply serialize_raises.
Qed.

Lemma eligible_serialized_has_content_witness :
  (existsb content_only (children note_pre_post) = false ->
   exists d,
     serialize_mixed_content note_pre_post = Ok d
     /\ (exists content, Dict.get "content" d = Some (JList content))
     /\ Dict.get "value" d = None)
  /\ (existsb content_only (children note_pre_post) = true ->
      serialize_mixed_content note_pre_post = Raise AttributeError).
Proof.
  apply (eligible_serialized_has_content note_pre_post). reflexivity.
Defined.

(* ------------------------------------------------------------------ *)
(** ** Results, comprehensions *)

Lemma bind_ok {A B : Type} (r : result A) (k : A -> result B) (b : B) :
  bind r k = Ok b -> exists a, r = Ok a /\ k a = Ok b.
Proof. destruct r; simpl; intros H; try discriminate. eauto. Qed.

Ltac bind_inv H :=
  let a := fresh "x" in
  let Ha := fresh "Hx" in
  apply bind_ok in H; destruct H as [a [Ha H]].

Lemma mapM_ok {A B : Type} (f : A -> result B) (l : list A) (l' : list B) :
  mapM f l = Ok l' <-> Forall2 (fun x y => f x = Ok y) l l'.
Proof.
  split.
  - revert l'. induction l as [|x l IH]; simpl; intros l' H.
    + injection H as <-. constructor.
    + bind_inv H. bind_inv H. injection H as <-. constructor; auto.
  - induction 1 as [|x y l l' Hxy _ IH]; simpl; [reflexivity|].
    now rewrite Hxy, IH.
Qed.

Lemma map_values_ok keep f (d d' : dict) :
  map_values keep f d = Ok d'
  <-> Forall2 (entry_maps f) (filter (fun kv => keep (fst kv)) d) d'.
Proof.
  split.
  - revert d'. induction d as [|[k v] d IH]; simpl; intros d' H.
    + injection H as <-. constructor.
    + destruct (keep k); [|auto].
      bind_inv H. bind_inv H. injection H as <-.
      constructor; [split; auto|auto].
  - revert d'. induction d as [|[k v] d IH]; simpl; intros d' H.
    + inversion H. reflexivity.
    + destruct (keep k); [|auto].
      inversion H as [|? [k' v'] ? ? [Hk Hv] Hrest]; subst. simpl in *. subst k'.
      now rewrite Hv, (IH _ Hrest).
Qed.

Lemma map_values_fixed keep f (d : dict) :
  Forall (fun kv => keep (fst kv) = true /\ f (snd kv) = Ok (snd kv)) d ->
  map_values keep f d = Ok d.
Proof.
  induction 1 as [|[k v] d [Hk Hv] _ IH]; simpl in *; [reflexivity|].
  now rewrite Hk, Hv, IH.
Qed.

Lemma entry_maps_keys f (d d' : dict) :
  Forall2 (entry_maps f) d d' -> Dict.keys d' = Dict.keys d.
Proof.
  induction 1 as [|kv kv' d d' [Hk _] _ IH]; simpl; [reflexivity|].
  now rewrite Hk, IH.
Qed.

(** Looking a key up after a comprehension. *)
Lemma get_entry_maps f (d d' : dict) k :
  Forall2 (entry_maps f) d d' ->
  match Dict.get k d with
  | Some v => exists v', Dict.get k d' = Some v' /\ f v = Ok v'
  | None => Dict.get k d' = None
  end.
Proof.
  induction 1 as [|[k0 v0] [k0' v0'] d d' [Hk Hv] _ IH]; simpl in *; [reflexivity|].
  subst k0'. destruct (String.eqb k k0); [eauto|exact IH].
Qed.

Lemma get_filter_keys (keep : string -> bool) (d : dict) k :
  Dict.get k (filter (fun kv => keep (fst kv)) d)
  = if keep k then Dict.get k d else None.
Proof.
  induction d as [|[k0 v0] d IH]; simpl.
  - now destruct (keep k).
  - destruct (keep k0) eqn:Hk0; simpl.
    + destruct (String.eqb k k0) eqn:E; [|exact IH].
      apply String.eqb_eq in E. subst k0. now rewrite Hk0.
    + rewrite IH. destruct (String.eqb k k0) eqn:E; [|reflexivity].
      apply String.eqb_eq in E. subst k0. now rewrite Hk0.
Qed.

Lemma in_keys_get k (d : dict) :
  In k (Dict.keys d) <-> exists v, Dict.get k d = Some v.
Proof.
  induction d as [|[k0 v0] d IH]; simpl.
  - split; [tauto|]. intros [v H]. discriminate.
  - destruct (String.eqb k k0) eqn:E.
    + apply String.eqb_eq in E. subst. split; eauto.
    + apply String.eqb_neq in E. rewrite IH. split.
      * intros [H|H]; [congruence|exact H].
      * auto.
Qed.

(* ------------------------------------------------------------------ *)
(** ** The dedup step *)

Lemma hashable_checked (values types : list json) :
  mapM (fun t => if hashable t then Ok t else Raise TypeError) values = Ok types ->
  types = values.
Proof.
  intros H. apply mapM_ok in H.
  induction H as [|t t' values types Ht _ IH]; [reflexivity|].
  destruct (hashable t); [|discriminate]. injection Ht as <-. now rewrite IH.
Qed.

Lemma element_types_matches content types key :
  element_types content = Ok types ->
  type_in key types = matches_segment_type content key.
Proof.
  destruct content as [| | | |items|]; simpl; intros H; try discriminate;
    try (injection H as <-; reflexivity).
  apply hashable_checked in H. subst types. unfold type_values.
  induction items as [|item items IH]; simpl; [reflexivity|].
  unfold type_in in *. rewrite existsb_app, IH. f_equal.
  destruct item as [| | | | |segment]; simpl; try reflexivity.
  destruct (Dict.get "type" segment) as [[| | | | |]|]; simpl;
    now rewrite ?orb_false_r.
Qed.

Lemma redundant_child_key content key :
  redundant content key = is_child_key key && matches_segment_type content key.
Proof.
  unfold redundant, is_child_key.
  destruct (PyStr.startswith key "@"), (String.eqb key "content" || String.eqb key "type");
    reflexivity.
Qed.

Lemma keys_to_remove_ok content keys removed :
  keys_to_remove content keys = Ok removed ->
  removed = filter (redundant content) keys.
Proof.
  revert removed. induction keys as [|key keys IH]; simpl; intros removed H.
  - now injection H as <-.
  - rewrite redundant_child_key. destruct (is_child_key key); simpl.
    + bind_inv H. bind_inv H. injection H as <-.
      rewrite (element_types_matches _ _ key Hx), (IH _ Hx0).
      now destruct (matches_segment_type content key).
    + auto.
Qed.

(** The loop raises only when a child-shaped key makes it look at a
    [content] that cannot be iterated or hashed. *)
Lemma keys_to_remove_raises content keys e :
  keys_to_remove content keys = Raise e ->
  existsb is_child_key keys = true /\ element_types content = Raise e.
Proof.
  induction keys as [|key keys IH]; simpl; intros H; [discriminate|].
  destruct (is_child_key key); simpl; [|auto].
  destruct (element_types content) as [types|e0|] eqn:Ht; simpl in H.
  - destruct (keys_to_remove content keys) as [more|e1|] eqn:Hm; simpl in H;
      try discriminate.
    destruct (IH H) as [_ Hc]. discriminate Hc.
  - injection H as ->. split; reflexivity.
  - discriminate.
Qed.

Lemma element_types_fuel content : element_types content <> OutOfFuel.
Proof.
  destruct content as [| | | |items|]; simpl; try discriminate.
  induction (type_values items) as [|t values IH]; simpl; [discriminate|].
  destruct (hashable t); simpl; [|discriminate].
  destruct (mapM _ values); simpl; try discriminate. congruence.
Qed.

Lemma keys_to_remove_fuel content keys : keys_to_remove content keys <> OutOfFuel.
Proof.
  induction keys as [|key keys IH]; simpl; [discriminate|].
  destruct (is_child_key key); [|exact IH].
  pose proof (element_types_fuel content).
  destruct (element_types content); simpl; try congruence.
  destruct (keys_to_remove content keys); simpl; congruence.
Qed.

Lemma keys_to_remove_total content keys :
  (existsb is_child_key keys = true -> exists types, element_types content = Ok types) ->
  keys_to_remove content keys = Ok (filter (redundant content) keys).
Proof.
  intros H.
  destruct (keys_to_remove content keys) as [removed|e|] eqn:E.
  - now rewrite (keys_to_remove_ok _ _ _ E).
  - apply keys_to_remove_raises in E as [Hc He].
    destruct (H Hc) as [types Ht]. congruence.
  - now apply keys_to_remove_fuel in E.
Qed.

Lemma existsb_eqb_in key (l : list string) :
  existsb (String.eqb key) l = true <-> In key l.
Proof.
  rewrite existsb_exists. split.
  - intros [x [Hin Heq]]. apply String.eqb_eq in Heq. now subst.
  - intros Hin. exists key. split; [exact Hin|apply String.eqb_refl].
Qed.

Lemma keys_pop k (d : dict) key :
  In key (Dict.keys (Dict.pop k d)) <-> In key (Dict.keys d) /\ key <> k.
Proof.
  unfold Dict.keys, Dict.pop. rewrite !in_map_iff. split.
  - intros [[k0 v0] [Hk Hin]]. simpl in Hk. subst k0.
    apply filter_In in Hin as [Hin Hne]. simpl in Hne.
    apply negb_true_iff, String.eqb_neq in Hne.
    split; [exists (key, v0); auto|congruence].
  - intros [[[k0 v0] [Hk Hin]] Hne]. simpl in Hk. subst k0.
    exists (key, v0). split; [reflexivity|].
    apply filter_In. split; [exact Hin|]. simpl.
    apply negb_true_iff, String.eqb_neq. congruence.
Qed.

(** Which keys survive the pops, for a node with [content]. *)
Lemma popped_keys_kept (d : dict) content popped key :
  Dict.get "content" d = Some content ->
  popped_keys d = Ok popped ->
  In key (Dict.keys d) ->
  kept popped key = negb (String.eqb key "") && negb (redundant content key).
Proof.
  unfold popped_keys, kept. intros Hc H Hin. rewrite Hc in H.
  bind_inv H. injection H as <-. apply keys_to_remove_ok in Hx. subst x.
  simpl. rewrite negb_orb.
  destruct (String.eqb key "") eqn:E; [reflexivity|].
  simpl. f_equal. apply String.eqb_neq in E.
  destruct (redundant content key) eqn:R.
  - apply existsb_eqb_in, filter_In. split; [|exact R].
    apply keys_pop. split; [exact Hin|exact E].
  - destruct (existsb _ _) eqn:Ex; [|reflexivity].
    apply existsb_eqb_in, filter_In in Ex as [_ Ex]. congruence.
Qed.

Lemma popped_keys_no_content (d : dict) :
  Dict.get "content" d = None -> popped_keys d = Ok [].
Proof. unfold popped_keys. now intros ->. Qed.

(** [clean_mixed_content_duplicates] on a dictionary, unfolded. *)
Lemma clean_dict (d : dict) (r : json) :
  clean_mixed_content_duplicates (JDict d) = Ok r ->
  exists popped d',
    popped_keys d = Ok popped
    /\ Forall2 (entry_maps clean_mixed_content_duplicates)
         (filter (fun kv => kept popped (fst kv)) d) d'
    /\ r = JDict d'.
Proof.
  simpl. intros H. bind_inv H. bind_inv H. injection H as <-.
  apply map_values_ok in Hx0. eauto.
Qed.

Lemma clean_list (l : list json) (r : json) :
  clean_mixed_content_duplicates (JList l) = Ok r ->
  exists l', Forall2 (fun x y => clean_mixed_content_duplicates x = Ok y) l l'
             /\ r = JList l'.
Proof.
  simpl. intros H. bind_inv H. injection H as <-.
  apply mapM_ok in Hx. eauto.
Qed.

(** C8 (amended).  On a node with a [content] field the dedup step
    deletes the empty-string key and, besides it, exactly the keys that
    are not attribute-prefixed, are not [content] or [type], and name the
    [type] of at least one segment of [content]; every other entry stays,
    in order, and its value is replaced by its own deduplicated form. *)
Theorem dedup_deletes_empty_and_redundant (d d' : dict) (content : json) :
  Dict.get "content" d = Some content ->
  clean_mixed_content_duplicates (JDict d) = Ok (JDict d') ->
  Forall2 (entry_maps clean_mixed_content_duplicates)
    (filter (fun kv => negb (String.eqb (fst kv) "")
                       && negb (redundant content (fst kv))) d)
    d'.
Proof.
  intros Hc H. apply clean_dict in H as [popped [d'' [Hp [Hall Heq]]]].
  injection Heq as ->.
  erewrite filter_ext_in; [exact Hall|].
  intros [k v] Hin. simpl. symmetry.
  apply (popped_keys_kept d _ _ k Hc Hp).
  apply in_map_iff. exists (k, v). auto.
Qed.

Lemma dedup_deletes_empty_and_redundant_witness :
  Forall2 (entry_maps clean_mixed_content_duplicates)
    (filter (fun kv => negb (String.eqb (fst kv) "")
                       && negb (redundant note_content (fst kv))) merged_note)
    [("n", JStr "1"); ("@n", JStr "1"); ("content", note_content)].
Proof.
  apply (dedup_deletes_empty_and_redundant merged_note _ note_content);
    reflexivity.
Defined.

(** C8, the claim as stated fails: the empty-string key names no
    segment type, and it is deleted all the same. *)
Lemma dedup_deletes_empty_key :
  clean_mixed_content_duplicates (JDict merged_note)
  = Ok (JDict [("n", JStr "1"); ("@n", JStr "1"); ("content", note_content)])
  /\ Dict.get "" merged_note = Some (JStr "Pre Post")
  /\ redundant note_content "" = false.
Proof. repeat split. Qed.

(** A node without [content] keeps all its keys. *)
Lemma dedup_without_content (d d' : dict) :
  Dict.get "content" d = None ->
  clean_mixed_content_duplicates (JDict d) = Ok (JDict d') ->
  Forall2 (entry_maps clean_mixed_content_duplicates) d d'.
Proof.
  intros Hc H. apply clean_dict in H as [popped [d'' [Hp [Hall Heq]]]].
  injection Heq as Heq. subst d''. rewrite (popped_keys_no_content d Hc) in Hp.
  injection Hp as <-.
  rewrite (filter_ext _ (fun _ => true)) in Hall by reflexivity.
  clear Hc. revert d' Hall.
  induction d as [|kv d IH]; simpl; intros d' Hall; [exact Hall|].
  inversion Hall; subst. constructor; auto.
Qed.

(* ------------------------------------------------------------------ *)
(** ** The dedup step is idempotent *)

Lemma popped_keys_survives (d : dict) popped key :
  popped_keys d = Ok popped -> In key (Dict.keys d) ->
  kept popped key = survives d key.
Proof.
  intros Hp Hin. unfold survives.
  destruct (Dict.get "content" d) as [content|] eqn:Hc.
  - apply (popped_keys_kept d _ _ key Hc Hp Hin).
  - rewrite (popped_keys_no_content d Hc) in Hp. now injection Hp as <-.
Qed.

Lemma filter_survives (d : dict) popped :
  popped_keys d = Ok popped ->
  filter (fun kv => kept popped (fst kv)) d = filter (fun kv => survives d (fst kv)) d.
Proof.
  intros Hp. apply filter_ext_in. intros [k v] Hin. simpl.
  apply (popped_keys_survives d _ k Hp).
  apply in_map_iff. exists (k, v). auto.
Qed.

Lemma clean_dict_survivors (d : dict) (r : json) :
  clean_mixed_content_duplicates (JDict d) = Ok r ->
  exists d',
    r = JDict d'
    /\ Forall2 (entry_maps clean_mixed_content_duplicates)
         (filter (fun kv => survives d (fst kv)) d) d'.
Proof.
  intros H. apply clean_dict in H as [popped [d' [Hp [Hall Heq]]]].
  exists d'. split; [exact Heq|]. now rewrite <- (filter_survives d _ Hp).
Qed.

Lemma keys_to_remove_needs_types content keys removed :
  keys_to_remove content keys = Ok removed ->
  existsb is_child_key keys = true ->
  exists types, element_types content = Ok types.
Proof.
  revert removed. induction keys as [|key keys IH]; simpl; intros removed H Hc;
    [discriminate|].
  destruct (is_child_key key); simpl in *.
  - bind_inv H. eauto.
  - eauto.
Qed.

Lemma popped_keys_total (d : dict) :
  (forall content,
      Dict.get "content" d = Some content ->
      existsb is_child_key (Dict.keys (Dict.pop "" d)) = true ->
      exists types, element_types content = Ok types) ->
  exists popped, popped_keys d = Ok popped.
Proof.
  intros H. unfold popped_keys.
  destruct (Dict.get "content" d) as [content|]; [|eauto].
  rewrite (keys_to_remove_total content _ (H content eq_refl)). simpl. eauto.
Qed.

Lemma clean_hashable (t t' : json) :
  clean_mixed_content_duplicates t = Ok t' ->
  hashable t' = hashable t /\ (hashable t = true -> t' = t).
Proof.
  destruct t; simpl; intros H; try (injection H as <-; auto).
  - bind_inv H. injection H as <-. split; [reflexivity|discriminate].
  - bind_inv H. bind_inv H. injection H as <-. split; [reflexivity|discriminate].
Qed.

(** [type] and [content] are never popped. *)
Lemma survives_reserved (d : dict) key :
  key = "type" \/ key = "content" -> survives d key = true.
Proof.
  unfold survives. intros [-> | ->]; destruct (Dict.get "content" d); reflexivity.
Qed.

Lemma get_cleaned (d d' : dict) key :
  Forall2 (entry_maps clean_mixed_content_duplicates)
    (filter (fun kv => survives d (fst kv)) d) d' ->
  survives d key = true ->
  match Dict.get key d with
  | Some v => exists v', Dict.get key d' = Some v'
                         /\ clean_mixed_content_duplicates v = Ok v'
  | None => Dict.get key d' = None
  end.
Proof.
  intros Hall Hs.
  pose proof (get_entry_maps _ _ _ key Hall) as H.
  rewrite (get_filter_keys (survives d) d key), Hs in H. exact H.
Qed.

Lemma keys_cleaned (d d' : dict) key :
  Forall2 (entry_maps clean_mixed_content_duplicates)
    (filter (fun kv => survives d (fst kv)) d) d' ->
  In key (Dict.keys d') <-> In key (Dict.keys d) /\ survives d key = true.
Proof.
  intros Hall. rewrite (entry_maps_keys _ _ _ Hall).
  unfold Dict.keys. rewrite !in_map_iff. split.
  - intros [[k v] [Hk Hin]]. simpl in Hk. subst k.
    apply filter_In in Hin as [Hin Hs]. split; [exists (key, v); auto|exact Hs].
  - intros [[[k v] [Hk Hin]] Hs]. simpl in Hk. subst k.
    exists (key, v). split; [reflexivity|]. apply filter_In. auto.
Qed.

(** Cleaning the items of [content] does not change their types. *)
Lemma type_values_cleaned (items items' : list json) :
  Forall2 (fun x y => clean_mixed_content_duplicates x = Ok y) items items' ->
  mapM (fun t => if hashable t then Ok t else Raise TypeError) (type_values items')
  = mapM (fun t => if hashable t then Ok t else Raise TypeError) (type_values items).
Proof.
  intros Hall.
  induction Hall as [|x y items items' Hxy _ IH]; [reflexivity|].
  destruct x as [| | | |l|d].
  1-4: simpl in Hxy; injection Hxy as <-; exact IH.
  - apply clean_list in Hxy as [l' [_ ->]]. exact IH.
  - apply clean_dict_survivors in Hxy as [d' [-> Hd]].
    pose proof (get_cleaned d d' "type" Hd
                  (survives_reserved d "type" (or_introl eq_refl))) as Ht.
    unfold type_values in *. cbn [flat_map app mapM].
    destruct (Dict.get "type" d) as [t|].
    + destruct Ht as [t' [-> Hc]]. apply clean_hashable in Hc as [Hh Heq].
      rewrite Hh. destruct (hashable t) eqn:E; [|reflexivity].
      rewrite (Heq eq_refl). simpl. now rewrite IH.
    + rewrite Ht. simpl. now rewrite IH.
Qed.

Lemma element_types_cleaned (content content' : json) :
  clean_mixed_content_duplicates content = Ok content' ->
  element_types content' = element_types content.
Proof.
  destruct content as [| | | |l|d]; intros H.
  1-4: simpl in H; now injection H as <-.
  - apply clean_list in H as [l' [Hall ->]]. apply (type_values_cleaned _ _ Hall).
  - apply clean_dict in H as [popped [d' [_ [_ ->]]]]. reflexivity.
Qed.

Lemma content_types_known (d : dict) popped content key :
  popped_keys d = Ok popped ->
  Dict.get "content" d = Some content ->
  In key (Dict.keys d) -> key <> "" -> is_child_key key = true ->
  exists types, element_types content = Ok types.
Proof.
  unfold popped_keys. intros Hp Hc Hin Hne Hchild. rewrite Hc in Hp.
  bind_inv Hp. apply (keys_to_remove_needs_types _ _ _ Hx).
  apply existsb_exists. exists key. split; [|exact Hchild].
  apply keys_pop. auto.
Qed.

Lemma matches_cleaned (content content' : json) types key :
  clean_mixed_content_duplicates content = Ok content' ->
  element_types content = Ok types ->
  matches_segment_type content' key = matches_segment_type content key.
Proof.
  intros Hc Ht.
  rewrite <- (element_types_matches content _ key Ht).
  rewrite <- (element_types_cleaned _ _ Hc) in Ht.
  now rewrite <- (element_types_matches content' _ key Ht).
Qed.

Lemma survives_not_empty (d : dict) content key :
  Dict.get "content" d = Some content -> survives d key = true ->
  key <> "" /\ redundant content key = false.
Proof.
  unfold survives. intros -> H. apply andb_true_iff in H as [H1 H2].
  apply negb_true_iff in H1, H2. apply String.eqb_neq in H1. auto.
Qed.

(** What is left of a cleaned node is not touched by a second pass. *)
Lemma cleaned_keys_survive (d d' : dict) popped :
  popped_keys d = Ok popped ->
  Forall2 (entry_maps clean_mixed_content_duplicates)
    (filter (fun kv => survives d (fst kv)) d) d' ->
  (exists popped', popped_keys d' = Ok popped')
  /\ forall key, In key (Dict.keys d') -> survives d' key = true.
Proof.
  intros Hp Hall.
  pose proof (get_cleaned d d' "content" Hall
                (survives_reserved d "content" (or_intror eq_refl))) as Hcontent.
  assert (Hkey : forall content content' key,
             Dict.get "content" d = Some content ->
             clean_mixed_content_duplicates content = Ok content' ->
             In key (Dict.keys d') ->
             key <> "" /\ (is_child_key key = true ->
                           exists types, element_types content' = Ok types)
             /\ redundant content' key = false).
  { intros content content' key Hc Hclean Hin.
    apply (keys_cleaned _ _ key Hall) in Hin as [Hin Hs].
    destruct (survives_not_empty d _ key Hc Hs) as [Hne Hred].
    split; [exact Hne|].
    destruct (is_child_key key) eqn:Hchild.
    - destruct (content_types_known d _ _ key Hp Hc Hin Hne Hchild) as [types Ht].
      split.
      + intros _. exists types. now rewrite (element_types_cleaned _ _ Hclean).
      + rewrite redundant_child_key in *. rewrite Hchild in *. simpl in *.
        now rewrite (matches_cleaned _ _ _ key Hclean Ht).
    - split; [discriminate|]. rewrite redundant_child_key, Hchild. reflexivity. }
  destruct (Dict.get "content" d) as [content|] eqn:Hc.
  - destruct Hcontent as [content' [Hc' Hclean]]. split.
    + apply popped_keys_total. intros c0 Hc0 Hex.
      rewrite Hc' in Hc0. injection Hc0 as <-.
      apply existsb_exists in Hex as [key [Hin Hchild]].
      apply keys_pop in Hin as [Hin _].
      destruct (Hkey content content' key eq_refl Hclean Hin) as [_ [Ht _]]. auto.
    + intros key Hin. unfold survives. rewrite Hc'.
      destruct (Hkey content content' key eq_refl Hclean Hin) as [Hne [_ Hred]].
      rewrite Hred. apply String.eqb_neq in Hne. now rewrite Hne.
  - split.
    + exists []. now apply popped_keys_no_content.
    + intros key _. unfold survives. now rewrite Hcontent.
Qed.

Lemma Forall2_in_right {A B : Type} (R : A -> B -> Prop) (l : list A) (l' : list B) (b : B) :
  Forall2 R l l' -> In b l' -> exists a, In a l /\ R a b.
Proof.
  induction 1 as [|x y l l' Hxy _ IH]; simpl; [contradiction|].
  intros [<-|Hin].
  - exists x. auto.
  - destruct (IH Hin) as [a [Ha Hab]]. exists a. auto.
Qed.

Lemma Forall2_in_left {A B : Type} (R : A -> B -> Prop) (l : list A) (l' : list B) (a : A) :
  Forall2 R l l' -> In a l -> exists b, In b l' /\ R a b.
Proof.
  induction 1 as [|x y l l' Hxy _ IH]; simpl; [contradiction|].
  intros [<-|Hin].
  - exists y. auto.
  - destruct (IH Hin) as [b [Hb Hab]]. exists b. auto.
Qed.

(** A second dedup pass changes nothing. *)
Lemma clean_idempotent (x : json) :
  forall y,
    clean_mixed_content_duplicates x = Ok y ->
    clean_mixed_content_duplicates y = Ok y.
Proof.
  induction x as [| | | |l IH|d IH] using json_nested_ind; intros y H.
  1-4: simpl in H; injection H as <-; reflexivity.
  - apply clean_list in H as [l' [Hall ->]]. simpl.
    assert (Hfix : mapM clean_mixed_content_duplicates l' = Ok l').
    { apply mapM_ok. induction Hall as [|a b l l' Hab _ IHall]; [constructor|].
      inversion IH; subst. constructor; auto. }
    now rewrite Hfix.
  - pose proof H as Hd. apply clean_dict in Hd as [popped [d0 [Hp _]]].
    apply clean_dict_survivors in H as [d' [-> Hall]].
    destruct (cleaned_keys_survive _ _ _ Hp Hall) as [[popped' Hp'] Hs].
    simpl. rewrite Hp'. simpl.
    rewrite map_values_fixed; [reflexivity|].
    apply Forall_forall. intros [k v'] Hin. simpl. split.
    + rewrite (popped_keys_survives d' _ k Hp').
      * apply Hs. apply in_map_iff. exists (k, v'). auto.
      * apply in_map_iff. exists (k, v'). auto.
    + destruct (Forall2_in_right _ _ _ _ Hall Hin) as [kv [Hkv [_ Hclean]]].
      apply filter_In in Hkv as [Hkv _].
      rewrite Forall_forall in IH. apply (IH kv Hkv _ Hclean).
Qed.

(* ------------------------------------------------------------------ *)
(** ** No duplicated child after the dedup step *)

Lemma segment_type_matches (items : list json) (segment : dict) key :
  In (JDict segment) items ->
  Dict.get "type" segment = Some (JStr key) ->
  matches_segment_type (JList items) key = true.
Proof.
  intros Hin Ht. simpl. apply existsb_exists.
  exists (JDict segment). split; [exact Hin|].
  rewrite Ht. apply String.eqb_refl.
Qed.

Lemma survivors_no_duplicated_child (d : dict) :
  (forall key, In key (Dict.keys d) -> survives d key = true) ->
  no_duplicated_child d.
Proof.
  intros Hs items Hc _ key segment Hin Hat Hnc Hnt Hseg Htype.
  specialize (Hs key Hin). unfold survives in Hs. rewrite Hc in Hs.
  apply andb_true_iff in Hs as [_ Hs]. apply negb_true_iff in Hs.
  unfold redundant in Hs.
  rewrite Hat, (segment_type_matches items segment key Hseg Htype) in Hs.
  apply String.eqb_neq in Hnc, Hnt. rewrite Hnc, Hnt in Hs. discriminate.
Qed.

Lemma clean_no_duplicated_child (x : json) :
  forall y,
    clean_mixed_content_duplicates x = Ok y ->
    all_nodes no_duplicated_child y.
Proof.
  induction x as [| | | |l IH|d IH] using json_nested_ind; intros y H.
  1-4: simpl in H; injection H as <-; constructor.
  - apply clean_list in H as [l' [Hall ->]]. constructor.
    induction Hall as [|a b l l' Hab _ IHall]; [constructor|].
    inversion IH; subst. constructor; auto.
  - pose proof H as Hd. apply clean_dict in Hd as [popped [d0 [Hp _]]].
    apply clean_dict_survivors in H as [d' [-> Hall]].
    destruct (cleaned_keys_survive _ _ _ Hp Hall) as [_ Hs].
    constructor.
    + now apply survivors_no_duplicated_child.
    + apply Forall_forall. intros [k v'] Hin. simpl.
      destruct (Forall2_in_right _ _ _ _ Hall Hin) as [kv [Hkv [_ Hclean]]].
      apply filter_In in Hkv as [Hkv _].
      rewrite Forall_forall in IH. apply (IH kv Hkv _ Hclean).
Qed.

(* ------------------------------------------------------------------ *)
(** ** The reconciliation pass *)

Section ReconciliationFacts.
Variable json_loads : string -> option json.

Local Abbreviation extract := (extract_mixed_content_from_json json_loads).
Local Abbreviation clean := clean_mixed_content_duplicates.

Lemma filter_all {A : Type} (l : list A) : filter (fun _ => true) l = l.
Proof. induction l as [|x l IH]; simpl; [reflexivity|now rewrite IH]. Qed.

Lemma extract_dict fuel (d : dict) (r : json) :
  extract (S fuel) (JDict d) = Ok r ->
  exists d1 r1,
    merge_mixed json_loads d = Ok d1
    /\ Forall2 (entry_maps (extract fuel)) d1 r1
    /\ clean (JDict r1) = Ok r.
Proof.
  simpl. intros H. bind_inv H. bind_inv H.
  apply map_values_ok in Hx0. rewrite filter_all in Hx0. eauto.
Qed.

Lemma extract_list fuel (l : list json) (r : json) :
  extract (S fuel) (JList l) = Ok r ->
  exists l', Forall2 (fun x y => extract fuel x = Ok y) l l' /\ r = JList l'.
Proof.
  simpl. intros H. bind_inv H. injection H as <-.
  apply mapM_ok in Hx. eauto.
Qed.

Lemma extract_scalar fuel (x r : json) :
  match x with JList _ | JDict _ => False | _ => True end ->
  extract fuel x = Ok r -> r = x.
Proof.
  destruct fuel; [discriminate|].
  destruct x; simpl; intros Hx H; try contradiction; now injection H.
Qed.

(** What the pass returns is stable under the dedup step. *)
Lemma extract_cleaned fuel :
  forall data r, extract fuel data = Ok r -> clean r = Ok r.
Proof.
  induction fuel as [|fuel IH]; intros data r H; [discriminate|].
  destruct data as [| | | |l|d].
  1-4: simpl in H; injection H as <-; reflexivity.
  - apply extract_list in H as [l' [Hall ->]]. simpl.
    assert (Hfix : mapM clean l' = Ok l').
    { apply mapM_ok. induction Hall as [|a b l l' Hab _ IHall]; constructor; eauto. }
    now rewrite Hfix.
  - apply extract_dict in H as [d1 [r1 [_ [_ H]]]].
    apply (clean_idempotent _ _ H).
Qed.

(** C2.  After the reconciliation pass every node of the returned tree
    that has a non-empty [content] list has no key, outside the
    [@]-prefixed keys and [content] and [type], that equals the [type] of
    a segment of that list. *)
Theorem reconciled_tree_has_no_duplicated_child fuel :
  forall data r,
    extract_mixed_content_from_json json_loads fuel data = Ok r ->
    all_nodes no_duplicated_child r.
Proof.
  induction fuel as [|fuel IH]; intros data r H; [discriminate|].
  destruct data as [| | | |l|d].
  1-4: simpl in H; injection H as <-; constructor.
  - apply extract_list in H as [l' [Hall ->]]. constructor.
    induction Hall as [|a b l l' Hab _ IHall]; constructor; eauto.
  - apply extract_dict in H as [d1 [r1 [_ [_ H]]]].
    apply (clean_no_duplicated_child _ _ H).
Qed.

Lemma merge_mixed_settled (d d1 r1 r2 : dict) fuel :
  merge_mixed json_loads d = Ok d1 ->
  Forall2 (entry_maps (extract fuel)) d1 r1 ->
  Forall2 (entry_maps clean) (filter (fun kv => survives r1 (fst kv)) r1) r2 ->
  merge_mixed json_loads r2 = Ok r2.
Proof.
  intros Hm H1 H2. unfold merge_mixed.
  destruct (Dict.get AUX r2) as [v2|] eqn:Hv2; [|reflexivity].
  assert (Hs : survives r1 AUX = true).
  { destruct (survives r1 AUX) eqn:E; [reflexivity|].
    pose proof (get_entry_maps _ _ _ AUX H2) as H.
    rewrite (get_filter_keys (survives r1) r1 AUX), E in H. congruence. }
  pose proof (get_cleaned _ _ AUX H2 Hs) as Hc.
  pose proof (get_entry_maps _ _ _ AUX H1) as He.
  destruct (Dict.get AUX r1) as [v1|] eqn:Hv1; [|congruence].
  destruct Hc as [v2' [Hv2' Hclean]]. rewrite Hv2 in Hv2'. injection Hv2' as <-.
  destruct (Dict.get AUX d1) as [v0|] eqn:Hv0; [|congruence].
  destruct He as [v1' [Hv1' Hext]]. injection Hv1' as <-.
  unfold merge_mixed in Hm.
  destruct (Dict.get AUX d) as [[| | |s| |]|] eqn:Hd; try discriminate.
  - destruct (json_loads s) as [mixed|] eqn:Hl.
    + bind_inv Hm. injection Hm as <-.
      rewrite DictFacts.get_pop_same in Hv0. discriminate.
    + injection Hm as <-. rewrite Hd in Hv0. injection Hv0 as <-.
      apply extract_scalar in Hext; [|exact I]. subst v1.
      simpl in Hclean. injection Hclean as <-. now rewrite Hl.
  - injection Hm as <-. congruence.
Qed.

(** C7.  The reconciliation pass is idempotent: applied to a tree it
    has returned, it returns that tree. *)
Theorem reconciliation_idempotent fuel :
  forall data r,
    extract_mixed_content_from_json json_loads fuel data = Ok r ->
    extract_mixed_content_from_json json_loads fuel r = Ok r.
Proof.
  induction fuel as [|fuel IH]; intros data r H; [discriminate|].
  destruct data as [| | | |l|d].
  1-4: simpl in H; injection H as <-; reflexivity.
  - apply extract_list in H as [l' [Hall ->]]. simpl.
    assert (Hfix : mapM (extract fuel) l' = Ok l').
    { apply mapM_ok. induction Hall as [|a b l l' Hab _ IHall]; constructor; eauto. }
    now rewrite Hfix.
  - apply extract_dict in H as [d1 [r1 [Hm [H1 H]]]].
    pose proof (clean_idempotent _ _ H) as Hidem.
    apply clean_dict_survivors in H as [r2 [-> H2]].
    simpl. rewrite (merge_mixed_settled _ _ _ _ _ Hm H1 H2). simpl.
    rewrite map_values_fixed.
    + simpl. exact Hidem.
    + apply Forall_forall. intros [k v2] Hin. simpl. split; [reflexivity|].
      destruct (Forall2_in_right _ _ _ _ H2 Hin) as [[k1 v1] [Hkv [_ Hclean]]].
      apply filter_In in Hkv as [Hkv _].
      destruct (Forall2_in_right _ _ _ _ H1 Hkv) as [[k0 v0] [_ [_ Hext]]].
      simpl in *. rewrite (extract_cleaned _ _ _ Hext) in Hclean.
      injection Hclean as <-. apply (IH _ _ Hext).
Qed.

End ReconciliationFacts.

(* ------------------------------------------------------------------ *)
(** ** The pass returns or raises: enough fuel

    [json.loads] returns values lighter than its text is long, so the
    recursion into decoded values ends. *)

Lemma mapM_fuel {A B : Type} (f : A -> result B) (l : list A) :
  (forall x, In x l -> f x <> OutOfFuel) -> mapM f l <> OutOfFuel.
Proof.
  induction l as [|x l IH]; simpl; intros H; [discriminate|].
  pose proof (H x (or_introl eq_refl)) as Hx.
  destruct (f x); simpl; try congruence.
  assert (Hl : mapM f l <> OutOfFuel) by (apply IH; auto).
  destruct (mapM f l); simpl; congruence.
Qed.

Lemma map_values_fuel keep f (d : dict) :
  (forall kv, In kv d -> f (snd kv) <> OutOfFuel) -> map_values keep f d <> OutOfFuel.
Proof.
  induction d as [|[k v] d IH]; simpl; intros H; [discriminate|].
  assert (Hd : map_values keep f d <> OutOfFuel) by (apply IH; auto).
  destruct (keep k); [|exact Hd].
  pose proof (H (k, v) (or_introl eq_refl)) as Hv. simpl in Hv.
  destruct (f v); simpl; try congruence.
  destruct (map_values keep f d); simpl; congruence.
Qed.

Lemma clean_fuel (x : json) : clean_mixed_content_duplicates x <> OutOfFuel.
Proof.
  induction x as [| | | |l IH|d IH] using json_nested_ind; simpl; try discriminate.
  - rewrite Forall_forall in IH. pose proof (mapM_fuel _ l IH) as H.
    destruct (mapM clean_mixed_content_duplicates l); simpl; congruence.
  - assert (Hp : popped_keys d <> OutOfFuel).
    { unfold popped_keys. destruct (Dict.get "content" d); [|discriminate].
      pose proof (keys_to_remove_fuel j (Dict.keys (Dict.pop "" d))) as H.
      destruct (keys_to_remove _ _); simpl; congruence. }
    destruct (popped_keys d) as [popped| |]; simpl; try congruence.
    rewrite Forall_forall in IH.
    pose proof (map_values_fuel (kept popped) _ d IH) as H.
    destruct (map_values _ _ d); simpl; congruence.
Qed.

Lemma weight_entry (d : dict) k v :
  In (k, v) d -> String.length k + weight v < weight (JDict d).
Proof.
  simpl. induction d as [|[k0 v0] d IH]; simpl; [contradiction|].
  intros [H|H]; [injection H as -> ->; lia|]. specialize (IH H). lia.
Qed.

Lemma weight_item (l : list json) x : In x l -> weight x < weight (JList l).
Proof.
  simpl. induction l as [|y l IH]; simpl; [contradiction|].
  intros [->|H]; [lia|]. specialize (IH H). lia.
Qed.

Lemma in_set k v (d : dict) kv : In kv (Dict.set k v d) -> kv = (k, v) \/ In kv d.
Proof.
  induction d as [|[k0 v0] d IH]; simpl.
  - intros [<-|[]]. auto.
  - destruct (String.eqb k k0); simpl; intros [<-|H]; auto.
    destruct (IH H); auto.
Qed.

Lemma update_pair_values (d d' : dict) pair :
  update_pair d pair = Ok d' ->
  forall kv, In kv d' -> In kv d \/ weight (snd kv) < weight pair.
Proof.
  intros H kv Hin.
  destruct pair as [| | |s|l|e]; try discriminate.
  - destruct s as [|a [|b [|c s]]]; try discriminate.
    injection H as <-. apply in_set in Hin as [->|Hin]; [right; simpl; lia|auto].
  - destruct l as [|x [|v [|z l]]]; try discriminate;
      destruct x; try discriminate.
    injection H as <-. apply in_set in Hin as [->|Hin]; [right; simpl; lia|auto].
  - destruct e as [|[k1 v1] [|[k2 v2] [|z e]]]; try discriminate.
    injection H as <-. apply in_set in Hin as [->|Hin]; [right; simpl; lia|auto].
Qed.

Lemma update_values (d d' : dict) mixed :
  dict_update d mixed = Ok d' ->
  forall kv, In kv d' -> In kv d \/ weight (snd kv) < weight mixed.
Proof.
  destruct mixed as [| | |s|l|e]; try discriminate.
  - destruct s; [|discriminate]. intros H. injection H as <-. auto.
  - unfold dict_update. revert d d'.
    assert (Hgen : forall pairs acc d',
               fold_left (fun acc pair => d <- acc ;; update_pair d pair) pairs acc = Ok d' ->
               exists d0, acc = Ok d0
                          /\ forall kv, In kv d' ->
                                        In kv d0 \/ exists p, In p pairs /\ weight (snd kv) < weight p).
    { induction pairs as [|p pairs IH]; simpl; intros acc d' H.
      - exists d'. split; [exact H|auto].
      - destruct (IH _ _ H) as [d1 [Hd1 Hin1]].
        bind_inv Hd1. exists x. split; [exact Hx|].
        intros kv Hkv. destruct (Hin1 kv Hkv) as [Hk|[p' [Hp' Hw]]].
        + destruct (update_pair_values _ _ _ Hd1 kv Hk) as [Hk'|Hk']; [auto|].
          right. exists p. auto.
        + right. exists p'. auto. }
    intros d d' H kv Hkv. destruct (Hgen _ _ _ H) as [d0 [Hd0 Hin]].
    injection Hd0 as <-. destruct (Hin kv Hkv) as [Hk|[p [Hp Hw]]]; [auto|].
    right. pose proof (weight_item l p Hp). lia.
  - unfold dict_update. intros H. injection H as <-. revert d.
    assert (Hgen : forall entries d kv,
               In kv (fold_left (fun d kv => Dict.set (fst kv) (snd kv) d) entries d) ->
               In kv d \/ In kv entries).
    { induction entries as [|[k v] entries IH]; simpl; intros d kv H; [auto|].
      destruct (IH _ _ H) as [Hk|Hk]; [|auto].
      apply in_set in Hk as [->|Hk]; auto. }
    intros d kv Hkv. destruct (Hgen _ _ _ Hkv) as [Hk|Hk]; [auto|].
    right. destruct kv as [k v]. pose proof (weight_entry e k v Hk). simpl in *. lia.
Qed.

Lemma dict_update_fuel (d : dict) mixed : dict_update d mixed <> OutOfFuel.
Proof.
  destruct mixed as [| | |s|l|e]; simpl; try discriminate.
  - destruct s; discriminate.
  - assert (Hgen : forall pairs acc,
               acc <> OutOfFuel ->
               fold_left (fun acc pair => d <- acc ;; update_pair d pair) pairs acc
               <> OutOfFuel).
    { induction pairs as [|p pairs IH]; simpl; intros acc Hacc; [exact Hacc|].
      apply IH. destruct acc as [d0| |]; simpl; try congruence.
      destruct p as [| | |s|l0|e]; simpl; try discriminate.
      - destruct s as [|a [|b [|c s]]]; discriminate.
      - destruct l0 as [|x [|v [|z l0]]]; try discriminate;
          destruct x; discriminate.
      - destruct e as [|[k1 v1] [|[k2 v2] [|z e]]]; discriminate. }
    apply Hgen. discriminate.
Qed.

Lemma get_in k (d : dict) v : Dict.get k d = Some v -> In (k, v) d.
Proof.
  induction d as [|[k0 v0] d IH]; simpl; [discriminate|].
  destruct (String.eqb k k0) eqn:E; [|auto].
  apply String.eqb_eq in E. subst k0. intros H. injection H as ->. auto.
Qed.

Section Termination.
Variable json_loads : string -> option json.
Hypothesis loads_lighter :
  forall s v, json_loads s = Some v -> weight v <= String.length s.

Lemma merge_mixed_values (d d1 : dict) :
  merge_mixed json_loads d = Ok d1 ->
  forall kv, In kv d1 -> weight (snd kv) < weight (JDict d).
Proof.
  unfold merge_mixed. intros H [k v] Hin.
  assert (Hd : forall k v, In (k, v) d -> weight v < weight (JDict d)).
  { intros k0 v0 H0. pose proof (weight_entry d k0 v0 H0). lia. }
  destruct (Dict.get AUX d) as [[| | |s| |]|] eqn:Haux; try discriminate.
  - destruct (json_loads s) as [mixed|] eqn:Hl.
    + bind_inv H. injection H as <-.
      apply filter_In in Hin as [Hin _].
      destruct (update_values _ _ _ Hx _ Hin) as [Hk|Hk]; [eauto|].
      pose proof (loads_lighter _ _ Hl) as Hw.
      pose proof (weight_entry d AUX _ (get_in _ _ _ Haux)) as Hw'.
      simpl in *. lia.
    + injection H as <-. eauto.
  - injection H as <-. eauto.
Qed.

Lemma merge_mixed_fuel (d : dict) : merge_mixed json_loads d <> OutOfFuel.
Proof.
  unfold merge_mixed.
  destruct (Dict.get AUX d) as [[| | |s| |]|]; try discriminate.
  destruct (json_loads s) as [mixed|]; [|discriminate].
  pose proof (dict_update_fuel d mixed).
  destruct (dict_update d mixed); simpl; congruence.
Qed.

(** With fuel for the weight of its argument the pass returns or
    raises. *)
Lemma reconciliation_terminates fuel :
  forall data,
    weight data <= fuel ->
    extract_mixed_content_from_json json_loads fuel data <> OutOfFuel.
Proof.
  induction fuel as [|fuel IH]; intros data Hw.
  - destruct data; simpl in Hw; lia.
  - destruct data as [| | | |l|d]; simpl; try discriminate.
    + assert (H : mapM (extract_mixed_content_from_json json_loads fuel) l <> OutOfFuel).
      { apply mapM_fuel. intros x Hx. apply IH.
        pose proof (weight_item l x Hx). lia. }
      destruct (mapM _ l); simpl; congruence.
    + pose proof (merge_mixed_fuel d) as Hm.
      destruct (merge_mixed json_loads d) as [d1| |] eqn:Hd1; simpl; try congruence.
      assert (H : map_values (fun _ => true)
                    (extract_mixed_content_from_json json_loads fuel) d1 <> OutOfFuel).
      { apply map_values_fuel. intros kv Hkv. apply IH.
        pose proof (merge_mixed_values d d1 Hd1 kv Hkv). lia. }
      destruct (map_values _ _ d1) as [r1| |]; simpl; try congruence.
      exact (clean_fuel (JDict r1)).
Qed.

End Termination.

(* ------------------------------------------------------------------ *)
(** ** The claims about the reconciliation pass, on documents *)

Lemma reconciled_tree_has_no_duplicated_child_witness :
  all_nodes no_duplicated_child reconciled_note_doc.
Proof.
  apply (reconciled_tree_has_no_duplicated_child Json.loads 8
           generic_note_doc reconciled_note_doc).
  vm_compute. reflexivity.
Defined.

Lemma reconciliation_idempotent_witness :
  extract_mixed_content_from_json Json.loads 8 reconciled_note_doc
  = Ok reconciled_note_doc.
Proof.
  apply (reconciliation_idempotent Json.loads 8 generic_note_doc reconciled_note_doc).
  vm_compute. reflexivity.
Defined.

Section FailedParse.
Variable json_loads : string -> option json.

Local Abbreviation extract := (extract_mixed_content_from_json json_loads).

(** C6.  When [json.loads] fails on a node's auxiliary encoding, the
    merge is skipped for that node and no error is raised for it: the
    merge step returns the node unmodified, and the pass goes on with the
    node as with any other dictionary (its values are reconciled, the
    dedup step runs).  A node in generic shape (no [content] key) keeps
    that shape: the result has the keys of the node in their order, each
    value being the reconciliation of the node's value, and the pass
    returns exactly when it returns on every value; nothing of the
    undecoded encoding is merged, it stays as the string it was. *)
Theorem undecodable_node_keeps_generic_shape fuel (d : dict) (s : string) :
  Dict.get AUX d = Some (JStr s) ->
  json_loads s = None ->
  merge_mixed json_loads d = Ok d
  /\ extract (S fuel) (JDict d)
     = (result <- map_values (fun _ => true) (extract fuel) d ;;
        clean_mixed_content_duplicates (JDict result))
  /\ (Dict.get "content" d = None ->
      forall r,
        extract (S fuel) (JDict d) = Ok r
        <-> exists d', r = JDict d'
                       /\ Forall2 (entry_maps (extract fuel)) d d'
                       /\ Dict.get AUX d' = Some (JStr s)).
Proof.
  intros Haux Hloads.
  assert (Hm : merge_mixed json_loads d = Ok d).
  { unfold merge_mixed. now rewrite Haux, Hloads. }
  split; [exact Hm|]. split; [simpl; now rewrite Hm|].
  intros Hc r. split.
  - intros H. apply extract_dict in H as [d1 [r1 [Hm' [H1 H]]]].
    rewrite Hm in Hm'. injection Hm' as <-.
    pose proof (get_entry_maps _ _ _ "content" H1) as Hc1. rewrite Hc in Hc1.
    pose proof (get_entry_maps _ _ _ AUX H1) as Ha1. rewrite Haux in Ha1.
    destruct Ha1 as [v [Hv Hext]].
    apply extract_scalar in Hext; [|exact I]. subst v.
    destruct r as [| | | | |d']; try (apply clean_dict in H as [? [? [_ [_ ?]]]]; discriminate).
    pose proof (dedup_without_content _ _ Hc1 H) as H2.
    assert (d' = r1) as ->.
    { clear - H1 H2. revert d' H2.
      induction H1 as [|[k0 v0] [k1 v1] d r1 [Hk Hext] _ IH]; intros d' H2.
      - inversion H2. reflexivity.
      - inversion H2 as [|? [k2 v2] ? ? [Hk2 Hcl] Hrest]; subst. simpl in *.
        rewrite (extract_cleaned _ _ _ _ Hext) in Hcl. injection Hcl as <-.
        subst k2. f_equal. apply (IH _ Hrest). }
    eauto.
  - intros [d' [-> [H1 _]]]. simpl. rewrite Hm. simpl.
    assert (Hmap : map_values (fun _ => true) (extract fuel) d = Ok d').
    { apply map_values_ok. now rewrite filter_all. }
    rewrite Hmap. simpl.
    pose proof (get_entry_maps _ _ _ "content" H1) as Hc1. rewrite Hc in Hc1.
    rewrite (popped_keys_no_content _ Hc1). simpl.
    rewrite map_values_fixed; [reflexivity|].
    apply Forall_forall. intros [k v'] Hin. simpl. split; [reflexivity|].
    destruct (Forall2_in_right _ _ _ _ H1 Hin) as [[k0 v0] [_ [_ Hext]]].
    apply (extract_cleaned _ _ _ _ Hext).
Qed.

End FailedParse.

Lemma undecodable_node_keeps_generic_shape_witness :
  merge_mixed Json.loads undecodable_node = Ok undecodable_node
  /\ extract_mixed_content_from_json Json.loads 3 (JDict undecodable_node)
     = (result <- map_values (fun _ => true)
                    (extract_mixed_content_from_json Json.loads 2) undecodable_node ;;
        clean_mixed_content_duplicates (JDict result))
  /\ (Dict.get "content" undecodable_node = None ->
      forall r,
        extract_mixed_content_from_json Json.loads 3 (JDict undecodable_node) = Ok r
        <-> exists d', r = JDict d'
                       /\ Forall2 (entry_maps (extract_mixed_content_from_json Json.loads 2))
                            undecodable_node d'
                       /\ Dict.get AUX d' = Some (JStr "{oops")).
Proof.
  apply (undecodable_node_keeps_generic_shape Json.loads 2 undecodable_node "{oops");
    reflexivity.
Defined.

(** Two sibling notes, the first with an encoding that does not decode:
    it comes back as it went in; the second is merged as usual. *)
Lemma undecodable_auxiliary_data_stays :
  extract_mixed_content_from_json Json.loads 8 two_notes
  = Ok (JList [JDict undecodable_node; JDict [("content", note_content)]])
  /\ Dict.get AUX undecodable_node = Some (JStr "{oops")
  /\ Json.loads "{oops" = None.
Proof. repeat split. Qed.

(* ------------------------------------------------------------------ *)
(** ** The document that is stored *)

(** [tei_xml] is written from the tree the marking pass has changed. *)
Lemma tei_xml_of_marked_tree json_dumps json_loads fuel tree r :
  parse_tei_file json_dumps json_loads fuel tree = Ok r ->
  tei_xml r = tostring (fst (handle_mixed_content_elements json_dumps tree)).
Proof.
  unfold parse_tei_file, tei_to_json.
  destruct (negb _); [discriminate|].
  destruct (handle_mixed_content_elements json_dumps tree) as [marked outcome].
  intros H. bind_inv H. now injection H as <-.
Qed.

(** C3, the code at a document with an eligible element: the stored
    [tei_xml] is not the document as parsed, it carries the auxiliary
    attribute [mixed-content-json] on the note. *)
Theorem tei_xml_carries_auxiliary_attribute :
  exists r,
    parse_tei_file Json.dumps Json.loads 12 entry_doc = Ok r
    /\ tei_xml r = tostring (fst (handle_mixed_content_elements Json.dumps entry_doc))
    /\ has_attribute AUX (tei_xml r) = true
    /\ has_attribute AUX (tostring entry_doc) = false.
Proof.
  eexists. split; [vm_compute; reflexivity|]. repeat split.
Qed.

(* ------------------------------------------------------------------ *)
(** ** The rename of the reserved attribute names *)

Lemma replace_from_absent old new (s : string) :
  PyStr.contains s old = false -> PyStr.replace_from old new 0 s = s.
Proof.
  induction s as [|c s IH]; [reflexivity|].
  cbn [PyStr.contains PyStr.replace_from]. intros H.
  apply orb_false_iff in H as [Hp Hc]. rewrite Hp. now rewrite (IH Hc).
Qed.

(** A piece of text that mentions neither name is left alone. *)
Lemma rename_reserved_absent (s : string) :
  PyStr.contains s "xml:id" = false ->
  PyStr.contains s "xml:lang" = false ->
  rename_reserved s = s.
Proof.
  intros Hid Hlang. unfold rename_reserved, PyStr.replace.
  rewrite (replace_from_absent _ _ _ Hid). apply (replace_from_absent _ _ _ Hlang).
Qed.

(** C9, the code at a document whose text mentions [xml:id]: the rename
    is a replacement over the whole text, so the character data of
    [<def>see xml:id</def>] is rewritten too, and the converted tree holds
    the altered text. *)
Theorem rename_alters_character_data :
  rename_reserved entry_mentioning_id_text = entry_mentioning_id_renamed
  /\ snd (tei_to_json Json.dumps Json.loads 8 entry_mentioning_id)
     = Ok (JDict [("entry", JDict [("xmlns", JStr TEI_URI);
                                   ("xmlId", JStr "e1");
                                   ("def", JStr "see xmlId")])]).
Proof. split; vm_compute; reflexivity. Qed.

(* ------------------------------------------------------------------ *)
(** ** Elements with text only *)






(* ------------------------------------------------------------------ *)
(** ** Attributes in the generic tree *)

Lemma get_push_data_other force_list item key data k :
  key <> k ->
  Dict.get k (push_data force_list item key data) = Dict.get k (item_or_empty item).
Proof.
  intros Hne. unfold push_data. fold (item_or_empty item).
  assert (Hk : k <> key) by congruence.
  destruct (Dict.get key (item_or_empty item)) as [[| | | |values|]|];
    try destruct (existsb _ force_list);
    apply (DictFacts.get_set_other _ _ _ _ Hk).
Qed.

(** Reading the body of an element does not touch the keys that no child
    is called. *)
Lemma get_after_body force_list (value_of : xml -> json) (body : list xml) k :
  (forall n a b, In (XElem n a b) body -> n <> k) ->
  forall state,
    Dict.get k
      (item_or_empty
         (fst (fold_left
                 (fun state child =>
                    match child with
                    | XText s => (fst state, (snd state ++ s)%string)
                    | XElem name _ _ =>
                        (Some (push_data force_list (fst state) name (value_of child)),
                         snd state)
                    end)
                 body state)))
    = Dict.get k (item_or_empty (fst state)).
Proof.
  induction body as [|child body IH]; intros Hbody state; [reflexivity|].
  cbn [fold_left]. rewrite IH.
  - destruct child as [s|n a b]; [reflexivity|]. cbn [fst].
    cbn [item_or_empty].
    apply get_push_data_other. apply (Hbody n a b). now left.
  - intros n a b Hin. apply (Hbody n a b). now right.
Qed.

Lemma get_attrs_other (attrs : list (string * string)) (acc : dict) k :
  (forall kv, In kv attrs -> fst kv <> k) ->
  Dict.get k (fold_left (fun d kv => Dict.set ("" ++ fst kv) (JStr (snd kv)) d) attrs acc)
  = Dict.get k acc.
Proof.
  revert acc. induction attrs as [|[k0 v0] attrs IH]; intros acc H; [reflexivity|].
  cbn [fold_left]. rewrite IH by (intros kv Hkv; apply H; now right).
  apply DictFacts.get_set_other. intros ->. apply (H (k0, v0)); [now left|reflexivity].
Qed.

Lemma get_attrs (attrs : list (string * string)) (acc : dict) k v :
  distinct (map fst attrs) = true ->
  In (k, v) attrs ->
  Dict.get k (fold_left (fun d kv => Dict.set ("" ++ fst kv) (JStr (snd kv)) d) attrs acc)
  = Some (JStr v).
Proof.
  revert acc. induction attrs as [|[k0 v0] attrs IH]; intros acc Hd Hin; [contradiction|].
  cbn [map fst distinct] in Hd. apply andb_true_iff in Hd as [Hk0 Hd].
  cbn [fold_left]. destruct Hin as [Heq|Hin].
  - injection Heq as -> ->. rewrite get_attrs_other.
    + apply DictFacts.get_set_same.
    + intros [k1 v1] Hin1 Hk1. simpl in Hk1. subst k1.
      apply negb_true_iff in Hk0.
      assert (Hex : existsb (String.eqb k) (map fst attrs) = true).
      { apply existsb_eqb_in. apply in_map_iff. exists (k, v1). auto. }
      congruence.
  - apply (IH _ Hd Hin).
Qed.

(** An attribute of a written element is a key of its generic value,
    under its own name: the call passes an empty [attr_prefix]. *)
Lemma element_value_attribute name attrs body k v :
  In (k, v) attrs ->
  distinct (map fst attrs) = true ->
  (forall n a b, In (XElem n a b) body -> n <> k) ->
  k <> "" ->
  exists d,
    element_value "" "" FORCE_LIST (XElem name attrs body) = JDict d
    /\ Dict.get k d = Some (JStr v).
Proof.
  intros Hin Hd Hbody Hne.
  cbn [element_value].
  match goal with
  | |- context [fold_left ?f attrs []] => set (attrs_dict := fold_left f attrs [])
  end.
  assert (Hget : Dict.get k attrs_dict = Some (JStr v)) by (apply get_attrs; assumption).
  set (item := match attrs_dict with [] => None | _ => Some attrs_dict end).
  assert (Hitem : item_or_empty item = attrs_dict).
  { unfold item. now destruct attrs_dict. }
  match goal with
  | |- context [fold_left ?f body (item, ?e)] => set (state := fold_left f body (item, e))
  end.
  assert (Hstate : Dict.get k (item_or_empty (fst state)) = Some (JStr v)).
  { unfold state. rewrite get_after_body by exact Hbody. cbn [fst]. now rewrite Hitem. }
  destruct (fst state) as [final|] eqn:Hfinal; [|discriminate Hstate].
  cbn [item_or_empty] in Hstate.
  eexists. split; [reflexivity|].
  destruct (PyStr.truthy _); [|exact Hstate].
  rewrite get_push_data_other by congruence. exact Hstate.
Qed.

Lemma body_elements scope (tx : option string) (kids : list Element) n a b :
  In (XElem n a b)
    (map rename_document
       (chars tx
          ++ flat_map
               (fun kid =>
                  (if content_only kid then [] else [written scope kid])
                    ++ chars (tail kid))
               kids)) ->
  exists kid,
    In kid kids /\ content_only kid = false /\ n = rename_reserved (written_tag kid).
Proof.
  intros H. apply in_map_iff in H as [node [Hnode Hin]].
  assert (Hchars : forall t, In node (chars t) -> False).
  { intros t Ht. unfold chars in Ht. destruct t as [s|]; [|contradiction].
    destruct (PyStr.truthy s); [|contradiction].
    destruct Ht as [<-|[]]. discriminate. }
  apply in_app_or in Hin as [Hin|Hin]; [destruct (Hchars _ Hin)|].
  apply in_flat_map in Hin as [kid [Hkid Hin]].
  apply in_app_or in Hin as [Hin|Hin]; [|destruct (Hchars _ Hin)].
  destruct (content_only kid) eqn:Hc; [contradiction|].
  destruct Hin as [<-|[]].
  exists kid. split; [exact Hkid|]. split; [exact Hc|].
  destruct kid. cbn [written rename_document] in Hnode. now injection Hnode as <- _ _.
Qed.

Lemma written_own_name scope (k : string) :
  own_name k = true -> written_name scope k = written_name [] k.
Proof.
  unfold own_name, written_name. destruct (namespace_uri k) as [uri|]; [|reflexivity].
  now intros ->.
Qed.

(** C4 (amended).  For an element whose attributes are in no namespace
    or in the XML namespace: in the generic tree each attribute is a key
    of the element's mapping under its name as written in the document
    (the bare name, or [xml:] and the local name), with no [@] put before
    it and the prefix not stripped; name and value go through the rename
    of the serialized text, which turns [xml:id] into [xmlId] and
    [xml:lang] into [xmlLang].  This holds when the key is not empty, the
    names (after the rename) of the namespace declarations and attributes
    of the element differ from one another, and no child element is
    written under the name of the key. *)
Theorem attribute_key_is_written_name scope (elem : Element) (k v : string) :
  In (k, v) (attrib elem) ->
  forallb (fun kv => own_name (fst kv)) (attrib elem) = true ->
  distinct
    (map (fun d => rename_reserved (fst (declaration d))) (nsdef elem)
       ++ map (fun kv => rename_reserved (written_name [] (fst kv))) (attrib elem)) = true ->
  (forall child,
      In child (children elem) -> content_only child = false ->
      rename_reserved (written_tag child) <> rename_reserved (written_name [] k)) ->
  rename_reserved (written_name [] k) <> "" ->
  exists d,
    element_value "" "" FORCE_LIST (rename_document (written scope elem)) = JDict d
    /\ Dict.get (rename_reserved (written_name [] k)) d = Some (JStr (rename_reserved v)).
Proof.
  intros Hin Hown Hd Hkids Hne. destruct elem as [tg attrs tx kids tl px ns].
  cbn [written rename_document attrib children nsdef] in *.
  assert (Hnames :
            map (fun kv => (written_name (ns ++ scope) (fst kv), snd kv)) attrs
            = map (fun kv => (written_name [] (fst kv), snd kv)) attrs).
  { apply map_ext_in. intros [k0 v0] Hk0. cbn [fst snd].
    rewrite forallb_forall in Hown. now rewrite (written_own_name _ k0 (Hown _ Hk0)). }
  rewrite Hnames.
  apply element_value_attribute.
  - apply in_map_iff. exists (written_name [] k, v). split; [reflexivity|].
    apply in_or_app. right. apply in_map_iff. exists (k, v). auto.
  - rewrite !map_map, map_app, !map_map. cbn [fst]. exact Hd.
  - intros n a b Hbody. apply body_elements in Hbody as [kid [Hkid [Hc ->]]].
    apply (Hkids kid Hkid Hc).
  - exact Hne.
Qed.

(** C4 on the entry: [xml:id] is the key [xmlId]. *)
Lemma attribute_key_is_written_name_witness :
  exists d,
    element_value "" "" FORCE_LIST (rename_document (written [] entry_doc)) = JDict d
    /\ Dict.get "xmlId" d = Some (JStr "DWB__wort1").
Proof.
  apply (attribute_key_is_written_name [] entry_doc
           "{http://www.w3.org/XML/1998/namespace}id" "DWB__wort1").
  - left. reflexivity.
  - reflexivity.
  - reflexivity.
  - intros child [<-|[<-|[]]] _; discriminate.
  - discriminate.
Defined.

(** C4, the claim as stated fails: the attribute [type] of a form is the
    key [type], not [@type]; [xml:id] is the key [xmlId], its prefix not
    stripped but fused; and an attribute written with a prefix of its own
    keeps that prefix. *)
Lemma attribute_keys_have_no_sentinel :
  element_value "" "" FORCE_LIST (rename_document (written [] form_lemma))
  = JDict [("type", JStr "lemma"); ("orth", JStr "wort")]
  /\ snd (tei_to_json Json.dumps Json.loads 12 entry_doc)
     = Ok (JDict
             [("entry",
               JDict
                 [("xmlns", JStr TEI_URI);
                  ("xmlId", JStr "DWB__wort1");
                  ("form", JList [JDict [("type", JStr "lemma"); ("orth", JStr "wort")]]);
                  ("sense",
                   JList
                     [JDict [("def", JStr "Simple text only");
                             ("note", JList [JDict [("content", note_content)]])]])])])
  /\ snd (tei_to_json Json.dumps Json.loads 12 entry_with_prefixes)
     = Ok (JDict
             [("entry",
               JDict
                 [("xmlns", JStr TEI_URI);
                  ("xmlns:dc", JStr "http://purl.org/dc/elements/1.1/");
                  ("dc:source", JStr "DWB");
                  ("xml:space", JStr "preserve");
                  ("", JStr "wort")])]).
Proof. repeat split; vm_compute; reflexivity. Qed.

(* ------------------------------------------------------------------ *)
(** ** The reference decoder returns values lighter than their text *)

Lemma drop_length n (s : string) : String.length (drop n s) = String.length s - n.
Proof.
  revert s. induction n as [|n IH]; intros s; destruct s as [|c s]; simpl; auto.
Qed.

Lemma prefix_length (p s : string) :
  String.prefix p s = true -> String.length p <= String.length s.
Proof.
  revert s. induction p as [|a p IH]; intros s H; simpl; [lia|].
  destruct s as [|b s]; simpl in *; [discriminate|].
  destruct (ascii_dec a b); [|discriminate]. specialize (IH s H). lia.
Qed.

Lemma after_prefix_length (p s : string) :
  String.prefix p s = true ->
  String.length (after_prefix p s) + String.length p = String.length s.
Proof.
  intros H. unfold after_prefix. rewrite drop_length.
  pose proof (prefix_length p s H). lia.
Qed.

Lemma skip_ws_length (s : string) :
  String.length (Json.skip_ws s) <= String.length s.
Proof.
  induction s as [|c s IH]; simpl; [lia|].
  destruct (Json.is_ws c); simpl; lia.
Qed.

Lemma utf8_length n u : Json.utf8 n = Some u -> String.length u <= 3.
Proof.
  unfold Json.utf8. intros H.
  repeat match type of H with
         | (if ?b then _ else _) = _ => destruct b
         end; try discriminate; injection H as <-; simpl; lia.
Qed.

Lemma append_length (a b : string) :
  String.length (a ++ b) = String.length a + String.length b.
Proof. induction a as [|c a IH]; simpl; [reflexivity|now rewrite IH]. Qed.

Lemma string_body_length n :
  forall s str rest,
    String.length s <= n ->
    Json.string_body s = Some (str, rest) ->
    String.length str + String.length rest < String.length s.
Proof.
  induction n as [|n IH]; intros s str rest Hn H.
  - destruct s; [discriminate|simpl in Hn; lia].
  - destruct s as [|c s]; [discriminate|]. simpl in Hn. cbn [Json.string_body] in H.
    destruct (Ascii.eqb c Json.QUOTE).
    { injection H as <- <-. simpl. lia. }
    destruct (Ascii.eqb c Json.BACKSLASH).
    + destruct s as [|e s1]; [discriminate|]. simpl in Hn.
      destruct (Ascii.eqb e "u").
      * destruct s1 as [|h1 [|h2 [|h3 [|h4 s2]]]]; try discriminate.
        destruct (Json.hex_value h1), (Json.hex_value h2), (Json.hex_value h3),
          (Json.hex_value h4); try discriminate.
        destruct (Json.utf8 _) as [u|] eqn:Hu; [|discriminate].
        destruct (Json.string_body s2) as [[body rest3]|] eqn:Hb; [|discriminate].
        injection H as <- <-. apply utf8_length in Hu.
        simpl in Hn. apply IH in Hb; [|lia].
        rewrite append_length. simpl. lia.
      * destruct (Json.unescape e); [|discriminate].
        destruct (Json.string_body s1) as [[body rest2]|] eqn:Hb; [|discriminate].
        injection H as <- <-. apply IH in Hb; [|lia]. simpl. lia.
    + destruct (nat_of_ascii c <? 32)%nat; [discriminate|].
      destruct (Json.string_body s) as [[body rest']|] eqn:Hb; [|discriminate].
      injection H as <- <-. apply IH in Hb; [|lia]. simpl. lia.
Qed.

Lemma digits_value_length (s : string) acc n rest :
  Json.digits_value s acc = (n, rest) -> String.length rest <= String.length s.
Proof.
  revert acc. induction s as [|c s IH]; simpl; intros acc H.
  - injection H as _ <-. simpl. lia.
  - destruct (Json.is_digit c).
    + specialize (IH _ H). lia.
    + injection H as _ <-. simpl. lia.
Qed.

Lemma number_length (s : string) v rest :
  Json.number s = Some (v, rest) ->
  weight v + String.length rest <= String.length s.
Proof.
  unfold Json.number. intros H.
  set (s0 := if String.prefix "-" s then drop 1 s else s) in H.
  assert (Hs0 : String.length s0 <= String.length s).
  { unfold s0. destruct (String.prefix "-" s); [rewrite drop_length|]; lia. }
  destruct s0 as [|c r] eqn:E; [discriminate|].
  destruct (Json.is_digit c) eqn:Hdigit; [|discriminate].
  assert (Hr : forall n rest', (if Ascii.eqb c "0" then (0, r)
                                else Json.digits_value (String c r) 0) = (n, rest') ->
                               String.length rest' <= String.length r).
  { intros n rest' Hp. destruct (Ascii.eqb c "0").
    - injection Hp as _ <-. lia.
    - simpl in Hp. rewrite Hdigit in Hp. apply digits_value_length in Hp. exact Hp. }
  destruct (if Ascii.eqb c "0" then _ else _) as [n rest'] eqn:Hp.
  specialize (Hr _ _ eq_refl).
  destruct (_ || _); [discriminate|].
  injection H as <- <-. simpl in *. lia.
Qed.

Lemma entries_weight_set k v (d : dict) :
  entries_weight (Dict.set k v d) <= entries_weight d + S (String.length k + weight v).
Proof.
  unfold entries_weight. induction d as [|[k0 v0] d IH]; simpl; [lia|].
  destruct (String.eqb k k0); simpl; lia.
Qed.

Lemma entries_weight_fold (more d : dict) :
  entries_weight (fold_left (fun d kv => Dict.set (fst kv) (snd kv) d) more d)
  <= entries_weight d + entries_weight more.
Proof.
  revert d. induction more as [|[k v] more IH]; intros d; simpl.
  - unfold entries_weight at 3. simpl. lia.
  - specialize (IH (Dict.set k v d)).
    pose proof (entries_weight_set k v d).
    unfold entries_weight at 3. simpl. fold (entries_weight more). lia.
Qed.

Lemma prefix_one_length (p s : string) :
  String.length p = 1 -> String.prefix p s = true ->
  S (String.length (drop 1 s)) = String.length s.
Proof.
  intros Hp H. pose proof (prefix_length p s H). rewrite drop_length. lia.
Qed.

Local Opaque drop.

Lemma value_length fuel :
  (forall s v rest,
      Json.value fuel s = Some (v, rest) ->
      weight v + String.length rest <= String.length s)
  /\ (forall s items rest,
         Json.elements fuel s = Some (items, rest) ->
         list_sum (map weight items) + String.length rest < String.length s)
  /\ (forall s entries rest,
         Json.members fuel s = Some (entries, rest) ->
         entries_weight entries + String.length rest < String.length s).
Proof.
  induction fuel as [|fuel [IHv [IHe IHm]]]; [repeat split; discriminate|].
  repeat split.
  - intros s v rest H. cbn [Json.value] in H.
    pose proof (skip_ws_length s) as Hs.
    set (s1 := Json.skip_ws s) in *.
    destruct (String.prefix "{" s1) eqn:P1.
    { pose proof (prefix_one_length "{" s1 eq_refl P1) as L1.
      pose proof (skip_ws_length (drop 1 s1)) as Hs2.
      set (s2 := Json.skip_ws (drop 1 s1)) in *.
      destruct (String.prefix "}" s2) eqn:P2.
      - injection H as <- <-.
        pose proof (prefix_one_length "}" s2 eq_refl P2). simpl. lia.
      - destruct (Json.members fuel s2) as [[entries rest']|] eqn:Hm; [|discriminate].
        injection H as <- <-. apply IHm in Hm. unfold entries_weight in Hm.
        simpl. lia. }
    destruct (String.prefix "[" s1) eqn:P3.
    { pose proof (prefix_one_length "[" s1 eq_refl P3) as L1.
      pose proof (skip_ws_length (drop 1 s1)) as Hs2.
      set (s2 := Json.skip_ws (drop 1 s1)) in *.
      destruct (String.prefix "]" s2) eqn:P2.
      - injection H as <- <-.
        pose proof (prefix_one_length "]" s2 eq_refl P2). simpl. lia.
      - destruct (Json.elements fuel s2) as [[items rest']|] eqn:He; [|discriminate].
        injection H as <- <-. apply IHe in He. simpl. lia. }
    destruct (String.prefix Json.QUOTE_MARK s1) eqn:P4.
    { pose proof (prefix_one_length Json.QUOTE_MARK s1 eq_refl P4) as L1.
      destruct (Json.string_body (drop 1 s1)) as [[str rest']|] eqn:Hb; [|discriminate].
      injection H as <- <-. apply (string_body_length _ _ _ _ (le_n _)) in Hb.
      simpl. lia. }
    destruct (String.prefix "null" s1) eqn:P5.
    { injection H as <- <-. pose proof (after_prefix_length _ _ P5). simpl in *. lia. }
    destruct (String.prefix "true" s1) eqn:P6.
    { injection H as <- <-. pose proof (after_prefix_length _ _ P6). simpl in *. lia. }
    destruct (String.prefix "false" s1) eqn:P7.
    { injection H as <- <-. pose proof (after_prefix_length _ _ P7). simpl in *. lia. }
    apply number_length in H. lia.
  - intros s items rest H. cbn [Json.elements] in H.
    destruct (Json.value fuel s) as [[v rest1]|] eqn:Hv; [|discriminate].
    apply IHv in Hv.
    pose proof (skip_ws_length rest1) as Hs.
    set (r := Json.skip_ws rest1) in *.
    destruct (String.prefix "," r) eqn:P1.
    { pose proof (prefix_one_length "," r eq_refl P1).
      destruct (Json.elements fuel (drop 1 r)) as [[vs rest2]|] eqn:He; [|discriminate].
      injection H as <- <-. apply IHe in He. simpl. lia. }
    destruct (String.prefix "]" r) eqn:P2; [|discriminate].
    injection H as <- <-. pose proof (prefix_one_length "]" r eq_refl P2). simpl. lia.
  - intros s entries rest H. cbn [Json.members] in H.
    pose proof (skip_ws_length s) as Hs.
    set (s1 := Json.skip_ws s) in *.
    destruct (String.prefix Json.QUOTE_MARK s1) eqn:P1; [|discriminate].
    pose proof (prefix_one_length Json.QUOTE_MARK s1 eq_refl P1) as L1.
    destruct (Json.string_body (drop 1 s1)) as [[key rest1]|] eqn:Hb; [|discriminate].
    apply (string_body_length _ _ _ _ (le_n _)) in Hb.
    pose proof (skip_ws_length rest1) as Hs1.
    set (r1 := Json.skip_ws rest1) in *.
    destruct (String.prefix ":" r1) eqn:P2; [|discriminate].
    pose proof (prefix_one_length ":" r1 eq_refl P2) as L2.
    destruct (Json.value fuel (drop 1 r1)) as [[v rest2]|] eqn:Hv; [|discriminate].
    apply IHv in Hv.
    pose proof (skip_ws_length rest2) as Hs2.
    set (r2 := Json.skip_ws rest2) in *.
    destruct (String.prefix "," r2) eqn:P3.
    { pose proof (prefix_one_length "," r2 eq_refl P3).
      destruct (Json.members fuel (drop 1 r2)) as [[more rest3]|] eqn:Hm; [|discriminate].
      injection H as <- <-. apply IHm in Hm.
      pose proof (entries_weight_fold more [(key, v)]) as Hf.
      unfold entries_weight at 2 in Hf. simpl in Hf. lia. }
    destruct (String.prefix "}" r2) eqn:P4; [|discriminate].
    injection H as <- <-. pose proof (prefix_one_length "}" r2 eq_refl P4).
    unfold entries_weight. simpl. lia.
Qed.

Local Transparent drop.

(** The reference decoder satisfies the hypothesis of [Termination]. *)
Lemma loads_lighter (s : string) (v : json) :
  Json.loads s = Some v -> weight v <= String.length s.
Proof.
  unfold Json.loads. intros H.
  destruct (Json.value _ s) as [[v' rest]|] eqn:Hv; [|discriminate].
  destruct (Json.skip_ws rest); [|discriminate]. injection H as <-.
  apply (proj1 (value_length _)) in Hv. lia.
Qed.

(** With the reference decoder, fuel for the weight of the tree is
    enough. *)
Lemma reference_reconciliation_terminates (data : json) :
  extract_mixed_content_from_json Json.loads (weight data) data <> OutOfFuel.
Proof.
  apply (reconciliation_terminates Json.loads loads_lighter). apply le_n.
Qed.

(* ------------------------------------------------------------------ *)
(** ** The scenario of the specification *)

(** [<note>Pre <!-- sic -->Post</note>] as a document: the note has text
    and a child, the child is a comment, the serializer raises and with
    it the conversion of the document. *)
Lemma comment_scenario :
  eligible note_with_comment = true
  /\ serialize_mixed_content note_with_comment = Raise AttributeError
  /\ snd (tei_to_json Json.dumps Json.loads 8 (tei_root note_with_comment))
     = Raise AttributeError.
Proof. repeat split. Qed.

(** [<note>Pre <hi rend="sup">3</hi>Post</note>] as a document: the
    ordered [content], and no [hi] key beside it. *)
Lemma note_scenario :
  snd (tei_to_json Json.dumps Json.loads 8 (tei_root note_pre_post))
  = Ok reconciled_note_doc.
Proof. vm_compute. reflexivity. Qed.

(** The grouping code of an identifier. *)
Lemma grouping_code_scenario :
  (exists r, parse_tei_file Json.dumps Json.loads 12 entry_doc = Ok r /\ wb r = "DWB")
  /\ split_head "__" "DWB__wort1" = "DWB"
  /\ PyStr.contains "standalone" "__" = false.
Proof.
  split; [eexists; split; [vm_compute; reflexivity|reflexivity]|].
  split; reflexivity.
Qed.

(* ================================================================== *)
(** * Further properties of the code *)

(* ------------------------------------------------------------------ *)
(** ** The serializer: the element's own attributes, the fallback *)

Lemma get_own_attributes (attrs : list (string * string)) (acc : dict) k v :
  distinct (map (fun kv => clean_name (fst kv)) attrs) = true ->
  In (k, v) attrs ->
  Dict.get ("@" ++ clean_name k)
    (fold_left
       (fun result kv => Dict.set ("@" ++ clean_name (fst kv)) (JStr (snd kv)) result)
       attrs acc)
  = Some (JStr v).
Proof.
  revert acc. induction attrs as [|[k0 v0] attrs IH]; intros acc Hd Hin; [contradiction|].
  cbn [map fst distinct] in Hd. apply andb_true_iff in Hd as [Hk0 Hd].
  cbn [fold_left]. destruct Hin as [Heq|Hin]; [|apply (IH _ Hd Hin)].
  injection Heq as -> ->. cbn [fst snd].
  assert (Hother : forall rest acc0,
             existsb (String.eqb (clean_name k))
               (map (fun kv => clean_name (fst kv)) rest) = false ->
             Dict.get ("@" ++ clean_name k)
               (fold_left
                  (fun result kv =>
                     Dict.set ("@" ++ clean_name (fst kv)) (JStr (snd kv)) result)
                  rest acc0)
             = Dict.get ("@" ++ clean_name k) acc0).
  { induction rest as [|[k1 v1] rest IHr]; intros acc0 Hex; [reflexivity|].
    cbn [map fst existsb] in Hex. apply orb_false_iff in Hex as [Hne Hex].
    cbn [fold_left]. rewrite (IHr _ Hex). apply DictFacts.get_set_other.
    cbn [fst]. intros Heq. injection Heq as Heq. rewrite Heq, String.eqb_refl in Hne.
    discriminate. }
  rewrite Hother by (now apply negb_true_iff in Hk0).
  apply DictFacts.get_set_same.
Qed.

(** X1.  Whatever branch the serializer takes, an attribute of the
    element itself is carried beside the content under the key ["@"]
    followed by its name without the TEI namespace, with its value, when
    no two attributes of the element get the same cleaned name.  (The
    children are elements: the serializer returns.) *)
Theorem serialized_own_attribute (e : Element) (k v : string) :
  In (k, v) (attrib e) ->
  distinct (map (fun kv => clean_name (fst kv)) (attrib e)) = true ->
  existsb content_only (children e) = false ->
  exists d,
    serialize_mixed_content e = Ok d
    /\ Dict.get ("@" ++ clean_name k) d = Some (JStr v).
Proof.
  intros Hin Hd Hkids. unfold serialize_mixed_content.
  rewrite (fold_append_child _ _ Hkids).
  destruct (has_text (text e) || _); cbn [bind];
    (eexists; split; [reflexivity|]);
    (rewrite DictFacts.get_set_other by discriminate);
    now apply get_own_attributes.
Qed.

Lemma serialized_own_attribute_witness :
  exists d,
    serialize_mixed_content ref_bibl = Ok d
    /\ Dict.get ("@" ++ clean_name "type") d = Some (JStr "bibl").
Proof.
  apply (serialized_own_attribute ref_bibl "type" "bibl");
    [left; reflexivity|reflexivity|reflexivity].
Defined.

Lemma truthy_false (s : string) : PyStr.truthy s = false -> s = "".
Proof. destruct s; [reflexivity|discriminate]. Qed.

(** X2.  The fallback of the serializer: an element without children
    whose text is missing or blank gets no [content]; its [value] is the
    text as it stands (the empty string when there is none), and that
    text is blank. *)
Theorem serialized_blank_leaf_has_value (e : Element) :
  has_text (text e) = false ->
  children e = [] ->
  exists d,
    serialize_mixed_content e = Ok d
    /\ Dict.get "value" d = Some (JStr (text_or_empty (text e)))
    /\ Dict.get "content" d = None
    /\ PyStr.strip (text_or_empty (text e)) = "".
Proof.
  intros Ht Hk. unfold serialize_mixed_content. rewrite Ht, Hk. cbn [List.length Nat.ltb orb].
  change (0 <? 0)%nat with false. cbn [orb].
  eexists. split; [reflexivity|].
  split; [apply DictFacts.get_set_same|]. split.
  - rewrite DictFacts.get_set_other by discriminate.
    now rewrite get_parent_attributes.
  - unfold has_text in Ht. destruct (text e) as [s|]; [|reflexivity].
    cbn [text_or_empty]. destruct s as [|c s]; [reflexivity|].
    cbn [PyStr.truthy andb] in Ht. now apply truthy_false.
Qed.

(** X2 on [<pb n="3">&#xA0; </pb>]. *)
Lemma serialized_blank_leaf_has_value_witness :
  exists d,
    serialize_mixed_content (element "pb" [("n", "3")] (Some (NBSP ++ " ")%string) [] None)
    = Ok d
    /\ Dict.get "value" d
       = Some (JStr (text_or_empty
                       (text (element "pb" [("n", "3")] (Some (NBSP ++ " ")%string) [] None))))
    /\ Dict.get "content" d = None
    /\ PyStr.strip
         (text_or_empty
            (text (element "pb" [("n", "3")] (Some (NBSP ++ " ")%string) [] None)))
       = "".
Proof.
  apply (serialized_blank_leaf_has_value
           (element "pb" [("n", "3")] (Some (NBSP ++ " ")%string) [] None));
    reflexivity.
Defined.

Lemma flat_map_length_segments (f : Element -> json) (kids : list Element) :
  List.length (flat_map (fun c => f c :: tail_segments c) kids)
  = List.length kids + List.length (filter (fun c => has_text (tail c)) kids).
Proof.
  induction kids as [|c kids IH]; [reflexivity|].
  cbn [flat_map filter]. rewrite length_app, IH. unfold tail_segments.
  destruct (has_text (tail c)); simpl; lia.
Qed.

(** X3.  The length of the content list of an element with text or
    children, the children being elements: one segment for the leading
    text if it is not blank, one for every child, one more for every child
    with a tail that is not blank; so no child and no text is dropped or
    doubled.  Blank is what [str.strip] empties: a no-break space is
    blank. *)
Theorem content_length (e : Element) :
  has_text (text e) || (0 <? List.length (children e))%nat = true ->
  existsb content_only (children e) = false ->
  exists d content,
    serialize_mixed_content e = Ok d
    /\ Dict.get "content" d = Some (JList content)
    /\ List.length content
       = (if has_text (text e) then 1 else 0)
         + List.length (children e)
         + List.length (filter (fun c => has_text (tail c)) (children e)).
Proof.
  intros H Hkids. destruct (content_of_serialized e H Hkids) as [d [Hd Hc]].
  exists d. eexists. split; [exact Hd|]. split; [exact Hc|].
  unfold ordered_content.
  rewrite length_app, flat_map_length_segments. unfold leading_segments.
  destruct (has_text (text e)); simpl; lia.
Qed.

(** X3 on a note whose text is a no-break space and whose child has an
    em space as its tail: one segment, that of the child. *)
Lemma content_length_witness :
  exists d content,
    serialize_mixed_content note_of_spaces = Ok d
    /\ Dict.get "content" d = Some (JList content)
    /\ List.length content
       = (if has_text (text note_of_spaces) then 1 else 0)
         + List.length (children note_of_spaces)
         + List.length (filter (fun c => has_text (tail c)) (children note_of_spaces)).
Proof. apply (content_length note_of_spaces); reflexivity. Defined.

(** X24.  The content list is in document order whatever the attributes
    of the children are called: the leading text if it is not blank, then
    child by child the dictionary of the child ([type] and [value], then
    the attributes assigned in order under their names without the TEI
    namespace) followed at once by the child's tail if that is not
    blank. *)
Theorem content_in_document_order (e : Element) :
  has_text (text e) || (0 <? List.length (children e))%nat = true ->
  existsb content_only (children e) = false ->
  exists d,
    serialize_mixed_content e = Ok d
    /\ Dict.get "content" d
       = Some (JList
                 (leading_segments e
                    ++ flat_map (fun c => JDict (child_dict c) :: tail_segments c)
                         (children e))).
Proof. intros H Hkids. exact (content_of_serialized e H Hkids). Qed.

Lemma content_in_document_order_witness :
  exists d,
    serialize_mixed_content note_siehe = Ok d
    /\ Dict.get "content" d
       = Some (JList
                 (leading_segments note_siehe
                    ++ flat_map (fun c => JDict (child_dict c) :: tail_segments c)
                         (children note_siehe))).
Proof. apply (content_in_document_order note_siehe); reflexivity. Defined.

(* ------------------------------------------------------------------ *)
(** ** The marking pass: what it touches, what it marks *)

Lemma filter_attrib_set (v : string) (attrs : list (string * string)) :
  filter (fun kv => negb (String.eqb AUX (fst kv))) (attrib_set AUX v attrs)
  = filter (fun kv => negb (String.eqb AUX (fst kv))) attrs.
Proof.
  induction attrs as [|[k0 v0] attrs IH]; [reflexivity|].
  cbn [attrib_set]. destruct (String.eqb AUX k0) eqn:E.
  - cbn [filter fst]. now rewrite String.eqb_refl, E.
  - cbn [filter fst]. now rewrite E, IH.
Qed.

Lemma without_aux_mark_each (f : Element -> Element * result unit) (l : list Element) :
  Forall (fun kid => without_aux (fst (f kid)) = without_aux kid) l ->
  map without_aux (fst (mark_each f l)) = map without_aux l.
Proof.
  induction l as [|kid l IH]; intros H; [reflexivity|].
  inversion H as [|? ? Hkid Hl]; subst. specialize (IH Hl).
  cbn [mark_each]. destruct (f kid) as [kid' outcome]. cbn [fst] in Hkid.
  destruct (mark_each f l) as [l' outcome']. cbn [fst] in IH.
  destruct outcome; cbn [fst map]; now rewrite Hkid, ?IH.
Qed.

Lemma without_aux_mark json_dumps name (e : Element) :
  without_aux (fst (mark json_dumps name e)) = without_aux e.
Proof.
  induction e as [tg attrs tx kids tl px ns IH] using Element_nested_ind.
  pose proof (without_aux_mark_each (mark json_dumps name) kids IH) as Hkids.
  cbn [mark].
  destruct (mark_each (mark json_dumps name) kids) as [kids' outcome].
  cbn [fst] in Hkids.
  destruct (String.eqb tg name && eligible (mkElement tg attrs tx kids tl px ns)).
  - destruct (serialize_mixed_content (mkElement tg attrs tx kids tl px ns));
      cbn [bind fst without_aux]; [|reflexivity|reflexivity].
    now rewrite filter_attrib_set, Hkids.
  - cbn [fst without_aux]. now rewrite Hkids.
Qed.

(** Once something is raised the loop over the XPaths is left. *)
Lemma handle_left json_dumps (tags : list string) (tree : Element) (outcome : result unit) :
  outcome <> Ok tt ->
  fold_left
    (fun state name =>
       match snd state with
       | Ok _ => mark json_dumps name (fst state)
       | _ => state
       end)
    tags (tree, outcome)
  = (tree, outcome).
Proof.
  intros H. induction tags as [|name tags IH]; [reflexivity|].
  cbn [fold_left fst snd]. destruct outcome as [[]| |]; [congruence|exact IH|exact IH].
Qed.

Lemma without_aux_marked json_dumps (tree : Element) :
  without_aux (fst (handle_mixed_content_elements json_dumps tree)) = without_aux tree.
Proof.
  unfold handle_mixed_content_elements.
  generalize mixed_content_tags. intros tags. revert tree.
  induction tags as [|name tags IH]; intros tree; [reflexivity|].
  cbn [fold_left fst snd].
  destruct (mark json_dumps name tree) as [tree' outcome] eqn:E.
  pose proof (without_aux_mark json_dumps name tree) as Hmark. rewrite E in Hmark.
  cbn [fst] in Hmark.
  destruct outcome as [[]|ex|].
  - now rewrite IH.
  - now rewrite handle_left.
  - now rewrite handle_left.
Qed.

(** X4.  The marking pass changes nothing but the auxiliary attribute:
    the tags, texts, tails, children and every other attribute of the
    tree are as before, whether the pass returns or raises. *)
Theorem marking_touches_only_auxiliary_attribute json_dumps (tree : Element) :
  without_aux (fst (handle_mixed_content_elements json_dumps tree)) = without_aux tree.
Proof. apply without_aux_marked. Qed.

Lemma attrib_get_set_same k v attrs : attrib_get k (attrib_set k v attrs) = Some v.
Proof.
  induction attrs as [|[k0 v0] attrs IH]; simpl.
  - now rewrite String.eqb_refl.
  - destruct (String.eqb k k0) eqn:E; simpl; [now rewrite String.eqb_refl|now rewrite E].
Qed.

Lemma tail_without_aux (e : Element) : tail (without_aux e) = tail e.
Proof. now destruct e. Qed.

Lemma eligible_without_aux (e : Element) : eligible (without_aux e) = eligible e.
Proof.
  destruct e as [tg attrs tx kids tl px ns]. unfold eligible.
  cbn [without_aux text children].
  rewrite length_map. f_equal.
  induction kids as [|kid kids IH]; [reflexivity|].
  cbn [map existsb]. now rewrite tail_without_aux, IH.
Qed.

Lemma eligible_mark json_dumps name (e : Element) :
  eligible (fst (mark json_dumps name e)) = eligible e.
Proof.
  rewrite <- (eligible_without_aux (fst _)), without_aux_mark.
  apply eligible_without_aux.
Qed.

(** The loop over the children when it returns. *)
Lemma mark_each_ok (f : Element -> Element * result unit) (l : list Element) :
  snd (mark_each f l) = Ok tt ->
  fst (mark_each f l) = map (fun kid => fst (f kid)) l
  /\ Forall (fun kid => snd (f kid) = Ok tt) l.
Proof.
  induction l as [|kid l IH]; intros H; [now split|].
  cbn [mark_each] in *. destruct (f kid) as [kid' outcome] eqn:E.
  destruct outcome as [[]|ex|]; [|discriminate H|discriminate H].
  destruct (mark_each f l) as [l' outcome']. cbn [fst snd] in *.
  destruct (IH H) as [-> Hl]. split.
  - cbn [map]. now rewrite E.
  - constructor; [now rewrite E|exact Hl].
Qed.

Lemma marking_view_mark json_dumps name (e : Element) :
  snd (mark json_dumps name e) = Ok tt ->
  map marking_view (elements (fst (mark json_dumps name e)))
  = map (fun view =>
           match view with
           | (tg, el, marked) => (tg, el, marked || (String.eqb tg name && el))
           end)
      (map marking_view (elements e)).
Proof.
  induction e as [tg attrs tx kids tl px ns IH] using Element_nested_ind.
  intros Hok.
  pose proof (eligible_mark json_dumps name (mkElement tg attrs tx kids tl px ns)) as Hel.
  cbn [mark] in Hel, Hok |- *.
  set (e := mkElement tg attrs tx kids tl px ns) in *.
  assert (Hkids :
              snd (mark_each (mark json_dumps name) kids) = Ok tt ->
              map marking_view
                (flat_map elements (fst (mark_each (mark json_dumps name) kids)))
              = map (fun view =>
                       match view with
                       | (tg, el, marked) => (tg, el, marked || (String.eqb tg name && el))
                       end)
                  (map marking_view (flat_map elements kids))).
  { intros Heach. destruct (mark_each_ok _ _ Heach) as [-> Hall].
    clear - IH Hall. induction kids as [|kid kids IHk]; [reflexivity|].
    inversion IH as [|? ? Hkid Hkids]; subst.
    inversion Hall as [|? ? Hk Hks]; subst.
    cbn [map flat_map]. rewrite !map_app, (Hkid Hk), (IHk Hkids Hks). reflexivity. }
  destruct (String.eqb tg name && eligible e) eqn:Hcond.
  - destruct (serialize_mixed_content e) as [d|ex|]; cbn [bind] in *;
      [|discriminate Hok|discriminate Hok].
    destruct (mark_each (mark json_dumps name) kids) as [kids' outcome] eqn:Heach.
    cbn [fst snd] in *. specialize (Hkids Hok).
    unfold e in *. cbn [elements map]. rewrite Hkids. f_equal.
    unfold marking_view at 1 2. cbn [tag]. rewrite Hel, Hcond. f_equal.
    unfold is_marked. cbn [attrib]. rewrite attrib_get_set_same.
    now rewrite orb_true_r.
  - destruct (mark_each (mark json_dumps name) kids) as [kids' outcome] eqn:Heach.
    cbn [fst snd] in *. specialize (Hkids Hok).
    unfold e in *. cbn [elements map]. rewrite Hkids. f_equal.
    unfold marking_view at 1 2. cbn [tag]. rewrite Hel, Hcond. f_equal.
    unfold is_marked. cbn [attrib]. now rewrite orb_false_r.
Qed.

Lemma marking_view_fold json_dumps (tags : list string) :
  forall tree,
    snd (fold_left
           (fun state name =>
              match snd state with
              | Ok _ => mark json_dumps name (fst state)
              | _ => state
              end)
           tags (tree, Ok tt)) = Ok tt ->
    map marking_view
      (elements
         (fst (fold_left
                 (fun state name =>
                    match snd state with
                    | Ok _ => mark json_dumps name (fst state)
                    | _ => state
                    end)
                 tags (tree, Ok tt))))
    = map (fun view =>
             match view with
             | (tg, el, marked) => (tg, el, marked || (existsb (String.eqb tg) tags && el))
             end)
        (map marking_view (elements tree)).
Proof.
  induction tags as [|name tags IH]; intros tree Hok.
  - cbn [fold_left existsb fst]. rewrite map_map. apply map_ext.
    intros e. unfold marking_view. now rewrite orb_false_r.
  - cbn [fold_left fst snd] in *.
    destruct (mark json_dumps name tree) as [tree' outcome] eqn:E.
    destruct outcome as [[]|ex|];
      [|rewrite handle_left in Hok by discriminate; discriminate Hok
       |rewrite handle_left in Hok by discriminate; discriminate Hok].
    rewrite (IH tree' Hok).
    pose proof (marking_view_mark json_dumps name tree) as Hmark.
    rewrite E in Hmark. cbn [fst snd] in Hmark. rewrite (Hmark eq_refl), !map_map.
    apply map_ext. intros e. unfold marking_view. cbn [existsb].
    f_equal. destruct (is_marked e), (eligible e), (String.eqb (tag e) name),
      (existsb (String.eqb (tag e)) tags); reflexivity.
Qed.

(** X5.  On a tree that carries no auxiliary attribute yet, the marking
    pass, when it returns, has marked exactly the elements whose tag is
    one of the seven tags of the pass and that are eligible (non-blank
    text and at least one child, or a child with a non-blank tail): no
    such element is missed and no other element is marked. *)
Theorem marking_marks_exactly_the_eligible json_dumps (tree : Element) :
  forallb (fun e => negb (is_marked e)) (elements tree) = true ->
  snd (handle_mixed_content_elements json_dumps tree) = Ok tt ->
  map is_marked (elements (fst (handle_mixed_content_elements json_dumps tree)))
  = map to_be_marked (elements tree).
Proof.
  intros Hclean Hok.
  pose proof (marking_view_fold json_dumps mixed_content_tags tree Hok) as H.
  fold (handle_mixed_content_elements json_dumps tree) in H.
  apply (f_equal (map snd)) in H. rewrite !map_map in H.
  unfold marking_view in H. cbn [snd] in H.
  etransitivity; [exact H|].
  apply map_ext_in. intros e He. unfold to_be_marked.
  rewrite forallb_forall in Hclean. specialize (Hclean e He).
  apply negb_true_iff in Hclean. now rewrite Hclean.
Qed.

(** X5 on the entry: the note is marked; the sense, which has two
    children and no text or tail, is not. *)
Lemma marking_marks_exactly_the_eligible_witness :
  map is_marked (elements (fst (handle_mixed_content_elements Json.dumps entry_doc)))
  = map to_be_marked (elements entry_doc).
Proof.
  apply (marking_marks_exactly_the_eligible Json.dumps entry_doc); reflexivity.
Defined.

(* ------------------------------------------------------------------ *)
(** ** The generic converter: children of one name *)

Lemma element_value_not_list (node : xml) :
  is_list (element_value "" "" FORCE_LIST node) = false.
Proof.
  destruct node as [s|name attrs body]; [reflexivity|].
  cbn [element_value].
  match goal with
  | |- context [fold_left ?f body ?st] => destruct (fst (fold_left f body st))
  end.
  - reflexivity.
  - now destruct (PyStr.truthy _).
Qed.

Lemma field_of_push (item : option dict) (n : string) (values : list json) (v : json) :
  forallb (fun x => negb (is_list x)) values = true ->
  Dict.get n (item_or_empty item) = field_of n values ->
  Dict.get n (push_data FORCE_LIST item n v) = field_of n (values ++ [v]).
Proof.
  intros Hv Hget. unfold push_data. fold (item_or_empty item). rewrite Hget.
  destruct values as [|v0 [|v1 values]].
  - cbn [field_of app]. destruct (existsb (String.eqb n) FORCE_LIST);
      apply DictFacts.get_set_same.
  - cbn [field_of app]. cbn [forallb] in Hv. apply andb_true_iff in Hv as [Hv0 _].
    apply negb_true_iff in Hv0.
    destruct (existsb (String.eqb n) FORCE_LIST).
    + apply DictFacts.get_set_same.
    + destruct v0; try discriminate Hv0; apply DictFacts.get_set_same.
  - cbn [field_of app]. apply DictFacts.get_set_same.
Qed.

Lemma get_after_named_children (body : list xml) (n : string) :
  forall state values,
    forallb (fun x => negb (is_list x)) values = true ->
    Dict.get n (item_or_empty (fst state)) = field_of n values ->
    Dict.get n
      (item_or_empty
         (fst (fold_left
                 (fun state child =>
                    match child with
                    | XText s => (fst state, (snd state ++ s)%string)
                    | XElem name _ _ =>
                        (Some (push_data FORCE_LIST (fst state) name
                                 (element_value "" "" FORCE_LIST child)),
                         snd state)
                    end)
                 body state)))
    = field_of n (values ++ child_values n body).
Proof.
  induction body as [|child body IH]; intros state values Hv Hget.
  - cbn [fold_left child_values flat_map]. now rewrite app_nil_r.
  - cbn [fold_left]. unfold child_values. cbn [flat_map]. fold (child_values n body).
    destruct child as [s|m a b].
    + cbn [app]. apply IH; assumption.
    + destruct (String.eqb m n) eqn:E.
      * apply String.eqb_eq in E. subst m.
        change ([?x] ++ ?l) with (x :: l). cbn [app].
        replace (values ++ element_value "" "" FORCE_LIST (XElem n a b) :: child_values n body)
          with ((values ++ [element_value "" "" FORCE_LIST (XElem n a b)])
                  ++ child_values n body)
          by (now rewrite <- app_assoc).
        apply IH.
        -- rewrite forallb_app, Hv. cbn [forallb].
           now rewrite element_value_not_list.
        -- cbn [fst item_or_empty]. now apply field_of_push.
      * cbn [app]. apply IH; [assumption|].
        cbn [fst item_or_empty]. rewrite get_push_data_other; [assumption|].
        apply String.eqb_neq. exact E.
Qed.

(** X6.  In the generic tree the children of one name are one field of
    their parent: a single child is stored bare, unless its name is one of
    the eight names of [force_list], for which it is stored as a list of
    one; two or more children are stored as the list of their values in
    document order.  (The name is not also the name of an attribute.) *)
Theorem children_of_one_name_are_one_field name attrs body (n : string) :
  n <> "" ->
  forallb (fun kv => negb (String.eqb (fst kv) n)) attrs = true ->
  child_values n body <> [] ->
  exists d,
    element_value "" "" FORCE_LIST (XElem name attrs body) = JDict d
    /\ Dict.get n d = field_of n (child_values n body).
Proof.
  intros Hne Hattrs Hkids. cbn [element_value].
  match goal with
  | |- context [fold_left ?f attrs []] => set (attrs_dict := fold_left f attrs [])
  end.
  assert (Hget : Dict.get n attrs_dict = None).
  { unfold attrs_dict. rewrite get_attrs_other; [reflexivity|].
    intros kv Hkv. rewrite forallb_forall in Hattrs. specialize (Hattrs kv Hkv).
    apply negb_true_iff, String.eqb_neq in Hattrs. exact Hattrs. }
  set (item := match attrs_dict with [] => None | _ => Some attrs_dict end).
  assert (Hitem : item_or_empty item = attrs_dict).
  { unfold item. now destruct attrs_dict. }
  match goal with
  | |- context [fold_left ?f body (item, ?e)] => set (state := fold_left f body (item, e))
  end.
  assert (Hstate : Dict.get n (item_or_empty (fst state))
                   = field_of n (child_values n body)).
  { unfold state. rewrite (get_after_named_children body n (item, "") []); [reflexivity..|].
    cbn [fst]. now rewrite Hitem. }
  destruct (fst state) as [final|] eqn:Hfinal.
  - cbn [item_or_empty] in Hstate. eexists. split; [reflexivity|].
    destruct (PyStr.truthy _); [|exact Hstate].
    rewrite get_push_data_other by congruence. exact Hstate.
  - cbn [item_or_empty Dict.get] in Hstate.
    destruct (child_values n body) as [|v [|v' vs]]; [congruence|discriminate..].
Qed.

Lemma children_of_one_name_are_one_field_witness :
  exists d,
    element_value "" "" FORCE_LIST
      (XElem "sense" [] [XElem "def" [] [XText "a"]; XElem "note" [] [XText "b"]]) = JDict d
    /\ Dict.get "note" d
       = field_of "note"
           (child_values "note" [XElem "def" [] [XText "a"]; XElem "note" [] [XText "b"]]).
Proof.
  apply (children_of_one_name_are_one_field "sense" []
           [XElem "def" [] [XText "a"]; XElem "note" [] [XText "b"]] "note");
    [discriminate|reflexivity|discriminate].
Defined.

(* ------------------------------------------------------------------ *)
(** ** The dedup step: idempotence, reserved keys, edge cases *)

(** X7.  The dedup step alone is idempotent: on a tree it has returned it
    returns that tree. *)
Theorem dedup_is_idempotent (x y : json) :
  clean_mixed_content_duplicates x = Ok y ->
  clean_mixed_content_duplicates y = Ok y.
Proof. apply clean_idempotent. Qed.

Lemma dedup_is_idempotent_witness :
  clean_mixed_content_duplicates
    (JDict [("n", JStr "1"); ("@n", JStr "1"); ("content", note_content)])
  = Ok (JDict [("n", JStr "1"); ("@n", JStr "1"); ("content", note_content)]).
Proof.
  apply (dedup_is_idempotent (JDict merged_note)). reflexivity.
Defined.

Lemma survives_attribute_key (d : dict) key :
  PyStr.startswith key "@" = true -> survives d key = true.
Proof.
  intros H. unfold survives. destruct (Dict.get "content" d); [|reflexivity].
  unfold redundant. rewrite H. cbn [negb andb].
  destruct key; [discriminate H|reflexivity].
Qed.

(** X8.  The dedup step never deletes [content], [type] or a key that
    starts with [@]: such a key of a node is a key of the cleaned node,
    and its value is the cleaned value. *)
Theorem dedup_keeps_reserved_keys (d d' : dict) (key : string) (v : json) :
  key = "content" \/ key = "type" \/ PyStr.startswith key "@" = true ->
  Dict.get key d = Some v ->
  clean_mixed_content_duplicates (JDict d) = Ok (JDict d') ->
  exists v', Dict.get key d' = Some v' /\ clean_mixed_content_duplicates v = Ok v'.
Proof.
  intros Hkey Hget H. apply clean_dict_survivors in H as [d'' [Heq Hall]].
  injection Heq as <-.
  assert (Hs : survives d key = true).
  { destruct Hkey as [->|[->|Hat]].
    - apply survives_reserved. now right.
    - apply survives_reserved. now left.
    - now apply survives_attribute_key. }
  pose proof (get_cleaned d d' key Hall Hs) as Hc. now rewrite Hget in Hc.
Qed.

Lemma dedup_keeps_reserved_keys_witness :
  exists v',
    Dict.get "@n" [("n", JStr "1"); ("@n", JStr "1"); ("content", note_content)] = Some v'
    /\ clean_mixed_content_duplicates (JStr "1") = Ok v'.
Proof.
  apply (dedup_keeps_reserved_keys merged_note _ "@n" (JStr "1"));
    [right; right; reflexivity|reflexivity|reflexivity].
Defined.

(** X9.  A [content] that is [None], a boolean or a number cannot be
    iterated: as soon as the node has a key that could be a child (not
    empty, not [content] or [type], not starting with [@]) the dedup step
    raises [TypeError]; [<x><content/><a>1</a></x>] is such a node. *)
Theorem dedup_raises_on_content_that_is_no_sequence (d : dict) (content : json) (key : string) :
  Dict.get "content" d = Some content ->
  not_iterable content = true ->
  In key (Dict.keys d) -> key <> "" -> is_child_key key = true ->
  clean_mixed_content_duplicates (JDict d) = Raise TypeError.
Proof.
  intros Hc Hn Hin Hne Hchild.
  assert (Ht : element_types content = Raise TypeError).
  { destruct content; try discriminate Hn; reflexivity. }
  cbn [clean_mixed_content_duplicates]. unfold popped_keys. rewrite Hc.
  destruct (keys_to_remove content (Dict.keys (Dict.pop "" d))) as [removed|e|] eqn:E.
  - assert (Hex : existsb is_child_key (Dict.keys (Dict.pop "" d)) = true).
    { apply existsb_exists. exists key. split; [|exact Hchild].
      apply keys_pop. auto. }
    destruct (keys_to_remove_needs_types _ _ _ E Hex) as [types Htypes]. congruence.
  - apply keys_to_remove_raises in E as [_ E]. rewrite Ht in E.
    injection E as <-. reflexivity.
  - now apply keys_to_remove_fuel in E.
Qed.

Lemma dedup_raises_on_content_that_is_no_sequence_witness :
  clean_mixed_content_duplicates (JDict [("content", JNull); ("a", JStr "1")])
  = Raise TypeError.
Proof.
  apply (dedup_raises_on_content_that_is_no_sequence
           [("content", JNull); ("a", JStr "1")] JNull "a");
    [reflexivity|reflexivity|right; left; reflexivity|discriminate|reflexivity].
Defined.

(* ------------------------------------------------------------------ *)
(** ** The merge of the decoded data *)

Lemma get_absent_key k (m : dict) :
  existsb (String.eqb k) (Dict.keys m) = false -> Dict.get k m = None.
Proof.
  induction m as [|[k0 v0] m IH]; [reflexivity|].
  cbn [Dict.keys map fst existsb Dict.get]. intros H.
  apply orb_false_iff in H as [H1 H2]. rewrite H1. apply (IH H2).
Qed.

Lemma get_after_update k (m d : dict) :
  distinct (Dict.keys m) = true ->
  Dict.get k (fold_left (fun d kv => Dict.set (fst kv) (snd kv) d) m d)
  = match Dict.get k m with
    | Some v => Some v
    | None => Dict.get k d
    end.
Proof.
  revert d. induction m as [|[k0 v0] m IH]; intros d Hd; [reflexivity|].
  cbn [Dict.keys map fst distinct] in Hd. apply andb_true_iff in Hd as [Hk0 Hd].
  apply negb_true_iff in Hk0.
  cbn [fold_left fst snd Dict.get]. rewrite (IH _ Hd).
  destruct (String.eqb k k0) eqn:E.
  - apply String.eqb_eq in E. subst k0.
    rewrite (get_absent_key k m Hk0). apply DictFacts.get_set_same.
  - destruct (Dict.get k m); [reflexivity|].
    apply DictFacts.get_set_other. now apply String.eqb_neq.
Qed.

Section MergeFacts.
Variable json_loads : string -> option json.

(** X10.  When the auxiliary encoding of a node decodes to a mapping, the
    merge gives the node every key of the decoded mapping with the
    decoded value (a generic field of the same name is overwritten),
    leaves the other fields as they are, and removes the auxiliary key. *)
Theorem merge_overwrites_and_removes_auxiliary_key (d m : dict) (s : string) :
  Dict.get AUX d = Some (JStr s) ->
  json_loads s = Some (JDict m) ->
  distinct (Dict.keys m) = true ->
  exists d1,
    merge_mixed json_loads d = Ok d1
    /\ Dict.get AUX d1 = None
    /\ forall key,
         key <> AUX ->
         Dict.get key d1 = match Dict.get key m with
                           | Some v => Some v
                           | None => Dict.get key d
                           end.
Proof.
  intros Haux Hloads Hm. unfold merge_mixed. rewrite Haux, Hloads.
  cbn [dict_update bind]. eexists. split; [reflexivity|]. split.
  - apply DictFacts.get_pop_same.
  - intros key Hne. rewrite DictFacts.get_pop_other by exact Hne.
    now apply get_after_update.
Qed.

(** X11.  Only the failure of the decoder is caught.  An auxiliary value
    that is not a string (the node has a child element of that name, say)
    makes the pass raise [TypeError], and so does an encoding that decodes
    to [null], a boolean or a number. *)
Theorem unexpected_auxiliary_value_raises fuel (d : dict) (v : json) :
  Dict.get AUX d = Some v ->
  is_str v = false
  \/ (exists s mixed, v = JStr s /\ json_loads s = Some mixed /\ not_iterable mixed = true) ->
  extract_mixed_content_from_json json_loads (S fuel) (JDict d) = Raise TypeError.
Proof.
  intros Haux [Hv|[s [mixed [-> [Hloads Hmixed]]]]];
    cbn [extract_mixed_content_from_json]; unfold merge_mixed; rewrite Haux.
  - destruct v; try discriminate Hv; reflexivity.
  - rewrite Hloads. destruct mixed; try discriminate Hmixed; reflexivity.
Qed.

(** X12.  When the auxiliary encoding of a node decodes and the pass
    returns, the returned node has no auxiliary key, even if the decoded
    mapping had one of its own. *)
Theorem decoded_node_has_no_auxiliary_key fuel (d : dict) (s : string) (mixed r : json) :
  Dict.get AUX d = Some (JStr s) ->
  json_loads s = Some mixed ->
  extract_mixed_content_from_json json_loads (S fuel) (JDict d) = Ok r ->
  exists d', r = JDict d' /\ Dict.get AUX d' = None.
Proof.
  intros Haux Hloads H.
  apply extract_dict in H as [d1 [r1 [Hm [H1 H]]]].
  unfold merge_mixed in Hm. rewrite Haux, Hloads in Hm.
  bind_inv Hm. injection Hm as <-.
  pose proof (get_entry_maps _ _ _ AUX H1) as Hr1.
  rewrite DictFacts.get_pop_same in Hr1.
  apply clean_dict_survivors in H as [d' [-> H2]].
  exists d'. split; [reflexivity|].
  pose proof (get_entry_maps _ _ _ AUX H2) as Hd'.
  rewrite (get_filter_keys (survives r1) r1 AUX), Hr1 in Hd'.
  now destruct (survives r1 AUX).
Qed.

Lemma plain_get (d : dict) key :
  Dict.mem key d = false -> Dict.get key d = None.
Proof. rewrite DictFacts.mem_get. now destruct (Dict.get key d). Qed.

Lemma clean_plain (v : json) :
  plain v = true -> clean_mixed_content_duplicates v = Ok v.
Proof.
  induction v as [| | | |l IH|d IH] using json_nested_ind; intros Hp;
    try reflexivity.
  - cbn [plain] in Hp. cbn [clean_mixed_content_duplicates].
    assert (Hfix : mapM clean_mixed_content_duplicates l = Ok l).
    { apply mapM_ok. rewrite forallb_forall in Hp. rewrite Forall_forall in IH.
      clear - Hp IH. induction l as [|x l IHl]; constructor.
      - apply IH; [now left|]. apply Hp. now left.
      - apply IHl; intros y Hy; [apply IH|apply Hp]; now right. }
    now rewrite Hfix.
  - cbn [plain] in Hp. apply andb_true_iff in Hp as [Hp Hvals].
    apply andb_true_iff in Hp as [_ Hc]. apply negb_true_iff in Hc.
    cbn [clean_mixed_content_duplicates].
    rewrite (popped_keys_no_content d (plain_get d "content" Hc)). cbn [bind].
    rewrite map_values_fixed; [reflexivity|].
    rewrite forallb_forall in Hvals. rewrite Forall_forall in IH |- *.
    intros kv Hkv. split; [reflexivity|]. apply (IH kv Hkv). apply (Hvals kv Hkv).
Qed.

(** X13.  A tree in which no node has the auxiliary key or a [content]
    key goes through the reconciliation pass unchanged (with fuel for its
    weight): a document without eligible elements keeps its generic
    tree. *)
Theorem plain_tree_is_returned_unchanged fuel :
  forall v,
    plain v = true -> weight v <= fuel ->
    extract_mixed_content_from_json json_loads fuel v = Ok v.
Proof.
  induction fuel as [|fuel IH]; intros v Hp Hw.
  - destruct v; simpl in Hw; lia.
  - destruct v as [| | | |l|d]; try reflexivity.
    + cbn [plain] in Hp. cbn [extract_mixed_content_from_json].
      assert (Hfix : mapM (extract_mixed_content_from_json json_loads fuel) l = Ok l).
      { apply mapM_ok. rewrite forallb_forall in Hp.
        assert (Hl : forall x, In x l -> weight x <= fuel).
        { intros x Hx. pose proof (weight_item l x Hx). lia. }
        clear Hw. induction l as [|x l IHl]; constructor.
        - apply IH; [apply Hp|apply Hl]; now left.
        - apply IHl; intros y Hy; [apply Hp|apply Hl]; now right. }
      now rewrite Hfix.
    + pose proof (clean_plain (JDict d) Hp) as Hclean.
      cbn [plain] in Hp. apply andb_true_iff in Hp as [Hp Hvals].
      apply andb_true_iff in Hp as [Ha _]. apply negb_true_iff in Ha.
      cbn [extract_mixed_content_from_json]. unfold merge_mixed.
      rewrite (plain_get d AUX Ha). cbn [bind].
      rewrite map_values_fixed; [exact Hclean|].
      rewrite forallb_forall in Hvals. apply Forall_forall.
      intros [k v] Hkv. split; [reflexivity|]. apply IH.
      * apply (Hvals (k, v) Hkv).
      * pose proof (weight_entry d k v Hkv). cbn [snd]. lia.
Qed.

(** X14.  The pass ends: when [json.loads] returns values no heavier than
    their text is long, fuel for the weight of the tree is enough, and the
    pass returns a tree or raises. *)
Theorem reconciliation_ends_within_weight (data : json) :
  (forall s v, json_loads s = Some v -> weight v <= String.length s) ->
  extract_mixed_content_from_json json_loads (weight data) data <> OutOfFuel.
Proof.
  intros Hlighter. apply (reconciliation_terminates json_loads Hlighter). apply le_n.
Qed.

End MergeFacts.

(** X10 on a node whose field [content] is overwritten by the decoded
    [content] list, and which gains the key [@n]. *)
Lemma merge_overwrites_and_removes_auxiliary_key_witness :
  exists d1,
    merge_mixed Json.loads node_to_merge = Ok d1
    /\ Dict.get AUX d1 = None
    /\ forall key,
         key <> AUX ->
         Dict.get key d1 = match Dict.get key encoded_mapping with
                           | Some v => Some v
                           | None => Dict.get key node_to_merge
                           end.
Proof.
  apply (merge_overwrites_and_removes_auxiliary_key Json.loads
           node_to_merge encoded_mapping (Json.dumps (JDict encoded_mapping)));
    vm_compute; reflexivity.
Defined.

Lemma unexpected_auxiliary_value_raises_witness :
  extract_mixed_content_from_json Json.loads 1 (JDict [(AUX, JNull)]) = Raise TypeError.
Proof.
  apply (unexpected_auxiliary_value_raises Json.loads 0 [(AUX, JNull)] JNull);
    [reflexivity|left; reflexivity].
Defined.

Lemma decoded_node_has_no_auxiliary_key_witness :
  exists d', JDict [("a", JStr "1")] = JDict d' /\ Dict.get AUX d' = None.
Proof.
  apply (decoded_node_has_no_auxiliary_key Json.loads 2
           [(AUX, JStr "{}"); ("a", JStr "1")] "{}" (JDict []));
    reflexivity.
Defined.

Lemma plain_tree_is_returned_unchanged_witness :
  extract_mixed_content_from_json Json.loads 29
    (JDict [("form", JList [JDict [("type", JStr "lemma"); ("orth", JStr "wort")]])])
  = Ok (JDict [("form", JList [JDict [("type", JStr "lemma"); ("orth", JStr "wort")]])]).
Proof.
  apply (plain_tree_is_returned_unchanged Json.loads 29); [reflexivity|].
  simpl. lia.
Defined.

Lemma reconciliation_ends_within_weight_witness :
  extract_mixed_content_from_json Json.loads (weight generic_note_doc) generic_note_doc
  <> OutOfFuel.
Proof.
  apply (reconciliation_ends_within_weight Json.loads generic_note_doc).
  exact loads_lighter.
Defined.

(* ------------------------------------------------------------------ *)
(** ** The identifier and the grouping code of a document *)

Lemma prefix_split (p s : string) :
  String.prefix p s = true -> s = (p ++ drop (String.length p) s)%string.
Proof.
  revert s. induction p as [|a p IH]; intros s H; [reflexivity|].
  destruct s as [|b s]; [discriminate|]. cbn [String.prefix] in H.
  destruct (ascii_dec a b) as [->|]; [|discriminate].
  cbn [String.length drop append]. now rewrite <- (IH s H).
Qed.

Lemma prefix_append (p a b : string) :
  String.prefix p a = true -> String.prefix p (a ++ b) = true.
Proof.
  revert a. induction p as [|c p IH]; intros a H; [now destruct (a ++ b)%string|].
  destruct a as [|d a]; [discriminate|]. cbn [String.prefix append] in *.
  destruct (ascii_dec c d); [now apply IH|discriminate].
Qed.

Lemma split_head_is_prefix (sep s : string) :
  exists rest, s = (split_head sep s ++ rest)%string.
Proof.
  induction s as [|c s [rest IH]].
  - exists "". reflexivity.
  - cbn [split_head]. destruct (String.prefix sep (String c s)).
    + exists (String c s). reflexivity.
    + exists rest. cbn [append]. now rewrite <- IH.
Qed.

Lemma split_head_before_separator (sep s : string) :
  PyStr.contains s sep = true ->
  exists rest, s = (split_head sep s ++ sep ++ rest)%string.
Proof.
  induction s as [|c s IH]; cbn [PyStr.contains split_head]; intros H.
  - rewrite orb_false_r in H. exists "". destruct sep; [reflexivity|discriminate].
  - destruct (String.prefix sep (String c s)) eqn:P.
    + exists (drop (String.length sep) (String c s)). now apply prefix_split.
    + cbn [orb] in H. destruct (IH H) as [rest Hrest].
      exists rest. cbn [append]. now rewrite <- Hrest.
Qed.

Lemma split_head_has_no_separator (sep s : string) :
  sep <> "" -> PyStr.contains (split_head sep s) sep = false.
Proof.
  intros Hsep.
  assert (Hempty : PyStr.contains "" sep = false).
  { cbn [PyStr.contains]. destruct sep; [congruence|reflexivity]. }
  induction s as [|c s IH]; [exact Hempty|].
  cbn [split_head]. destruct (String.prefix sep (String c s)) eqn:P; [exact Hempty|].
  cbn [PyStr.contains]. rewrite IH, orb_false_r.
  destruct (String.prefix sep (String c (split_head sep s))) eqn:P'; [|reflexivity].
  destruct (split_head_is_prefix sep s) as [rest Hrest].
  apply (prefix_append _ _ rest) in P'. cbn [append] in P'.
  rewrite <- Hrest in P'. congruence.
Qed.

Lemma entry_ids_of_elements (tree : Element) :
  entry_ids tree
  = flat_map
      (fun e =>
         if String.eqb (tag e) (TEI_BRACED ++ "entry")
         then match attrib_get (XML_BRACED ++ "id") (attrib e) with
              | Some v => [v]
              | None => []
              end
         else [])
      (elements tree).
Proof.
  induction tree as [tg attrs tx kids tl px ns IH] using Element_nested_ind.
  cbn [entry_ids elements flat_map tag attrib]. f_equal.
  induction kids as [|kid kids IHk]; [reflexivity|].
  inversion IH as [|? ? Hkid Hkids]; subst.
  cbn [flat_map]. rewrite flat_map_app, <- Hkid, <- (IHk Hkids). reflexivity.
Qed.

Section ParseFileFacts.
Variable json_dumps : json -> string.
Variable json_loads : string -> option json.

(** X15.  A record that [parse_tei_file] returns has a non-empty [id],
    the [xml:id] of the first TEI [entry] element of the document that has
    one.  Its [wb] is ["unknown"] when the identifier has no ["__"];
    otherwise [wb] is what stands before the first ["__"]: the identifier
    is [wb], then ["__"], then the rest, and [wb] has no ["__"] in it. *)
Theorem parsed_file_identifier fuel (tree : Element) (r : parsed_file) :
  parse_tei_file json_dumps json_loads fuel tree = Ok r ->
  hd_error (entry_ids tree) = Some (id r)
  /\ id r <> ""
  /\ (PyStr.contains (id r) "__" = false -> wb r = "unknown")
  /\ (PyStr.contains (id r) "__" = true ->
      PyStr.contains (wb r) "__" = false
      /\ exists rest, id r = (wb r ++ "__" ++ rest)%string).
Proof.
  unfold parse_tei_file, tei_to_json. intros H.
  destruct (entry_ids tree) as [|x ids]; [discriminate|].
  destruct (PyStr.truthy x) eqn:T; [|discriminate]. cbn [negb] in H.
  destruct (handle_mixed_content_elements json_dumps tree) as [marked outcome].
  bind_inv H. injection H as <-. cbn [id wb hd_error].
  split; [reflexivity|]. split; [intros ->; discriminate T|]. split.
  - now intros ->.
  - intros Hc. rewrite Hc. split.
    + now apply split_head_has_no_separator.
    + now apply split_head_before_separator.
Qed.

(** X16.  A document in which no TEI [entry] element has an [xml:id] is
    refused with [ValueError], whatever else it holds: nothing is
    converted, no identifier is made up. *)
Theorem document_without_entry_id_is_refused fuel (tree : Element) :
  forallb
    (fun e =>
       negb (String.eqb (tag e) (TEI_BRACED ++ "entry"))
       || match attrib_get (XML_BRACED ++ "id") (attrib e) with
          | Some _ => false
          | None => true
          end)
    (elements tree) = true ->
  parse_tei_file json_dumps json_loads fuel tree = Raise ValueError.
Proof.
  intros H. unfold parse_tei_file.
  assert (Hids : entry_ids tree = []).
  { rewrite entry_ids_of_elements. rewrite forallb_forall in H.
    induction (elements tree) as [|e l IH]; [reflexivity|].
    cbn [flat_map]. rewrite IH by (intros x Hx; apply H; now right).
    specialize (H e (or_introl eq_refl)).
    destruct (String.eqb (tag e) (TEI_BRACED ++ "entry")); [|reflexivity].
    cbn [negb orb] in H. now destruct (attrib_get _ (attrib e)). }
  now rewrite Hids.
Qed.

End ParseFileFacts.

Lemma parsed_file_identifier_witness :
  hd_error (entry_ids entry_doc) = Some "DWB__wort1"
  /\ "DWB__wort1" <> ""
  /\ (PyStr.contains "DWB__wort1" "__" = false -> "DWB" = "unknown")
  /\ (PyStr.contains "DWB__wort1" "__" = true ->
      PyStr.contains "DWB" "__" = false
      /\ exists rest, "DWB__wort1" = ("DWB" ++ "__" ++ rest)%string).
Proof.
  apply (parsed_file_identifier Json.dumps Json.loads 12 entry_doc
           (mkParsedFile "DWB__wort1" "DWB"
              (JDict
                 [("entry",
                   JDict
                     [("xmlns", JStr TEI_URI);
                      ("xmlId", JStr "DWB__wort1");
                      ("form", JList [JDict [("type", JStr "lemma"); ("orth", JStr "wort")]]);
                      ("sense",
                       JList
                         [JDict [("def", JStr "Simple text only");
                                 ("note", JList [JDict [("content", note_content)]])]])])])
              (tostring (fst (handle_mixed_content_elements Json.dumps entry_doc))))).
  vm_compute. reflexivity.
Defined.

Lemma document_without_entry_id_is_refused_witness :
  parse_tei_file Json.dumps Json.loads 12 note_pre_post = Raise ValueError.
Proof.
  apply (document_without_entry_id_is_refused Json.dumps Json.loads 12 note_pre_post).
  reflexivity.
Defined.

(* ------------------------------------------------------------------ *)
(** ** The rename leaves no reserved name behind *)

Section ReplaceFacts.
Variables old new : string.
Hypothesis old_not_empty : old <> "".

Lemma replace_from_skip k (s : string) :
  PyStr.replace_from old new k s = PyStr.replace_from old new 0 (drop k s).
Proof.
  revert s. induction k as [|k IH]; intros s; [now destruct s|].
  destruct s as [|c s]; [reflexivity|]. cbn [PyStr.replace_from drop]. apply IH.
Qed.

Lemma replace_from_match (s : string) :
  String.prefix old s = true ->
  PyStr.replace_from old new 0 s
  = (new ++ PyStr.replace_from old new 0 (drop (String.length old) s))%string.
Proof.
  intros H. destruct s as [|c s].
  - destruct old; [congruence|discriminate].
  - cbn [PyStr.replace_from]. rewrite H, replace_from_skip.
    destruct old as [|a o]; [congruence|]. reflexivity.
Qed.

Lemma replace_from_copy c (s : string) :
  String.prefix old (String c s) = false ->
  PyStr.replace_from old new 0 (String c s)
  = String c (PyStr.replace_from old new 0 s).
Proof. intros H. cbn [PyStr.replace_from]. now rewrite H. Qed.

Lemma contains_drop k (s p : string) :
  PyStr.contains s p = false -> PyStr.contains (drop k s) p = false.
Proof.
  revert s. induction k as [|k IH]; intros s H; [now destruct s|].
  destruct s as [|c s]; [exact H|]. cbn [drop]. apply IH.
  cbn [PyStr.contains] in H. now apply orb_false_iff in H.
Qed.

Variable x : ascii.
Variable new' : string.
Hypothesis new_head : new = String x new'.

(** A pattern without the first character of [new] is found at the
    front of the result only where it was at the front of the text. *)
Lemma prefix_of_replaced (p s : string) :
  forallb (fun c => negb (Ascii.eqb c x)) (list_ascii_of_string p) = true ->
  String.prefix p (PyStr.replace_from old new 0 s) = true ->
  String.prefix p s = true.
Proof.
  revert s. induction p as [|a p IH]; intros s Hp H; [now destruct s|].
  cbn [list_ascii_of_string forallb] in Hp. apply andb_true_iff in Hp as [Ha Hp].
  apply negb_true_iff, Ascii.eqb_neq in Ha.
  destruct s as [|c s]; [discriminate H|].
  destruct (String.prefix old (String c s)) eqn:P.
  - rewrite (replace_from_match _ P), new_head in H. cbn [append String.prefix] in H.
    destruct (ascii_dec a x); [congruence|discriminate].
  - rewrite (replace_from_copy _ _ P) in H. cbn [String.prefix] in *.
    destruct (ascii_dec a c); [now apply IH|discriminate].
Qed.

Variable p p' : string.
Hypothesis pattern_head : p = String x p'.
Hypothesis pattern_tail :
  forallb (fun c => negb (Ascii.eqb c x)) (list_ascii_of_string p') = true.
Hypothesis not_at_new : forall rest, String.prefix p (new ++ rest) = false.
Hypothesis not_across_new :
  forall rest, PyStr.contains (new ++ rest) p = PyStr.contains rest p.

Lemma pattern_at_front_of_replaced (s : string) :
  String.prefix p (PyStr.replace_from old new 0 s) = true ->
  String.prefix p s = true /\ String.prefix old s = false.
Proof.
  intros H. destruct s as [|c s]; [rewrite pattern_head in H; discriminate H|].
  destruct (String.prefix old (String c s)) eqn:P.
  - rewrite (replace_from_match _ P), not_at_new in H. discriminate.
  - split; [|reflexivity]. rewrite (replace_from_copy _ _ P) in H.
    rewrite pattern_head in *. cbn [String.prefix] in *.
    destruct (ascii_dec x c); [|discriminate].
    now apply (prefix_of_replaced p' s pattern_tail).
Qed.

(** The replacement makes no new occurrence of the pattern; and none of
    [old] itself is left. *)
Lemma no_occurrence_after_replace n :
  forall s,
    String.length s <= n ->
    PyStr.contains s p = false \/ p = old ->
    PyStr.contains (PyStr.replace_from old new 0 s) p = false.
Proof.
  induction n as [|n IH]; intros s Hn Hs.
  - destruct s; [|simpl in Hn; lia]. cbn [PyStr.replace_from PyStr.contains].
    rewrite pattern_head. reflexivity.
  - destruct s as [|c s].
    { cbn [PyStr.replace_from PyStr.contains]. rewrite pattern_head. reflexivity. }
    simpl in Hn.
    destruct (String.prefix old (String c s)) eqn:P.
    + rewrite (replace_from_match _ P), not_across_new. apply IH.
      * rewrite drop_length.
        assert (1 <= String.length old) by (destruct old; [congruence|simpl; lia]).
        cbn [String.length]. lia.
      * destruct Hs as [Hs|Hs]; [left; now apply contains_drop|now right].
    + rewrite (replace_from_copy _ _ P). cbn [PyStr.contains].
      apply orb_false_iff. split.
      * destruct (String.prefix p (String c (PyStr.replace_from old new 0 s))) eqn:Q;
          [|reflexivity].
        rewrite <- (replace_from_copy _ _ P) in Q.
        apply pattern_at_front_of_replaced in Q as [Q _].
        destruct Hs as [Hs|Hs].
        -- cbn [PyStr.contains] in Hs. apply orb_false_iff in Hs as [Hs _]. congruence.
        -- subst p. congruence.
      * apply IH; [lia|]. destruct Hs as [Hs|Hs]; [left|now right].
        cbn [PyStr.contains] in Hs. now apply orb_false_iff in Hs.
Qed.

End ReplaceFacts.

(** X17.  After the rename the text handed to [xmltodict.parse] holds
    neither [xml:id] nor [xml:lang] any more, wherever they stood, in
    names and in character data alike; the second replacement does not
    bring back the first name. *)
Theorem renamed_text_has_no_reserved_name (xml_text : string) :
  PyStr.contains (rename_reserved xml_text) "xml:id" = false
  /\ PyStr.contains (rename_reserved xml_text) "xml:lang" = false.
Proof.
  unfold rename_reserved, PyStr.replace.
  assert (H1 : PyStr.contains (PyStr.replace_from "xml:id" "xmlId" 0 xml_text) "xml:id"
               = false).
  { apply (no_occurrence_after_replace "xml:id" "xmlId" ltac:(discriminate)
             "x"%char "mlId" eq_refl "xml:id" "ml:id" eq_refl eq_refl
             ltac:(intros rest; reflexivity) ltac:(intros rest; reflexivity)
             _ _ (le_n _)).
    now right. }
  split.
  - apply (no_occurrence_after_replace "xml:lang" "xmlLang" ltac:(discriminate)
             "x"%char "mlLang" eq_refl "xml:id" "ml:id" eq_refl eq_refl
             ltac:(intros rest; reflexivity) ltac:(intros rest; reflexivity)
             _ _ (le_n _)).
    now left.
  - apply (no_occurrence_after_replace "xml:lang" "xmlLang" ltac:(discriminate)
             "x"%char "mlLang" eq_refl "xml:lang" "ml:lang" eq_refl eq_refl
             ltac:(intros rest; reflexivity) ltac:(intros rest; reflexivity)
             _ _ (le_n _)).
    now right.
Qed.

(* ------------------------------------------------------------------ *)
(** ** Batches: every file once *)

Lemma last_after {A : Type} (a b : list A) (d : A) :
  b <> [] -> last (a ++ b) d = last b d.
Proof.
  intros Hb. induction a as [|x a IH]; [reflexivity|].
  cbn [app last]. destruct (a ++ b) eqn:E; [|exact IH].
  apply app_eq_nil in E as [_ ->]. congruence.
Qed.

Section BatchFacts.
Variable path : Type.
Variable row : Type.
Variable parse : path -> option row.

Lemma parsed_rows_app (a b : list path) :
  parsed_rows parse (a ++ b) = parsed_rows parse a ++ parsed_rows parse b.
Proof. apply flat_map_app. Qed.

Lemma failed_count_app (a b : list path) :
  failed_count parse (a ++ b) = failed_count parse a + failed_count parse b.
Proof. unfold failed_count. now rewrite filter_app, length_app. Qed.

Lemma parsed_or_failed (files : list path) :
  List.length (parsed_rows parse files) + failed_count parse files = List.length files.
Proof.
  unfold parsed_rows, failed_count.
  induction files as [|f files IH]; [reflexivity|].
  cbn [flat_map filter]. destruct (parse f); simpl in *; lia.
Qed.

Lemma parse_batch_from (files : list path) (rows : list row) (n : nat) :
  fold_left
    (fun state filepath =>
       match parse filepath with
       | Some data => (fst state ++ [data], snd state)
       | None => (fst state, S (snd state))
       end)
    files (rows, n)
  = (rows ++ parsed_rows parse files, n + failed_count parse files).
Proof.
  revert rows n. induction files as [|f files IH]; intros rows n.
  - cbn. now rewrite app_nil_r, Nat.add_0_r.
  - cbn [fold_left]. unfold parsed_rows, failed_count in *. cbn [flat_map filter].
    destruct (parse f); cbn [fst snd]; rewrite IH.
    + now rewrite <- app_assoc.
    + cbn [List.length app]. f_equal. lia.
Qed.

Lemma import_batch_result (db : list (list row)) (files : list path) :
  import_batch path row parse db files
  = (db ++ sent [parsed_rows parse files],
     (List.length (parsed_rows parse files), failed_count parse files)).
Proof.
  unfold import_batch, parse_batch. rewrite parse_batch_from. cbn [app Nat.add].
  destruct (parsed_rows parse files); cbn [sent filter]; [now rewrite app_nil_r|reflexivity].
Qed.

Lemma slices_cover {A : Type} (l : list A) (size : nat) :
  0 < size ->
  forall fuel start,
    List.length l - start <= fuel ->
    concat (map (fun i => slice l i size) (range_from fuel start (List.length l) size))
    = skipn start l.
Proof.
  intros Hsize. induction fuel as [|fuel IH]; intros start Hfuel.
  - cbn. symmetry. apply skipn_all2. lia.
  - cbn [range_from]. destruct (start <? List.length l)%nat eqn:E.
    + apply Nat.ltb_lt in E. cbn [map concat]. rewrite IH by lia.
      unfold slice. rewrite Nat.add_comm, <- skipn_skipn. apply firstn_skipn.
    + apply Nat.ltb_ge in E. cbn. symmetry. now apply skipn_all2.
Qed.

Lemma import_batches_from (files : list path) (size : nat) (starts : list nat) :
  forall db imported failed,
    fold_left
      (fun state i =>
         let batch := slice files i size in
         let '(db, (success, fail)) := import_batch path row parse (fst state) batch in
         (db, (fst (snd state) + success, snd (snd state) + fail)))
      starts (db, (imported, failed))
    = (db ++ sent (map (fun i => parsed_rows parse (slice files i size)) starts),
       (imported
        + List.length (parsed_rows parse (concat (map (fun i => slice files i size) starts))),
        failed + failed_count parse (concat (map (fun i => slice files i size) starts)))).
Proof.
  induction starts as [|i starts IH]; intros db imported failed.
  - cbn. now rewrite app_nil_r, !Nat.add_0_r.
  - cbn [fold_left fst snd]. rewrite import_batch_result, IH.
    cbn [map concat]. rewrite parsed_rows_app, failed_count_app, length_app.
    f_equal; [|f_equal; lia].
    rewrite <- app_assoc. f_equal.
    unfold sent. cbn [filter]. now destruct (parsed_rows parse (slice files i size)).
Qed.

Lemma concat_sent (batches : list (list row)) : concat (sent batches) = concat batches.
Proof.
  induction batches as [|b batches IH]; [reflexivity|].
  unfold sent in *. cbn [filter]. destruct b; cbn [concat app]; [exact IH|].
  now rewrite IH.
Qed.

Lemma parsed_rows_concat (batches : list (list path)) :
  parsed_rows parse (concat batches) = concat (map (parsed_rows parse) batches).
Proof.
  induction batches as [|b batches IH]; [reflexivity|].
  cbn [concat map]. now rewrite parsed_rows_app, IH.
Qed.

Lemma parsed_rows_length (files : list path) :
  List.length (parsed_rows parse files) <= List.length files.
Proof. pose proof (parsed_or_failed files). lia. Qed.

(** X18.  With a positive batch size [import_directory] parses every
    file exactly once: the batches it sends to the database, put end to
    end, are the rows of the files that parse, in the order of the files;
    no batch is empty or longer than the batch size; [imported] counts
    these rows, and [imported + failed] is the number of files. *)
Theorem import_directory_takes_every_file_once
  (db : list (list row)) (tei_files : list path) (batch_size : Z) :
  (0 < batch_size)%Z ->
  exists batches imported failed,
    import_directory path row parse db tei_files batch_size = Ok (db ++ batches, (imported, failed))
    /\ concat batches = parsed_rows parse tei_files
    /\ Forall (fun b => b <> [] /\ List.length b <= Z.to_nat batch_size) batches
    /\ imported = List.length (parsed_rows parse tei_files)
    /\ imported + failed = List.length tei_files.
Proof.
  intros Hsize. unfold import_directory.
  destruct (List.length tei_files =? 0)%nat eqn:E.
  - apply Nat.eqb_eq in E. apply length_zero_iff_nil in E. subst tei_files.
    exists [], 0, 0. rewrite app_nil_r. repeat split. constructor.
  - unfold batch_starts.
    destruct (batch_size =? 0)%Z eqn:E0; [apply Z.eqb_eq in E0; lia|].
    destruct (batch_size <? 0)%Z eqn:E1; [apply Z.ltb_lt in E1; lia|].
    cbn [bind]. rewrite import_batches_from.
    set (size := Z.to_nat batch_size).
    assert (Hs : 0 < size) by (unfold size; lia).
    set (starts := range_from (List.length tei_files) 0 (List.length tei_files) size).
    assert (Hcover : concat (map (fun i => slice tei_files i size) starts) = tei_files).
    { unfold starts. rewrite (slices_cover tei_files size Hs) by lia. reflexivity. }
    rewrite Hcover. cbn [Nat.add].
    eexists _, _, _. split; [reflexivity|]. split; [|split; [|split]].
    + rewrite concat_sent.
      transitivity (parsed_rows parse (concat (map (fun i => slice tei_files i size) starts)));
        [|now rewrite Hcover].
      rewrite parsed_rows_concat, map_map. reflexivity.
    + apply Forall_forall. intros b Hb. unfold sent in Hb.
      apply filter_In in Hb as [Hb Hne]. split; [now destruct b|].
      apply in_map_iff in Hb as [i [<- _]].
      etransitivity; [apply parsed_rows_length|].
      unfold slice. rewrite length_firstn. lia.
    + reflexivity.
    + apply parsed_or_failed.
Qed.

(** X19.  The batch size is not checked.  With files to import, a batch
    size of zero raises [ValueError] (the step of [range]), and a negative
    one imports nothing and reports no failure: the database and both
    counters stay as they were. *)
Theorem import_directory_with_bad_batch_size
  (db : list (list row)) (tei_files : list path) (batch_size : Z) :
  tei_files <> [] ->
  (batch_size = 0%Z -> import_directory path row parse db tei_files batch_size = Raise ValueError)
  /\ ((batch_size < 0)%Z ->
      import_directory path row parse db tei_files batch_size = Ok (db, (0, 0))).
Proof.
  intros Hfiles. unfold import_directory, batch_starts.
  destruct tei_files as [|f files]; [congruence|]. cbn [List.length Nat.eqb].
  split.
  - intros ->. reflexivity.
  - intros Hneg. destruct (batch_size =? 0)%Z eqn:E0; [apply Z.eqb_eq in E0; lia|].
    apply Z.ltb_lt in Hneg. now rewrite Hneg.
Qed.

Variable convert_file : path -> bool.

Lemma convert_loop_counts (total : nat) (files : list path) :
  forall i converted failed,
    i = S (converted + failed) ->
    i + List.length files = S total ->
    match convert_loop path convert_file total i converted failed files with
    | (c, f, lines) =>
        c = converted + List.length (filter convert_file files)
        /\ c + f = converted + failed + List.length files
        /\ Forall (fun line => match line with (n, cn, fn) => cn + fn = n end) lines
        /\ (files <> [] -> last lines (0, 0, 0) = (total, c, f))
    end.
Proof.
  induction files as [|file files IH]; intros i converted failed Hi Htotal.
  - cbn. repeat split; [lia..|constructor|congruence].
  - cbn [convert_loop List.length filter] in *.
    set (converted' := if convert_file file then S converted else converted).
    set (failed' := if convert_file file then failed else S failed).
    assert (Hnext : S i = S (converted' + failed')).
    { unfold converted', failed'. destruct (convert_file file); lia. }
    specialize (IH (S i) converted' failed' Hnext ltac:(lia)).
    destruct (convert_loop path convert_file total (S i) converted' failed' files)
      as [[c f] lines] eqn:Eloop.
    destruct IH as [Hc [Hsum [Hlines Hlast]]].
    split; [|split; [|split]].
    + unfold converted' in Hc. destruct (convert_file file); cbn [List.length]; lia.
    + unfold converted', failed' in Hsum. destruct (convert_file file); lia.
    + apply Forall_app. split; [|exact Hlines].
      destruct (_ || _); constructor; [lia|constructor].
    + intros _. destruct files as [|file' files].
      * cbn in Htotal. assert (i = total) as -> by lia.
        cbn in Eloop. injection Eloop as <- <- <-.
        rewrite Nat.eqb_refl, orb_true_r. reflexivity.
      * specialize (Hlast ltac:(discriminate)).
        destruct lines as [|l0 lines]; [cbn in Hlast|].
        -- exfalso. injection Hlast as Ht _ _. cbn [List.length] in Htotal. lia.
        -- rewrite last_after; [exact Hlast|discriminate].
Qed.

(** X20.  [convert_directory] counts every file once, as converted or as
    failed; each progress line shows counters that add up to the number of
    files handled so far; and when there are files the last progress line
    is printed for the last file and shows the final counters. *)
Theorem convert_directory_counts_every_file (tei_files : list path) :
  match convert_directory path convert_file tei_files with
  | (converted, failed, lines) =>
      converted = List.length (filter convert_file tei_files)
      /\ converted + failed = List.length tei_files
      /\ Forall (fun line => match line with (n, cn, fn) => cn + fn = n end) lines
      /\ last lines (0, 0, 0) = (List.length tei_files, converted, failed)
  end.
Proof.
  unfold convert_directory.
  destruct tei_files as [|file files] eqn:E.
  - cbn. repeat split. constructor.
  - rewrite <- E.
    pose proof (convert_loop_counts (List.length tei_files) tei_files 1 0 0 eq_refl eq_refl)
      as H.
    destruct (convert_loop path convert_file (List.length tei_files) 1 0 0 tei_files)
      as [[c f] lines].
    destruct H as [Hc [Hsum [Hlines Hlast]]].
    split; [exact Hc|]. split; [exact Hsum|]. split; [exact Hlines|].
    apply Hlast. rewrite E. discriminate.
Qed.

End BatchFacts.

(** X18 on five files in batches of two, the odd-numbered files failing:
    the first and the last batch have no row and are not sent. *)
Lemma import_directory_takes_every_file_once_witness :
  (0 < 2)%Z
  /\ exists batches imported failed,
      import_directory nat nat (fun n => if Nat.even n then Some n else None)
        [[0]] [1; 3; 2; 4; 5] 2
      = Ok ([[0]] ++ batches, (imported, failed))
      /\ concat batches
         = parsed_rows (fun n => if Nat.even n then Some n else None) [1; 3; 2; 4; 5]
      /\ Forall (fun b => b <> [] /\ List.length b <= Z.to_nat 2) batches
      /\ imported
         = List.length
             (parsed_rows (fun n => if Nat.even n then Some n else None) [1; 3; 2; 4; 5])
      /\ imported + failed = List.length [1; 3; 2; 4; 5].
Proof.
  split; [lia|].
  apply (import_directory_takes_every_file_once nat nat
           (fun n => if Nat.even n then Some n else None) [[0]] [1; 3; 2; 4; 5] 2).
  lia.
Defined.

Lemma import_directory_with_bad_batch_size_witness :
  [1; 2] <> []
  /\ (0%Z = 0%Z ->
      import_directory nat nat (fun n => Some n) [] [1; 2] 0 = Raise ValueError)
  /\ ((0 < 0)%Z ->
      import_directory nat nat (fun n => Some n) [] [1; 2] 0 = Ok ([], (0, 0))).
Proof.
  split; [discriminate|].
  apply (import_directory_with_bad_batch_size nat nat (fun n => Some n) [] [1; 2] 0).
  discriminate.
Defined.

(* ------------------------------------------------------------------ *)
(** ** The field extractor and the marking pass *)

Lemma attrib_get_without_aux k (attrs : list (string * string)) :
  String.eqb AUX k = false ->
  attrib_get k (filter (fun kv => negb (String.eqb AUX (fst kv))) attrs)
  = attrib_get k attrs.
Proof.
  intros Hk. induction attrs as [|[k0 v0] attrs IH]; [reflexivity|].
  cbn [filter fst attrib_get]. destruct (String.eqb AUX k0) eqn:E; cbn [negb attrib_get].
  - apply String.eqb_eq in E. subst k0. rewrite String.eqb_sym, Hk. exact IH.
  - now rewrite IH.
Qed.

Lemma look_without_aux (e : Element) : look (without_aux e) = look e.
Proof.
  destruct e as [tg attrs tx kids tl px ns]. unfold look. cbn [without_aux tag attrib].
  f_equal. now apply attrib_get_without_aux.
Qed.

Lemma flat_map_of_map {A B C : Type} (g : A -> B) (f : B -> list C) (h : A -> list C)
  (l : list A) :
  (forall x, In x l -> f (g x) = h x) -> flat_map f (map g l) = flat_map h l.
Proof.
  induction l as [|x l IH]; intros H; [reflexivity|].
  cbn [map flat_map]. rewrite H by now left. f_equal. apply IH.
  intros y Hy. apply H. now right.
Qed.

Lemma text_nodes_without_aux chosen (e : Element) :
  forall parent,
    text_nodes chosen parent (without_aux e) = text_nodes chosen parent e.
Proof.
  induction e as [tg attrs tx kids tl px ns IH] using Element_nested_ind. intros parent.
  pose proof (look_without_aux (mkElement tg attrs tx kids tl px ns)) as Hlook.
  cbn [without_aux] in Hlook. cbn [without_aux text_nodes]. rewrite Hlook. f_equal.
  apply flat_map_of_map. intros kid Hkid.
  rewrite Forall_forall in IH. cbv beta.
  rewrite (IH kid Hkid), tail_without_aux. reflexivity.
Qed.

Lemma text_nodes_marked chosen json_dumps (tree : Element) :
  text_nodes chosen None (fst (handle_mixed_content_elements json_dumps tree))
  = text_nodes chosen None tree.
Proof.
  rewrite <- (text_nodes_without_aux chosen (fst _)), without_aux_marked.
  apply text_nodes_without_aux.
Qed.

(** X21.  The field extractor does not see the marking pass: on the tree
    as [tei_to_json] leaves it every path of [parse_tei_file] gives the
    texts it gives on the tree as parsed.  (The examples of the search
    text are read after [tei_to_json].) *)
Theorem field_extractor_ignores_marking json_dumps json_loads fuel (tree : Element) :
  (forall t,
      form_texts t (fst (tei_to_json json_dumps json_loads fuel tree)) = form_texts t tree)
  /\ definition_texts (fst (tei_to_json json_dumps json_loads fuel tree))
     = definition_texts tree
  /\ region_texts (fst (tei_to_json json_dumps json_loads fuel tree)) = region_texts tree
  /\ example_texts (fst (tei_to_json json_dumps json_loads fuel tree)) = example_texts tree.
Proof.
  assert (Hfst : fst (tei_to_json json_dumps json_loads fuel tree)
                 = fst (handle_mixed_content_elements json_dumps tree)).
  { unfold tei_to_json. now destruct (handle_mixed_content_elements json_dumps tree). }
  rewrite Hfst.
  unfold form_texts, definition_texts, region_texts, example_texts.
  repeat split; intros; apply text_nodes_marked.
Qed.

Lemma prefix_same (s : string) : String.prefix s s = true.
Proof.
  induction s as [|c s IH]; [reflexivity|].
  cbn [String.prefix]. now destruct (ascii_dec c c).
Qed.

Lemma contains_front (s rest : string) : PyStr.contains (s ++ rest) s = true.
Proof.
  assert (H : String.prefix s (s ++ rest) = true)
    by (apply prefix_append, prefix_same).
  destruct (s ++ rest)%string; cbn [PyStr.contains]; now rewrite H.
Qed.

Lemma contains_behind (a s sub : string) :
  PyStr.contains s sub = true -> PyStr.contains (a ++ s) sub = true.
Proof.
  intros H. induction a as [|c a IH]; [exact H|].
  cbn [append PyStr.contains]. rewrite IH. apply orb_true_r.
Qed.

Lemma contains_joined (sep part : string) (parts : list string) :
  In part parts -> PyStr.contains (String.concat sep parts) part = true.
Proof.
  induction parts as [|x parts IH]; [contradiction|].
  intros [->|Hin].
  - cbn [String.concat]. destruct parts.
    + pose proof (prefix_same part) as H.
      destruct part; cbn [PyStr.contains]; now rewrite H.
    + apply contains_front.
  - cbn [String.concat]. destruct parts as [|y parts]; [contradiction|].
    apply contains_behind, contains_behind, IH, Hin.
Qed.

(** X22.  The search text covers the document: the lemma, every variant,
    every definition and each of the first five example texts of the
    parsed document occur in [search_text]. *)
Theorem search_text_covers_the_columns set_list json_dumps (tree : Element) (part : string) :
  part = lemma (extract_columns set_list json_dumps tree)
  \/ In part (lemma_variants (extract_columns set_list json_dumps tree))
  \/ In part (definitions (extract_columns set_list json_dumps tree))
  \/ In part (firstn 5 (example_texts tree)) ->
  PyStr.contains (search_text (extract_columns set_list json_dumps tree)) part = true.
Proof.
  intros H. unfold extract_columns in *.
  cbn [lemma lemma_variants definitions search_text] in *.
  apply contains_joined.
  unfold example_texts. rewrite text_nodes_marked.
  fold (example_texts tree).
  rewrite !in_app_iff. cbn [In].
  destruct H as [->|[H|[H|H]]]; auto.
Qed.

(** X22 on a document with an example that has a child element: the text
    after the child is a part of its own. *)
Lemma search_text_covers_the_columns_witness :
  ("Post" = lemma (extract_columns (nodup string_dec) Json.dumps entry_with_fields)
   \/ In "Post"
        (lemma_variants (extract_columns (nodup string_dec) Json.dumps entry_with_fields))
   \/ In "Post"
        (definitions (extract_columns (nodup string_dec) Json.dumps entry_with_fields))
   \/ In "Post" (firstn 5 (example_texts entry_with_fields)))
  /\ PyStr.contains
       (search_text (extract_columns (nodup string_dec) Json.dumps entry_with_fields))
       "Post" = true.
Proof.
  split; [right; right; right; vm_compute; auto|].
  apply (search_text_covers_the_columns (nodup string_dec) Json.dumps entry_with_fields
           "Post").
  right; right; right. vm_compute. auto.
Defined.

(* ------------------------------------------------------------------ *)
(** ** The statistics table *)

(* ------------------------------------------------------------------ *)
(** ** The statistics table *)

Lemma stats_get_set_same k v d : stats_get k (stats_set k v d) = Some v.
Proof.
  induction d as [|[k0 v0] d IH]; cbn [stats_set stats_get].
  - now rewrite String.eqb_refl.
  - destruct (String.eqb k k0) eqn:E; cbn [stats_get];
      [now rewrite String.eqb_refl|now rewrite E].
Qed.

Lemma stats_set_twice k v w d : stats_set k v (stats_set k w d) = stats_set k v d.
Proof.
  induction d as [|[k0 v0] d IH]; cbn [stats_set].
  - now rewrite String.eqb_refl.
  - destruct (String.eqb k k0) eqn:E; cbn [stats_set];
      [now rewrite String.eqb_refl|now rewrite E, IH].
Qed.

Lemma stats_get_in k s d : stats_get k d = Some s -> In (k, s) d.
Proof.
  induction d as [|[k0 v0] d IH]; cbn [stats_get]; [discriminate|].
  destruct (String.eqb k k0) eqn:E.
  - apply String.eqb_eq in E. intros [= ->]. left. now subst.
  - intros H. right. now apply IH.
Qed.

(** The loop body as one update of the table. *)
Lemma count_entry_update wb_stats wb c :
  count_entry wb_stats wb c
  = stats_set wb
      (mkStats (count (get_or_zero wb wb_stats) + 1)
         (set_add (lemma c) (unique_lemmas (get_or_zero wb wb_stats)))
         (total_variants (get_or_zero wb wb_stats) + List.length (lemma_variants c))
         (total_definitions (get_or_zero wb wb_stats) + List.length (definitions c)))
      wb_stats.
Proof.
  unfold count_entry, get_or_zero. destruct (stats_get wb wb_stats) as [s|] eqn:E.
  - now rewrite E.
  - rewrite stats_get_set_same. apply stats_set_twice.
Qed.

Lemma keys_after_set k v d x :
  In x (map fst (stats_set k v d)) -> x = k \/ In x (map fst d).
Proof.
  induction d as [|[k0 v0] d IH]; cbn [stats_set map fst In].
  - intros [<-|[]]. now left.
  - destruct (String.eqb k k0) eqn:E; cbn [map fst In].
    + intros [<-|H]; [now left|right; now right].
    + intros [<-|H]; [right; now left|]. destruct (IH H); [now left|right; now right].
Qed.

Lemma keys_distinct_after_set k v d :
  NoDup (map fst d) -> NoDup (map fst (stats_set k v d)).
Proof.
  induction d as [|[k0 v0] d IH]; cbn [stats_set map fst]; intros H.
  - constructor; [intros []|constructor].
  - inversion H as [|? ? Hnot Hrest]; subst.
    destruct (String.eqb k k0) eqn:E; cbn [map fst].
    + apply String.eqb_eq in E. subst k0. now constructor.
    + constructor; [|now apply IH].
      intros Hin. apply keys_after_set in Hin as [->|Hin]; [|contradiction].
      now rewrite String.eqb_refl in E.
Qed.

Lemma all_after_set (P : string * stats -> Prop) k v d :
  P (k, v) -> Forall P d -> Forall P (stats_set k v d).
Proof.
  intros Hv. induction d as [|[k0 v0] d IH]; cbn [stats_set]; intros H.
  - now constructor.
  - inversion H; subst. destruct (String.eqb k k0); constructor; auto.
Qed.

Lemma sum_after_set (f : stats -> nat) k v d :
  f (mkStats 0 [] 0 0) = 0 ->
  list_sum (map (fun kv => f (snd kv)) (stats_set k v d)) + f (get_or_zero k d)
  = list_sum (map (fun kv => f (snd kv)) d) + f v.
Proof.
  intros Hzero. unfold get_or_zero, list_sum in *.
  induction d as [|[k0 v0] d IH]; cbn [stats_set stats_get map snd].
  - cbn. lia.
  - destruct (String.eqb k k0) eqn:E; cbn [map snd fold_right] in *; lia.
Qed.

Lemma set_add_length x s : List.length (set_add x s) <= S (List.length s).
Proof.
  unfold set_add. destruct (existsb _ s); [lia|]. rewrite length_app. cbn. lia.
Qed.

Lemma set_add_distinct x s : NoDup s -> NoDup (set_add x s).
Proof.
  intros H. unfold set_add. destruct (existsb (String.eqb x) s) eqn:E; [exact H|].
  apply NoDup_app; [exact H|constructor; [intros []|constructor]|].
  intros y Hy [Heq|[]]. subst y.
  assert (existsb (String.eqb x) s = true); [|congruence].
  apply existsb_exists. exists x. split; [exact Hy|apply String.eqb_refl].
Qed.

Section StatisticsFacts.
Variable path : Type.
Variable parse : path -> option (string * columns).

Lemma count_entry_sound wb_stats wb c :
  NoDup (map fst wb_stats) -> Forall sound_line wb_stats ->
  NoDup (map fst (count_entry wb_stats wb c))
  /\ Forall sound_line (count_entry wb_stats wb c)
  /\ list_sum (map (fun kv => count (snd kv)) (count_entry wb_stats wb c))
     = S (list_sum (map (fun kv => count (snd kv)) wb_stats))
  /\ list_sum (map (fun kv => total_definitions (snd kv)) (count_entry wb_stats wb c))
     = list_sum (map (fun kv => total_definitions (snd kv)) wb_stats)
       + List.length (definitions c).
Proof.
  intros Hkeys Hall. rewrite count_entry_update.
  assert (Hold : sound_line (wb, get_or_zero wb wb_stats)
                 \/ get_or_zero wb wb_stats = mkStats 0 [] 0 0).
  { unfold get_or_zero. destruct (stats_get wb wb_stats) as [s|] eqn:E; [left|now right].
    apply stats_get_in in E. rewrite Forall_forall in Hall. now apply Hall. }
  split; [now apply keys_distinct_after_set|]. split; [|split].
  - apply all_after_set; [|exact Hall]. unfold sound_line. cbn [snd count unique_lemmas].
    pose proof (set_add_length (lemma c) (unique_lemmas (get_or_zero wb wb_stats))) as Hlen.
    destruct Hold as [[H1 [H2 H3]]|Hz].
    + cbn [snd] in *. split; [lia|]. split; [lia|]. now apply set_add_distinct.
    + rewrite Hz in *. cbn [count unique_lemmas List.length] in *.
      split; [lia|]. split; [lia|]. apply set_add_distinct. constructor.
  - pose proof (sum_after_set count wb
                  (mkStats (count (get_or_zero wb wb_stats) + 1)
                     (set_add (lemma c) (unique_lemmas (get_or_zero wb wb_stats)))
                     (total_variants (get_or_zero wb wb_stats)
                      + List.length (lemma_variants c))
                     (total_definitions (get_or_zero wb wb_stats)
                      + List.length (definitions c)))
                  wb_stats eq_refl) as H.
    cbn [count] in H. lia.
  - pose proof (sum_after_set total_definitions wb
                  (mkStats (count (get_or_zero wb wb_stats) + 1)
                     (set_add (lemma c) (unique_lemmas (get_or_zero wb wb_stats)))
                     (total_variants (get_or_zero wb wb_stats)
                      + List.length (lemma_variants c))
                     (total_definitions (get_or_zero wb wb_stats)
                      + List.length (definitions c)))
                  wb_stats eq_refl) as H.
    cbn [total_definitions] in H. lia.
Qed.

Lemma statistics_from (files : list path) :
  forall wb_stats,
    NoDup (map fst wb_stats) -> Forall sound_line wb_stats ->
    NoDup (map fst
             (fold_left
                (fun wb_stats filepath =>
                   match parse filepath with
                   | Some (wb, c) => count_entry wb_stats wb c
                   | None => wb_stats
                   end) files wb_stats))
    /\ Forall sound_line
         (fold_left
            (fun wb_stats filepath =>
               match parse filepath with
               | Some (wb, c) => count_entry wb_stats wb c
               | None => wb_stats
               end) files wb_stats)
    /\ list_sum
         (map (fun kv => count (snd kv))
            (fold_left
               (fun wb_stats filepath =>
                  match parse filepath with
                  | Some (wb, c) => count_entry wb_stats wb c
                  | None => wb_stats
                  end) files wb_stats))
       = list_sum (map (fun kv => count (snd kv)) wb_stats)
         + List.length (parsed_rows parse files)
    /\ list_sum
         (map (fun kv => total_definitions (snd kv))
            (fold_left
               (fun wb_stats filepath =>
                  match parse filepath with
                  | Some (wb, c) => count_entry wb_stats wb c
                  | None => wb_stats
                  end) files wb_stats))
       = list_sum (map (fun kv => total_definitions (snd kv)) wb_stats)
         + list_sum (map (fun r => List.length (definitions (snd r)))
                       (parsed_rows parse files)).
Proof.
  induction files as [|file files IH]; intros wb_stats Hkeys Hall.
  - cbn. repeat split; auto.
  - cbn [fold_left]. unfold parsed_rows in *. cbn [flat_map].
    destruct (parse file) as [[wb c]|].
    + destruct (count_entry_sound wb_stats wb c Hkeys Hall) as [K [A [S1 S2]]].
      destruct (IH _ K A) as [K' [A' [S1' S2']]].
      split; [exact K'|]. split; [exact A'|].
      cbn [app List.length map list_sum snd]. split; [rewrite S1', S1; lia|].
      rewrite S2', S2. cbn [list_sum fold_right]. unfold list_sum. cbn [fold_right]. lia.
    + cbn [app]. now apply IH.
Qed.

(** X23.  The statistics table counts every file that parses once, under
    its dictionary code: the counts add up to the number of the files
    that parse and the definition totals to the number of their
    definitions; a code has one line; and a line has a count of one or
    more (the averages never divide by zero) and no more unique lemmas
    than entries. *)
Theorem statistics_count_every_parsed_file (tei_files : list path) :
  list_sum (map (fun kv => count (snd kv)) (collect_statistics parse tei_files))
  = List.length (parsed_rows parse tei_files)
  /\ list_sum (map (fun kv => total_definitions (snd kv))
                 (collect_statistics parse tei_files))
     = list_sum (map (fun r => List.length (definitions (snd r)))
                   (parsed_rows parse tei_files))
  /\ NoDup (map fst (collect_statistics parse tei_files))
  /\ Forall (fun kv => 1 <= count (snd kv)
                       /\ List.length (unique_lemmas (snd kv)) <= count (snd kv))
       (collect_statistics parse tei_files).
Proof.
  unfold collect_statistics.
  destruct (statistics_from tei_files [] (NoDup_nil _) (Forall_nil _))
    as [K [A [S1 S2]]].
  split; [exact S1|]. split; [exact S2|]. split; [exact K|].
  eapply Forall_impl; [|exact A]. intros kv [H1 [H2 _]]. now split.
Qed.

End StatisticsFacts.
